(** * VanillaJS page template: a model of [src/script.js] and its properties

    The script is browser glue code: a logger, a wrapper around
    [localStorage], DOM helpers, a modal dialog and a "change the background
    colour" demo.  The model below follows the script object by object
    ([Log], [Storage], [DOM], [Modal], [CONFIG], [STATE], [Pure], [Effects],
    [Logic], [Handlers], [Listeners], [App], and, of [Tools],
    [lightenColor], [debounce] and [throttle]);
    the page and the script's mutable objects are one record, [page], threaded
    through a state-and-exception monad.

    [src/script.js] holds two revisions of the script.  The model follows
    the first, which defines the [Storage] object that [STATE] reads; the
    [DOM], [Modal], [STATE], [Pure] and [Effects] objects are the same in
    both. *)

From Stdlib Require Import ZArith NArith Lia.
From stdpp Require Import gmap strings list fin_maps.

Open Scope Z_scope.

#[global] Set Warnings "-register-all,-clear-no-such-hyp".

(** ** JavaScript strings

    A JavaScript string is a sequence of UTF-16 code units.  Literals of the
    script are written as Rocq strings and converted with [units]. *)

Definition jstring := list N.

Definition units (s : string) : jstring :=
  (λ a, Ascii.N_of_ascii a) <$> String.list_ascii_of_string s.

(** ** Numbers of the kind [Math.random] returns

    A double in [0, 1) is [mant * 2^expo] with a significand of at most 53
    bits and an exponent between -1074 (the smallest subnormal) and -53. *)

Record double := Double { mant : Z; expo : Z }.

Definition in_unit_interval (r : double) : Prop :=
  0 <= mant r < 2 ^ 53 ∧ -1074 <= expo r <= -53.

(** IEEE 754 rounding to nearest, ties to even, of the exact value
    [m * 2^e] (for [0 <= m], and [e] no smaller than -1074 so that no
    precision is lost to subnormals) to a 53-bit significand. *)
Definition round_nearest_even (m e : Z) : double :=
  let drop := Z.log2 m + 1 - 53 in
  if drop <=? 0 then Double m e
  else
    let q := Z.shiftr m drop in
    let rest := Z.land m (Z.ones drop) in
    let half := Z.shiftl 1 (drop - 1) in
    let up := (half <? rest) || ((rest =? half) && Z.odd q) in
    Double (if up then q + 1 else q) (e + drop).

(** [a * b] on doubles: the exact product, rounded. *)
Definition double_mul (a b : double) : double :=
  round_nearest_even (mant a * mant b) (expo a + expo b).

(** [Math.floor], as an integer. *)
Definition Math_floor (x : double) : Z := Z.shiftl (mant x) (expo x).

(** [Number.prototype.toString(16)] on a non-negative integer. *)
Definition hex_digit (d : Z) : N :=
  Z.to_N (if d <? 10 then 48 + d else 87 + d).

Fixpoint to_hex (fuel : nat) (n : Z) : jstring :=
  match fuel with
  | O => []
  | S fuel' =>
      if n <? 16 then [hex_digit n]
      else to_hex fuel' (n / 16) ++ [hex_digit (n mod 16)]
  end.

Definition toString16 (n : Z) : jstring := to_hex (S (Z.to_nat (Z.log2 n))) n.

(** [String.prototype.padStart(target, fill)] for a one-unit [fill]. *)
Definition padStart (target : nat) (fill : N) (s : jstring) : jstring :=
  replicate (target - length s) fill ++ s.

(** ** JavaScript values

    A number read by [JSON.parse] is kept as the decimal it was written as,
    [(-1)^negative * coefficient * 10^exponent10]. *)

Record number := Number { negative : bool; coefficient : N; exponent10 : Z }.

Inductive jsval :=
| JUndefined
| JNull
| JBool (b : bool)
| JNum (x : number)
| JStr (s : jstring)
| JArr (items : list jsval)
| JObj (members : list (jstring * jsval)).

(** The double nearest to a decimal is [0] when the decimal is 0 or at most
    [2^-1075], half the smallest subnormal (the tie goes to the even 0). *)
Definition number_is_zero (x : number) : bool :=
  (coefficient x =? 0)%N
  || ((exponent10 x <? 0)
      && (Z.of_N (coefficient x) * 2 ^ 1075 <=? 10 ^ (- exponent10 x))).

(** ToBoolean. *)
Definition truthy (v : jsval) : bool :=
  match v with
  | JUndefined | JNull => false
  | JBool b => b
  | JNum x => negb (number_is_zero x)
  | JStr s => negb (bool_decide (s = []))
  | JArr _ | JObj _ => true
  end.

Inductive exn :=
| TypeError (message : string)
| SyntaxError
| SecurityError
| QuotaExceededError.

(** ** The page

    Functions the script hands to the browser are first-order here: a
    listener is one of the closures the script creates, and the continuation
    given to [Modal.confirm] is a label (or a value that cannot be called). *)

Inductive callback := not_callable | Callback (label : string).

Inductive handler :=
| h_backdrop                       (* (e) => { if (e.target === Modal.$.element) Modal.close() } *)
| h_close                          (* Modal.close *)
| h_escape                         (* (e) => { if (e.key === 'Escape' && Modal.isOpen()) Modal.close() } *)
| h_confirm (onConfirm : callback) (* () => { Modal.close(); onConfirm() } *)
| h_changeColorClick.              (* Handlers.changeColorClick *)

Inductive node :=
| Text (data : jstring)
| Elem (e : element)
with element :=
  Element (tag : string) (classList : gset string) (style : gmap string jstring)
          (listeners : list (string * handler)) (childNodes : list node).

Definition classList (e : element) := let 'Element _ c _ _ _ := e in c.
Definition style (e : element) := let 'Element _ _ st _ _ := e in st.
Definition listeners (e : element) := let 'Element _ _ _ ls _ := e in ls.
Definition childNodes (e : element) := let 'Element _ _ _ _ ch := e in ch.

Definition set_classList (f : gset string → gset string) (e : element) :=
  let 'Element t c st ls ch := e in Element t (f c) st ls ch.
Definition set_style (f : gmap string jstring → gmap string jstring) (e : element) :=
  let 'Element t c st ls ch := e in Element t c (f st) ls ch.
Definition set_listeners
    (f : list (string * handler) → list (string * handler)) (e : element) :=
  let 'Element t c st ls ch := e in Element t c st (f ls) ch.
Definition set_childNodes (f : list node → list node) (e : element) :=
  let 'Element t c st ls ch := e in Element t c st ls (f ch).

(** A reference to something the script holds: the document, an element
    resolved from a selector ([at_ key []]), or a descendant of one, named by
    the path of child indices that leads to it. *)
Inductive ref :=
| the_document
| at_ (key : string) (path : list nat).

Global Instance ref_eq_dec : EqDecision ref.
Proof. solve_decision. Defined.

Record storage := Storage_area {
  items : gmap string jstring;
  available : bool;     (* [false]: every access raises a SecurityError *)
  capacity : nat        (* code units the area holds before QuotaExceededError *)
}.

Inductive logged := L_val (v : jsval) | L_exn (e : exn).

Inductive console_entry :=
| console_log (mode : string) (args : list logged)
| console_error (args : list logged).

(** What the script takes from the engine without the model looking inside:
    the HTML fragment parser behind [innerHTML], the CSS value parser behind
    [style\[property\] = value] ([None]: the value is rejected), and the text
    [JSON.stringify] gives a number, an array or an object. *)
Record platform := Platform {
  parseHTML : jstring → list node;
  cssValue : string → jsval → option jstring;
  serialize : jsval → jstring
}.

(** ** JSON

    [JSON.stringify] of a string (QuoteJSONString): the short escapes,
    [\uXXXX] for the other control characters and for surrogates that are not
    part of a pair, every other code unit as it is. *)

Definition hex_lower (d : N) : N := (if d <? 10 then 48 + d else 87 + d)%N.

Definition unicode_escape (c : N) : jstring :=
  [92; 117; hex_lower (c / 4096); hex_lower ((c / 256) mod 16);
   hex_lower ((c / 16) mod 16); hex_lower (c mod 16)]%N.

Definition is_lead (c : N) : bool := ((55296 <=? c) && (c <=? 56319))%N.
Definition is_trail (c : N) : bool := ((56320 <=? c) && (c <=? 57343))%N.

Definition quote_unit (c : N) : jstring :=
  (if c =? 8 then [92; 98]
   else if c =? 9 then [92; 116]
   else if c =? 10 then [92; 110]
   else if c =? 12 then [92; 102]
   else if c =? 13 then [92; 114]
   else if c =? 34 then [92; 34]
   else if c =? 92 then [92; 92]
   else if (c <? 32) || is_lead c || is_trail c then unicode_escape c
   else [c])%N.

Fixpoint quote_body (s : jstring) : jstring :=
  match s with
  | [] => []
  | c :: t =>
      match t with
      | d :: t' =>
          if is_lead c && is_trail d then c :: d :: quote_body t'
          else quote_unit c ++ quote_body t
      | [] => quote_unit c ++ quote_body t
      end
  end.

Definition QuoteJSONString (s : jstring) : jstring :=
  34%N :: quote_body s ++ [34%N].

(** [JSON.stringify(value)]; [None] is [undefined]. *)
Definition JSON_stringify (b : platform) (value : jsval) : option jstring :=
  match value with
  | JUndefined => None
  | JNull => Some (units "null")
  | JBool true => Some (units "true")
  | JBool false => Some (units "false")
  | JStr s => Some (QuoteJSONString s)
  | JNum _ | JArr _ | JObj _ => Some (serialize b value)
  end.

(** [JSON.parse]: the JSON grammar of ECMA-404.  An object is kept as the
    list of its members as written. *)

Definition is_ws (c : N) : bool :=
  ((c =? 9) || (c =? 10) || (c =? 13) || (c =? 32))%N.

Fixpoint skip_ws (inp : jstring) : jstring :=
  match inp with
  | c :: t => if is_ws c then skip_ws t else inp
  | [] => []
  end.

Definition is_digit (c : N) : bool := ((48 <=? c) && (c <=? 57))%N.

Definition hex_value (c : N) : option N :=
  (if (48 <=? c) && (c <=? 57) then Some (c - 48)
   else if (97 <=? c) && (c <=? 102) then Some (c - 87)
   else if (65 <=? c) && (c <=? 70) then Some (c - 55)
   else None)%N.

Definition escape_unit (c : N) : option N :=
  (if c =? 34 then Some 34
   else if c =? 92 then Some 92
   else if c =? 47 then Some 47
   else if c =? 98 then Some 8
   else if c =? 102 then Some 12
   else if c =? 110 then Some 10
   else if c =? 114 then Some 13
   else if c =? 116 then Some 9
   else None)%N.

(** The characters of a string literal after its opening quote. *)
Fixpoint scan_string (inp acc : jstring) : option (jstring * jstring) :=
  match inp with
  | [] => None
  | c :: t =>
      if (c =? 34)%N then Some (reverse acc, t)
      else if (c =? 92)%N then
        match t with
        | e :: t1 =>
            if (e =? 117)%N then
              match t1 with
              | h3 :: h2 :: h1 :: h0 :: t2 =>
                  match hex_value h3, hex_value h2, hex_value h1, hex_value h0 with
                  | Some x3, Some x2, Some x1, Some x0 =>
                      scan_string t2 ((x3 * 4096 + x2 * 256 + x1 * 16 + x0)%N :: acc)
                  | _, _, _, _ => None
                  end
              | _ => None
              end
            else match escape_unit e with
                 | Some u => scan_string t1 (u :: acc)
                 | None => None
                 end
        | [] => None
        end
      else if (c <? 32)%N then None
      else scan_string t (c :: acc)
  end.

Fixpoint scan_digits (inp : jstring) (acc : N) (count : nat) : N * nat * jstring :=
  match inp with
  | c :: t =>
      if is_digit c then scan_digits t (acc * 10 + (c - 48))%N (S count)
      else (acc, count, inp)
  | [] => (acc, count, [])
  end.

(** A number: an optional minus sign, an integer part without a leading
    zero, an optional fraction and an optional exponent. *)
Definition scan_number (inp : jstring) : option (number * jstring) :=
  let '(neg, inp) :=
    match inp with
    | c :: t => if (c =? 45)%N then (true, t) else (false, inp)
    | [] => (false, inp)
    end in
  match inp with
  | c :: t =>
      if is_digit c then
        let '(int, rest1) :=
          if (c =? 48)%N then (0%N, t)
          else let '(v, _, r) := scan_digits inp 0%N 0%nat in (v, r) in
        let fraction :=
          match rest1 with
          | c1 :: t1 =>
              if (c1 =? 46)%N then
                let '(v, n, r) := scan_digits t1 int 0%nat in
                if bool_decide (n = 0%nat) then None else Some (v, n, r)
              else Some (int, 0%nat, rest1)
          | [] => Some (int, 0%nat, rest1)
          end in
        match fraction with
        | None => None
        | Some (coef, nfrac, rest2) =>
            match rest2 with
            | c2 :: t2 =>
                if ((c2 =? 101) || (c2 =? 69))%N then
                  let '(eneg, t3) :=
                    match t2 with
                    | c3 :: t3 =>
                        if (c3 =? 45)%N then (true, t3)
                        else if (c3 =? 43)%N then (false, t3)
                        else (false, t2)
                    | [] => (false, t2)
                    end in
                  let '(ev, n, r) := scan_digits t3 0%N 0%nat in
                  if bool_decide (n = 0%nat) then None
                  else Some (Number neg coef
                               ((if eneg then - Z.of_N ev else Z.of_N ev) - Z.of_nat nfrac), r)
                else Some (Number neg coef (- Z.of_nat nfrac), rest2)
            | [] => Some (Number neg coef (- Z.of_nat nfrac), rest2)
            end
        end
      else None
  | [] => None
  end.

Fixpoint strip_prefix (p inp : jstring) : option jstring :=
  match p with
  | [] => Some inp
  | c :: p' =>
      match inp with
      | d :: t => if (c =? d)%N then strip_prefix p' t else None
      | [] => None
      end
  end.

(** A value, then the elements of an array after its first bracket and the
    members of an object after its first brace; [inp] starts at a token. *)
Fixpoint parse_value (fuel : nat) (inp : jstring) : option (jsval * jstring) :=
  match fuel with
  | O => None
  | S fuel' =>
      match inp with
      | [] => None
      | c :: t =>
          if (c =? 34)%N then '(s, r) ← scan_string t []; Some (JStr s, r)
          else if (c =? 91)%N then
            match skip_ws t with
            | d :: r => if (d =? 93)%N then Some (JArr [], r)
                        else parse_elements fuel' (d :: r) []
            | [] => None
            end
          else if (c =? 123)%N then
            match skip_ws t with
            | d :: r => if (d =? 125)%N then Some (JObj [], r)
                        else parse_members fuel' (d :: r) []
            | [] => None
            end
          else if (c =? 110)%N then r ← strip_prefix (units "null") inp; Some (JNull, r)
          else if (c =? 116)%N then r ← strip_prefix (units "true") inp; Some (JBool true, r)
          else if (c =? 102)%N then r ← strip_prefix (units "false") inp; Some (JBool false, r)
          else '(x, r) ← scan_number inp; Some (JNum x, r)
      end
  end
with parse_elements (fuel : nat) (inp : jstring) (acc : list jsval)
    : option (jsval * jstring) :=
  match fuel with
  | O => None
  | S fuel' =>
      '(v, r) ← parse_value fuel' inp;
      match skip_ws r with
      | d :: r' =>
          if (d =? 44)%N then parse_elements fuel' (skip_ws r') (v :: acc)
          else if (d =? 93)%N then Some (JArr (reverse (v :: acc)), r')
          else None
      | [] => None
      end
  end
with parse_members (fuel : nat) (inp : jstring) (acc : list (jstring * jsval))
    : option (jsval * jstring) :=
  match fuel with
  | O => None
  | S fuel' =>
      match inp with
      | q :: t =>
          if (q =? 34)%N then
            '(k, r) ← scan_string t [];
            match skip_ws r with
            | col :: r1 =>
                if (col =? 58)%N then
                  '(v, r2) ← parse_value fuel' (skip_ws r1);
                  match skip_ws r2 with
                  | d :: r3 =>
                      if (d =? 44)%N then parse_members fuel' (skip_ws r3) ((k, v) :: acc)
                      else if (d =? 125)%N then Some (JObj (reverse ((k, v) :: acc)), r3)
                      else None
                  | [] => None
                  end
                else None
            | [] => None
            end
          else None
      | [] => None
      end
  end.

(** [None]: the text is not JSON and [JSON.parse] throws a SyntaxError.
    Between two recursive calls that read no character lies one that does,
    so twice the length of the text is fuel enough. *)
Definition JSON_parse (text : jstring) : option jsval :=
  '(v, r) ← parse_value (2 * length text + 2) (skip_ws text);
  match skip_ws r with
  | [] => Some v
  | _ => None
  end.

Record page := Page {
  browser : platform;
  document : gmap string element;        (* document.querySelector(key), for the selectors resolved at load *)
  templates : gmap string (list node);   (* content of the <template> with a given id *)
  document_listeners : list (string * handler);
  body_overflow : jstring;               (* document.body.style.overflow *)
  localStorage : storage;
  console : list console_entry;
  Log_ready : bool;                      (* Log.init() has installed Log.red, Log.gray, ... *)
  STATE_mainColor : jsval;
  called : list callback                 (* continuations invoked so far *)
}.

Definition with_document (f : gmap string element → gmap string element) (s : page) :=
  Page (browser s) (f (document s)) (templates s) (document_listeners s)
       (body_overflow s) (localStorage s) (console s) (Log_ready s)
       (STATE_mainColor s) (called s).
Definition with_document_listeners
    (f : list (string * handler) → list (string * handler)) (s : page) :=
  Page (browser s) (document s) (templates s) (f (document_listeners s))
       (body_overflow s) (localStorage s) (console s) (Log_ready s)
       (STATE_mainColor s) (called s).
Definition with_body_overflow (v : jstring) (s : page) :=
  Page (browser s) (document s) (templates s) (document_listeners s)
       v (localStorage s) (console s) (Log_ready s)
       (STATE_mainColor s) (called s).
Definition with_localStorage (v : storage) (s : page) :=
  Page (browser s) (document s) (templates s) (document_listeners s)
       (body_overflow s) v (console s) (Log_ready s)
       (STATE_mainColor s) (called s).
Definition with_console (f : list console_entry → list console_entry) (s : page) :=
  Page (browser s) (document s) (templates s) (document_listeners s)
       (body_overflow s) (localStorage s) (f (console s)) (Log_ready s)
       (STATE_mainColor s) (called s).
Definition with_Log_ready (v : bool) (s : page) :=
  Page (browser s) (document s) (templates s) (document_listeners s)
       (body_overflow s) (localStorage s) (console s) v
       (STATE_mainColor s) (called s).
Definition with_STATE_mainColor (v : jsval) (s : page) :=
  Page (browser s) (document s) (templates s) (document_listeners s)
       (body_overflow s) (localStorage s) (console s) (Log_ready s)
       v (called s).
Definition with_called (f : list callback → list callback) (s : page) :=
  Page (browser s) (document s) (templates s) (document_listeners s)
       (body_overflow s) (localStorage s) (console s) (Log_ready s)
       (STATE_mainColor s) (f (called s)).

(** ** Running the script: state and exceptions

    A call either returns or throws; what it did to the page before
    throwing stays done. *)

Inductive result (A : Type) :=
| Ok (a : A)
| Throw (e : exn).
Arguments Ok {A} a.
Arguments Throw {A} e.

Definition M (A : Type) : Type := page → result A * page.

Global Instance M_ret : MRet M := λ A a s, (Ok a, s).
Global Instance M_bind : MBind M := λ A B f m s,
  match m s with
  | (Ok a, s') => f a s'
  | (Throw e, s') => (Throw e, s')
  end.

Definition throw {A} (e : exn) : M A := λ s, (Throw e, s).
Definition gets {A} (f : page → A) : M A := λ s, (Ok (f s), s).
Definition modify (f : page → page) : M unit := λ s, (Ok tt, f s).

(** [try { body } catch (e) { handler e }]. *)
Definition try_catch {A} (body : M A) (handler : exn → M A) : M A := λ s,
  match body s with
  | (Ok a, s') => (Ok a, s')
  | (Throw e, s') => handler e s'
  end.

(** The page a call leaves behind, returned or thrown. *)
Definition exec {A} (m : M A) (s : page) : page := (m s).2.

Definition console_write (entry : console_entry) : M unit :=
  modify (with_console (λ c, c ++ [entry])).

(** ** UTILITIES: Logger *)

Module Log.

Definition active : bool := true.

Definition styles : list (string * (string * bool)) :=
  [ ("blue", ("color: steelblue;", true));
    ("gray", ("color: gray;", true));
    ("orange", ("color: orange;", true));
    ("red", ("color: red;", true));
    ("white", ("color: white;", true));
    ("yellow", ("color: yellow;", true)) ].

(** The entry written records the mode and the arguments; the caller name
    read off the stack trace and the CSS of the format string are
    presentation. *)
Definition styled (mode : string) (args : list logged) : M unit :=
  if negb active then mret tt
  else match list_to_map (M := gmap string (string * bool)) styles !! mode with
       | Some (_, true) => console_write (console_log mode args)
       | _ => mret tt
       end.

(** [Object.keys(this.styles).forEach(mode => this[mode] = ...)]. *)
Definition init : M unit := modify (with_Log_ready true).

(** A call [Log.<mode>(...args)]: the method exists once [init] has run. *)
Definition shortcut (mode : string) (args : list logged) : M unit :=
  ready ← gets Log_ready;
  if ready && bool_decide (mode ∈ styles.*1) then styled mode args
  else throw (TypeError ("Log." +:+ mode +:+ " is not a function")).

Definition blue := shortcut "blue".
Definition gray := shortcut "gray".
Definition red := shortcut "red".
Definition white := shortcut "white".
Definition yellow := shortcut "yellow".

End Log.

(** ** UTILITIES: Storage *)

Definition usage (m : gmap string jstring) : nat :=
  map_fold (λ k v n, String.length k + length v + n)%nat 0%nat m.

Definition localStorage_getItem (key : string) : M (option jstring) :=
  st ← gets localStorage;
  if available st then mret (items st !! key) else throw SecurityError.

Definition localStorage_setItem (key : string) (value : jstring) : M unit :=
  st ← gets localStorage;
  if negb (available st) then throw SecurityError
  else
    let items' := <[key := value]> (items st) in
    if bool_decide (usage items' ≤ capacity st)%nat
    then modify (with_localStorage (Storage_area items' (available st) (capacity st)))
    else throw QuotaExceededError.

Module Storage.

(** [item ? JSON.parse(item) : defaultValue]: a missing item ([null]) and
    the empty string are falsy. *)
Definition get (key : string) (defaultValue : jsval) : M jsval :=
  try_catch
    (item ← localStorage_getItem key;
     match item with
     | Some (c :: text) =>
         match JSON_parse (c :: text) with
         | Some v => mret v
         | None => throw SyntaxError
         end
     | _ => mret defaultValue
     end)
    (λ e, Log.red [L_val (JStr (units "Storage read error:")); L_exn e];;
          mret defaultValue).

Definition set (key : string) (value : jsval) : M bool :=
  try_catch
    (b ← gets browser;
     localStorage_setItem key (default (units "undefined") (JSON_stringify b value));;
     mret true)
    (λ e, Log.red [L_val (JStr (units "Storage write error:")); L_exn e];;
          mret false).

End Storage.

(** ** UTILITIES: DOM API *)

(** [querySelector] for the selectors the script uses on content, which are
    all of the form [.class]: the first element in document order, among the
    descendants, that carries the class. *)
Definition selects (selector : string) (e : element) : bool :=
  match selector with
  | String c cls => Ascii.eqb c (Ascii.ascii_of_nat 46) && bool_decide (cls ∈ classList e)
  | EmptyString => false
  end.

Definition first_in {A} (f : node → option A) : list node → nat → option (nat * A) :=
  fix go l i :=
    match l with
    | [] => None
    | n :: l' =>
        match f n with
        | Some a => Some (i, a)
        | None => go l' (S i)
        end
    end.

Fixpoint query_node (selector : string) (n : node) {struct n} : option (list nat) :=
  match n with
  | Text _ => None
  | Elem e =>
      if selects selector e then Some []
      else let 'Element _ _ _ _ ch := e in
           (λ '(i, p), i :: p) <$> first_in (query_node selector) ch 0%nat
  end.

Definition querySelector (selector : string) (l : list node) : option (list nat) :=
  (λ '(i, p), i :: p) <$> first_in (query_node selector) l 0%nat.

Definition on_element (f : element → element) (n : node) : node :=
  match n with
  | Elem c => Elem (f c)
  | Text _ => n
  end.

Fixpoint alter_at (p : list nat) (f : element → element) (e : element) : element :=
  match p with
  | [] => f e
  | i :: p' => set_childNodes (alter (on_element (alter_at p' f)) i) e
  end.

Definition alter_in (p : list nat) (f : element → element) (l : list node) : list node :=
  match p with
  | [] => l
  | i :: p' => alter (on_element (alter_at p' f)) i l
  end.

Fixpoint lookup_at (p : list nat) (e : element) : option element :=
  match p with
  | [] => Some e
  | i :: p' =>
      match childNodes e !! i with
      | Some (Elem c) => lookup_at p' c
      | _ => None
      end
  end.

Definition deref (r : ref) (s : page) : option element :=
  match r with
  | the_document => None
  | at_ k p => document s !! k ≫= lookup_at p
  end.

Definition update (r : ref) (f : element → element) : M unit :=
  match r with
  | the_document => mret tt
  | at_ k p => modify (with_document (alter (alter_at p f) k))
  end.

Global Instance callback_eq_dec : EqDecision callback.
Proof. solve_decision. Defined.
Global Instance handler_eq_dec : EqDecision handler.
Proof. solve_decision. Defined.

(** [addEventListener] ignores a listener that is already registered for the
    type; only [Modal.close] and [Handlers.changeColorClick] are the same
    function object from one registration to the next. *)
Definition same_function_each_time (h : handler) : bool :=
  match h with
  | h_close | h_changeColorClick => true
  | _ => false
  end.

Definition addEventListener (type : string) (h : handler)
    (ls : list (string * handler)) : list (string * handler) :=
  if same_function_each_time h && bool_decide ((type, h) ∈ ls) then ls
  else ls ++ [(type, h)].

(** [x.textContent = value]. *)
Definition set_textContent (value : jstring) : element → element :=
  set_childNodes (λ _, if value is [] then [] else [Text value]).

(** [target.textContent = value] for a [target] found in the fragment a
    function holds in a local variable. *)
Definition assign_textContent (target : option (list nat)) (value : jstring)
    (fragment : list node) : M (list node) :=
  match target with
  | None => throw (TypeError "Cannot set properties of null (setting 'textContent')")
  | Some p => mret (alter_in p (set_textContent value) fragment)
  end.

Module DOM.

(** The [context] argument of [get]: left out (the default, [document]),
    or a value, which may be [null]. *)
Inductive context := omitted | given (c : option ref).

Definition get (selector : string) (context : context) : M (option ref) :=
  match context with
  | omitted | given (Some the_document) =>
      d ← gets document;
      mret (if d !! selector is Some _ then Some (at_ selector []) else None)
  | given None =>
      throw (TypeError "Cannot read properties of null (reading 'querySelector')")
  | given (Some (at_ k p)) =>
      d ← gets document;
      mret (e ← d !! k ≫= lookup_at p;
            q ← querySelector selector (childNodes e);
            Some (at_ k (p ++ q)))
  end.

Definition getById (id : string) : M (option (list node)) :=
  gets (λ s, templates s !! id).

Definition clear (element : option ref) : M unit :=
  if element is Some r then update r (set_childNodes (λ _, [])) else mret tt.

Definition setHTML (element : option ref) (html : jstring) : M unit :=
  if element is Some r
  then b ← gets browser; update r (set_childNodes (λ _, parseHTML b html))
  else mret tt.

Definition addClass (element : option ref) (className : string) : M unit :=
  match element with
  | None => mret tt
  | Some the_document => throw (TypeError "Cannot read properties of undefined (reading 'add')")
  | Some r => update r (set_classList (λ c, {[className]} ∪ c))
  end.

Definition removeClass (element : option ref) (className : string) : M unit :=
  match element with
  | None => mret tt
  | Some the_document => throw (TypeError "Cannot read properties of undefined (reading 'remove')")
  | Some r => update r (set_classList (λ c, c ∖ {[className]}))
  end.

Definition hasClass (element : option ref) (className : string) : M bool :=
  match element with
  | None => mret false
  | Some the_document => throw (TypeError "Cannot read properties of undefined (reading 'contains')")
  | Some r =>
      e ← gets (deref r);
      mret (if e is Some e then bool_decide (className ∈ classList e) else false)
  end.

(** [setStyle(element, property, value)] with a property name (the form
    with an object of declarations is not used by the script). *)
Definition setStyle (element : option ref) (property : string) (value : jsval) : M unit :=
  match element with
  | None => mret tt
  | Some the_document => throw (TypeError "Cannot set properties of undefined")
  | Some r =>
      b ← gets browser;
      match cssValue b property value with
      | None => mret tt
      | Some [] => update r (set_style (delete property))
      | Some v => update r (set_style (insert property v))
      end
  end.

Definition on (element : option ref) (event : string) (handler : handler) : M unit :=
  match element with
  | None => mret tt
  | Some the_document => modify (with_document_listeners (addEventListener event handler))
  | Some r => update r (set_listeners (addEventListener event handler))
  end.

(** [parent?.appendChild(child)] for a detached [child]: a fragment gives
    its nodes, an element itself. *)
Definition append (parent : option ref) (child : list node) : M unit :=
  if parent is Some r then update r (set_childNodes (λ c, c ++ child)) else mret tt.

Definition getTemplate (id : string) : M (option (list node)) :=
  template ← getById id;
  match template with
  | None =>
      console_write
        (console_error [L_val (JStr (units ("Template " +:+ id +:+ " not found")))]);;
      mret None
  | Some content => mret (Some content)
  end.

Definition lockScroll : M unit := modify (with_body_overflow (units "hidden")).
Definition unlockScroll : M unit := modify (with_body_overflow []).

(** [element?.classList.toggle(className)] for a [className] that is a valid
    token (not empty, no white space; the DOM throws for the others).  The
    result is whether the class is present afterwards; [None] is
    [undefined]. *)
Definition toggleClass (element : option ref) (className : string) : M (option bool) :=
  match element with
  | None => mret None
  | Some the_document => throw (TypeError "Cannot read properties of undefined (reading 'toggle')")
  | Some r =>
      e ← gets (deref r);
      let present := if e is Some e then bool_decide (className ∈ classList e) else false in
      update r (set_classList (λ c, if present then c ∖ {[className]} else {[className]} ∪ c));;
      mret (Some (negb present))
  end.

(** [element.style.display = value]. *)
Definition assign_display (r : ref) (value : jstring) : M unit :=
  b ← gets browser;
  match cssValue b "display" (JStr value) with
  | None => mret tt
  | Some [] => update r (set_style (delete "display"))
  | Some v => update r (set_style (insert "display" v))
  end.

Definition hide (element : option ref) : M unit :=
  match element with
  | None => mret tt
  | Some the_document => throw (TypeError "Cannot set properties of undefined (setting 'display')")
  | Some r => assign_display r (units "none")
  end.

(** [show(element, display = 'block')]; [None] is a [display] left out. *)
Definition show (element : option ref) (display : option jstring) : M unit :=
  match element with
  | None => mret tt
  | Some the_document => throw (TypeError "Cannot set properties of undefined (setting 'display')")
  | Some r => assign_display r (default (units "block") display)
  end.

(** [element ? element.style.display !== 'none' : false]: the inline style
    only. *)
Definition isVisible (element : option ref) : M bool :=
  match element with
  | None => mret false
  | Some the_document => throw (TypeError "Cannot read properties of undefined (reading 'display')")
  | Some r =>
      e ← gets (deref r);
      mret (if e is Some e
            then negb (bool_decide (style e !! "display" = Some (units "none")))
            else true)
  end.

End DOM.

(** ** COMPONENTS: Modal *)

(** What [Modal.open] is given: markup, a detached fragment or element, or
    anything else. *)
Inductive content :=
| c_string (html : jstring)
| c_fragment (nodes : list node)
| c_element (e : element)
| c_other.

Module Modal.

(** [Modal.$]: the handles are resolved once, when the script loads.  No
    operation adds or removes a resolved element, so looking a handle up
    when it is used gives what was stored at load. *)
Module S.
Definition element : M (option ref) := DOM.get ".modal" DOM.omitted.
Definition container : M (option ref) := DOM.get ".modal__container" DOM.omitted.
Definition content : M (option ref) := DOM.get ".modal__content" DOM.omitted.
Definition close : M (option ref) := DOM.get ".modal__close" DOM.omitted.
End S.

Definition init : M unit :=
  el ← S.element;
  DOM.on el "click" h_backdrop;;
  btn ← S.close;
  DOM.on btn "click" h_close;;
  DOM.on (Some the_document) "keydown" h_escape.

Definition open (content : content) : M unit :=
  el ← S.element;
  if el is None then Log.red [L_val (JStr (units "Modal not initialized"))]
  else
    slot ← S.content;
    DOM.clear slot;;
    match content with
    | c_string html => DOM.setHTML slot html
    | c_fragment nodes => DOM.append slot nodes
    | c_element e => DOM.append slot [Elem e]
    | c_other => mret tt
    end;;
    DOM.addClass el "modal--active";;
    DOM.lockScroll;;
    Log.gray [L_val (JStr (units "Modal opened"))].

Definition close : M unit :=
  el ← S.element;
  if el is None then mret tt
  else
    DOM.removeClass el "modal--active";;
    DOM.unlockScroll;;
    Log.gray [L_val (JStr (units "Modal closed"))].

(** [Modal.$.element && DOM.hasClass(...)]: [null] without the element. *)
Definition isOpen : M jsval :=
  el ← S.element;
  if el is None then mret JNull
  else b ← DOM.hasClass el "modal--active"; mret (JBool b).

Definition alert (title message : jstring) : M unit :=
  content ← DOM.getTemplate "modal-alert";
  match content with
  | None => mret tt
  | Some content =>
      content ← assign_textContent (querySelector ".modal__title" content) title content;
      content ← assign_textContent (querySelector ".modal__text" content) message content;
      open (c_fragment content);;
      slot ← S.content;
      button ← DOM.get ".modal__button" (DOM.given slot);
      if button is Some _ then DOM.on button "click" h_close else mret tt
  end.

Definition confirm (title message : jstring) (onConfirm : callback) : M unit :=
  content ← DOM.getTemplate "modal-confirm";
  match content with
  | None => mret tt
  | Some content =>
      content ← assign_textContent (querySelector ".modal__title" content) title content;
      content ← assign_textContent (querySelector ".modal__text" content) message content;
      open (c_fragment content);;
      slot ← S.content;
      cancelBtn ← DOM.get ".modal__button--cancel" (DOM.given slot);
      confirmBtn ← DOM.get ".modal__button--confirm" (DOM.given slot);
      (if cancelBtn is Some _ then DOM.on cancelBtn "click" h_close else mret tt);;
      (if confirmBtn is Some _ then DOM.on confirmBtn "click" (h_confirm onConfirm)
       else mret tt)
  end.

End Modal.

(** ** CONFIG, STATE *)

Module CONFIG.
Module storage.
Definition mainColor : string := "main-color".
End storage.
Module defaults.
Definition mainColor : jstring := units "#111".
End defaults.
End CONFIG.

Module STATE.

(** [mainColor: Storage.get(CONFIG.storage.mainColor) || CONFIG.defaults.mainColor],
    evaluated when the script loads. *)
Definition init : M unit :=
  v ← Storage.get CONFIG.storage.mainColor JNull;
  modify (with_STATE_mainColor (if truthy v then v else JStr CONFIG.defaults.mainColor)).

End STATE.

(** ** PURE FUNCTIONS *)

Module Pure.

(** [Math.floor(Math.random() * 255)], for the value [r] that
    [Math.random()] returned. *)
Definition intensity (r : double) : Z :=
  Math_floor (double_mul r (Double 255 0)).

Definition getRandomGray (r : double) : jstring :=
  let hex := padStart 2 48%N (toString16 (intensity r)) in
  units "#" ++ hex ++ hex ++ hex.

End Pure.

(** ** SIDE EFFECTS *)

Module Effects.

(** [$.main.element] is [DOM.get('main')], resolved at load. *)
Definition updateMainColor (newColor : jsval) : M unit :=
  if negb (truthy newColor) then mret tt
  else
    modify (with_STATE_mainColor newColor);;
    Log.white [L_val newColor];;
    main ← DOM.get "main" DOM.omitted;
    DOM.setStyle main "backgroundColor" newColor;;
    _ ← Storage.set CONFIG.storage.mainColor newColor;
    mret tt.

End Effects.

(** ** MAIN LOGIC

    [r] is the value [Math.random()] returns inside [Pure.getRandomGray]. *)

Module Logic.

Definition changeColor (r : double) : M unit :=
  Effects.updateMainColor (JStr (Pure.getRandomGray r)).

End Logic.

(** ** Events and listeners *)

Record event := Event { target : ref; key : jstring }.

(** Calling the continuation given to [Modal.confirm]: what it does is the
    caller's business; the page records that it ran. *)
Definition invoke (k : callback) : M unit :=
  match k with
  | not_callable => throw (TypeError "onConfirm is not a function")
  | Callback _ => modify (with_called (λ l, l ++ [k]))
  end.

Module Handlers.

(** The continuation changes the colour and schedules the acknowledgment;
    it is registered under its label. *)
Definition changeColorClick : M unit :=
  Log.blue [];;
  Modal.confirm (units "Change color?")
    (units "Do you want to change the background color?")
    (Callback "changeColor").

End Handlers.

(** The body of each listener. *)
Definition run_handler (h : handler) (e : event) : M unit :=
  match h with
  | h_backdrop =>
      el ← Modal.S.element;
      if bool_decide (Some (target e) = el) then Modal.close else mret tt
  | h_close => Modal.close
  | h_escape =>
      if bool_decide (key e = units "Escape")
      then o ← Modal.isOpen; if truthy o then Modal.close else mret tt
      else mret tt
  | h_confirm onConfirm => Modal.close;; invoke onConfirm
  | h_changeColorClick => Handlers.changeColorClick
  end.

Definition listeners_of (r : ref) (s : page) : list (string * handler) :=
  match r with
  | the_document => document_listeners s
  | at_ _ _ => if deref r s is Some e then listeners e else []
  end.

(** The listeners run in the order they were registered; an exception in
    one is reported by the browser and does not stop the next. *)
Fixpoint run_listeners (hs : list handler) (e : event) (s : page) : page :=
  match hs with
  | [] => s
  | h :: hs' => run_listeners hs' e (exec (run_handler h e) s)
  end.

(** The listeners of [current] for events of a type, run for an event [e]
    that reaches it. *)
Definition dispatch (current : ref) (type : string) (e : event) (s : page) : page :=
  run_listeners (filter (λ l, l.1 = type) (listeners_of current s)).*2 e s.

Module Listeners.
Definition init : M unit :=
  button ← DOM.get ".main__button" DOM.omitted;
  DOM.on button "click" h_changeColorClick.
End Listeners.

(** ** APP INIT

    [Effects.updateFavicon], the last call of [App.init], draws an icon on a
    canvas and replaces the page's icon link; the model has neither and
    leaves the call out. *)

Module App.

Definition init : M unit :=
  Log.init;;
  Log.yellow [L_val (JStr (units "App started..."))];;
  Modal.init;;
  Listeners.init;;
  color ← gets STATE_mainColor;
  Effects.updateMainColor color.

End App.

(** The top level of the script, in source order: the object literals
    ([STATE] among them, which reads the store), then [App.init()]. *)
Definition script : M unit := STATE.init;; App.init.

(** ** Sequences of modal operations *)

Inductive op :=
| call_open (c : content)
| call_close
| call_isOpen
| call_alert (title message : jstring)
| call_confirm (title message : jstring) (onConfirm : callback)
| fire (current : ref) (type : string) (e : event).

Definition run_op (o : op) (s : page) : page :=
  match o with
  | call_open c => exec (Modal.open c) s
  | call_close => exec Modal.close s
  | call_isOpen => exec Modal.isOpen s
  | call_alert t m => exec (Modal.alert t m) s
  | call_confirm t m k => exec (Modal.confirm t m k) s
  | fire r type e => dispatch r type e s
  end.

Definition run (ops : list op) (s : page) : page := foldl (flip run_op) s ops.

(** ** UTILITIES: Tools

    [Tools.lightenColor(hex, percent)] for a string [hex] and a finite,
    non-negative number [percent].  What it takes from the language:

    - [String.prototype.replace] with the pattern [/../g]: from left to
      right, every two consecutive code units of which neither is a line
      terminator are replaced; a unit that starts no such pair is kept;
    - [parseInt(c, 16)]: leading white space, a sign, the prefix [0x], then
      the longest run of hexadecimal digits, [NaN] ([None]) when there is
      none (the sign of a zero result is dropped: it has no effect on the
      text produced);
    - [+] and [*] on doubles, [Math.round] (to the nearest integer, halves
      upwards) and [Number.prototype.toString(16)] on the integer it
      returns. *)

Definition is_line_terminator (c : N) : bool :=
  ((c =? 10) || (c =? 13) || (c =? 8232) || (c =? 8233))%N.

Definition is_white_space (c : N) : bool :=
  ((c =? 9) || (c =? 11) || (c =? 12) || (c =? 32) || (c =? 160) || (c =? 5760)
   || ((8192 <=? c) && (c <=? 8202)) || (c =? 8239) || (c =? 8287) || (c =? 12288)
   || (c =? 65279))%N.

Fixpoint trim_start (s : jstring) : jstring :=
  match s with
  | c :: s' => if is_white_space c || is_line_terminator c then trim_start s' else s
  | [] => []
  end.

(** The value of the longest prefix of hexadecimal digits, [acc] so far. *)
Fixpoint hex_prefix (s : jstring) (acc : option Z) : option Z :=
  match s with
  | c :: s' =>
      match hex_value c with
      | Some d => hex_prefix s' (Some (16 * default 0 acc + Z.of_N d))
      | None => acc
      end
  | [] => acc
  end.

Definition parseInt16 (s : jstring) : option Z :=
  let s := trim_start s in
  let '(sign, s) :=
    match s with
    | 45%N :: s' => (-1, s')
    | 43%N :: s' => (1, s')
    | _ => (1, s)
    end in
  let s :=
    match s with
    | 48%N :: x :: s' => if ((x =? 120) || (x =? 88))%N then s' else s
    | _ => s
    end in
  (λ n, sign * n) <$> hex_prefix s None.

(** Rounding of a value of either sign, and [a + b] on doubles: the exact
    sum, rounded. *)
Definition round_signed (m e : Z) : double :=
  if m <? 0
  then let d := round_nearest_even (- m) e in Double (- mant d) (expo d)
  else round_nearest_even m e.

Definition double_add (a b : double) : double :=
  let e := Z.min (expo a) (expo b) in
  round_signed (mant a * 2 ^ (expo a - e) + mant b * 2 ^ (expo b - e)) e.

(** [Math.round]: the floor of [x + 1/2], computed exactly. *)
Definition Math_round (x : double) : Z :=
  if 0 <=? expo x then mant x * 2 ^ expo x
  else Z.shiftr (2 * mant x + 2 ^ (- expo x)) (1 - expo x).

(** [n.toString(16)] for an integer [n]. *)
Definition Number_toString16 (n : Z) : jstring :=
  if n <? 0 then 45%N :: toString16 (- n) else toString16 n.

(** [s.replace(/../g, (c) => f(c))], the pair [c] given as its two units. *)
Fixpoint replace_pairs (f : N → N → jstring) (s : jstring) : jstring :=
  match s with
  | [] => []
  | a :: tl =>
      match tl with
      | [] => [a]
      | b :: rest =>
          if is_line_terminator a || is_line_terminator b
          then a :: replace_pairs f tl
          else f a b ++ replace_pairs f rest
      end
  end.

(** *** Timers, for [Tools.debounce] and [Tools.throttle]

    [setTimeout(f, delay)] registers [f] under a fresh identifier, to run
    once and no earlier than its delay.  The browser takes the delay as a
    signed 32-bit integer, the number given being reduced modulo 2^32
    ([to_long]), and counts a negative one as 0 ([timer_delay]).
    [clearTimeout(id)] forgets the timer if it is still there, and does
    nothing for [undefined] ([None]).  [now] is what [Date.now()] returns,
    on the clock the timers run by.  Times, delays and limits are whole
    milliseconds.

    The function [func] that is wrapped belongs to the caller: it is taken
    to return normally and to leave the timers and the wrapper alone, and
    the model records each call of it, with the arguments and the time it
    started, as it records each call of the wrapper. *)

Inductive occurrence :=
| Requested (t : Z) (args : list jsval)   (* the wrapper was called *)
| Invoked (t : Z) (args : list jsval)     (* [func.apply(this, args)] *)
| Skipped (t : Z) (args : list jsval).    (* a timer of [throttle] ran and did not call [func] *)

Record world := World {
  now : Z;
  pending : gmap nat (list jsval * Z);   (* the live timers: what they captured, when they are due *)
  fresh : nat;
  trace : list occurrence
}.

Definition to_long (d : Z) : Z := (d + 2 ^ 31) mod 2 ^ 32 - 2 ^ 31.

Definition timer_delay (d : Z) : Z := Z.max (to_long d) 0.

Definition setTimeout (args : list jsval) (delay : Z) (w : world) : nat * world :=
  (fresh w,
   World (now w) (<[fresh w := (args, now w + timer_delay delay)]> (pending w))
         (S (fresh w)) (trace w)).

Definition clearTimeout (id : option nat) (w : world) : world :=
  match id with
  | Some i => World (now w) (delete i (pending w)) (fresh w) (trace w)
  | None => w
  end.

(** [func.apply(this, args)], which takes [took] milliseconds. *)
Definition apply_func (args : list jsval) (took : Z) (w : world) : world :=
  World (now w + took) (pending w) (fresh w) (trace w ++ [Invoked (now w) args]).

Definition record (e : occurrence) (w : world) : world :=
  World (now w) (pending w) (fresh w) (trace w ++ [e]).

Module Tools.

(** [debounce(func, delay)] returns a function over the variable
    [timeoutId]; [debounced] is a call of that function, [debounce_timer]
    the function it gave to [setTimeout]. *)
Definition debounced (delay : Z) (args : list jsval)
    (st : option nat * world) : option nat * world :=
  let '(timeoutId, w) := st in
  let w := record (Requested (now w) args) w in
  let w := clearTimeout timeoutId w in
  let '(id, w) := setTimeout args delay w in
  (Some id, w).

Definition debounce_timer (args : list jsval) (took : Z)
    (st : option nat * world) : option nat * world :=
  let '(timeoutId, w) := st in (timeoutId, apply_func args took w).

(** [throttle(func, limit)] returns a function over the variables
    [lastFunc] and [lastRan]; [!lastRan] holds for [undefined] and for 0. *)
Record throttle_vars := Vars { lastFunc : option nat; lastRan : option Z }.

Definition falsy_time (t : option Z) : bool :=
  match t with
  | None => true
  | Some t => t =? 0
  end.

Definition throttled (limit : Z) (args : list jsval) (took : Z)
    (st : throttle_vars * world) : throttle_vars * world :=
  let '(v, w) := st in
  let w := record (Requested (now w) args) w in
  if falsy_time (lastRan v)
  then let w := apply_func args took w in (Vars (lastFunc v) (Some (now w)), w)
  else
    let w := clearTimeout (lastFunc v) w in
    let '(id, w) := setTimeout args (limit - (now w - default 0 (lastRan v))) w in
    (Vars (Some id) (lastRan v), w).

(** The function [throttled] gave to [setTimeout]: [Date.now() - lastRan]
    is [NaN] for an undefined [lastRan], and the comparison then fails. *)
Definition throttle_timer (limit : Z) (args : list jsval) (took : Z)
    (st : throttle_vars * world) : throttle_vars * world :=
  let '(v, w) := st in
  match lastRan v with
  | Some ran =>
      if limit <=? now w - ran
      then let w := apply_func args took w in (Vars (lastFunc v) (Some (now w)), w)
      else (v, record (Skipped (now w) args) w)
  | None => (v, record (Skipped (now w) args) w)
  end.

(** The replacement of one pair; [NaN] prints as [NaN], which [padStart]
    leaves alone. *)
Definition lighten (percent : double) (a b : N) : jstring :=
  match parseInt16 [a; b] with
  | None => units "NaN"
  | Some x =>
      padStart 2 48%N
        (Number_toString16
           (Math_round
              (double_add (Double x 0) (double_mul (Double (255 - x) 0) percent))))
  end.

Definition lightenColor (hex : jstring) (percent : double) : jstring :=
  units "#" ++ replace_pairs (lighten percent) (drop 1 hex).

End Tools.

(** *** What can happen around a debounced or a throttled function

    Time passes (the clock never runs backwards), the wrapper is called,
    or a timer that is due runs, which removes it. *)

Definition due (id : nat) (w : world) : option (list jsval) :=
  match pending w !! id with
  | Some (args, t) => if t <=? now w then Some args else None
  | None => None
  end.

Definition expire (id : nat) (w : world) : world :=
  World (now w) (delete id (pending w)) (fresh w) (trace w).

Definition pass (t : Z) (w : world) : world :=
  World t (pending w) (fresh w) (trace w).

Inductive debounce_step (delay : Z) : option nat * world → option nat * world → Prop :=
| debounce_tick v w t :
    now w <= t → debounce_step delay (v, w) (v, pass t w)
| debounce_call v w args :
    debounce_step delay (v, w) (Tools.debounced delay args (v, w))
| debounce_fire v w id args took :
    due id w = Some args → 0 <= took →
    debounce_step delay (v, w) (Tools.debounce_timer args took (v, expire id w)).

Inductive throttle_step (limit : Z) :
    Tools.throttle_vars * world → Tools.throttle_vars * world → Prop :=
| throttle_tick v w t :
    now w <= t → throttle_step limit (v, w) (v, pass t w)
| throttle_call v w args took :
    0 <= took →
    throttle_step limit (v, w) (Tools.throttled limit args took (v, w))
| throttle_fire v w id args took :
    due id w = Some args → 0 <= took →
    throttle_step limit (v, w) (Tools.throttle_timer limit args took (v, expire id w)).

(** The world at time [t], before anything happened. *)
Definition world_at (t : Z) : world := World t ∅ 0 [].

(* ================================================================== *)
(** * Vocabulary of the properties *)

(** ** Shapes of colour strings *)

Definition lower_hex (c : N) : Prop :=
  (48 <= c <= 57)%N ∨ (97 <= c <= 102)%N.

Definition lower_hexb (c : N) : bool :=
  ((48 <=? c) && (c <=? 57) || (97 <=? c) && (c <=? 102))%N.

Definition gray_of (i : Z) : jstring :=
  let hex := padStart 2 48%N (toString16 i) in units "#" ++ hex ++ hex ++ hex.

Definition gray_shape (s : jstring) : bool :=
  match s with
  | [h; a; b; c; d; e; f] =>
      (h =? 35)%N && lower_hexb a && lower_hexb b
      && (c =? a)%N && (d =? b)%N && (e =? a)%N && (f =? b)%N
  | _ => false
  end.

(** ** What a user sees of the modal

    The overlay is visible when its class list holds [modal--active];
    scrolling is locked when the body's [overflow] is [hidden].  [ui] pairs
    the two; [opened] and [closed] are what [Modal.open] and [Modal.close]
    make of it. *)

Definition active : string := "modal--active".
Definition overlay (s : page) : option element := document s !! ".modal".
Definition ui (s : page) : jstring * option (gset string) :=
  (body_overflow s, classList <$> overlay s).
Definition opened (u : jstring * option (gset string)) : jstring * option (gset string) :=
  if u.2 is Some c then (units "hidden", Some ({[active]} ∪ c)) else u.
Definition closed (u : jstring * option (gset string)) : jstring * option (gset string) :=
  if u.2 is Some c then ([], Some (c ∖ {[active]})) else u.
Definition ui_step (u u' : jstring * option (gset string)) : Prop :=
  u' = u ∨ u' = opened u ∨ u' = closed u.
Definition ui_same {A} (m : M A) : Prop := ∀ s, ui (exec m s) = ui s.
Definition ui_effect {A} (m : M A) : Prop := ∀ s, ui_step (ui s) (ui (exec m s)).

(** The page after a [Log.<mode>(...)] call. *)
Definition logged_if_ready (mode : string) (args : list logged) (s : page) : page :=
  if Log_ready s then with_console (λ c, c ++ [console_log mode args]) s else s.

(** The scroll lock is held only under a visible overlay. *)
Definition lock_inv (u : jstring * option (gset string)) : Prop :=
  u.1 = [] ∨ (u.1 = units "hidden" ∧ ∃ c, u.2 = Some c ∧ active ∈ c).

(** The pages the script can be in: it was loaded into a document whose
    body carries no [overflow] of its own, and modal operations and events
    followed. *)
Inductive reachable : page → Prop :=
| reachable_load (s0 : page) : body_overflow s0 = [] → reachable (exec script s0)
| reachable_step (s : page) (o : op) : reachable s → reachable (run_op o s).

(** Calls of [Modal.open] and [Modal.close] only. *)
Inductive modal_call := do_open (c : content) | do_close.
Definition op_of (c : modal_call) : op :=
  match c with do_open c => call_open c | do_close => call_close end.
Definition dismissal (h : handler) (e : event) : Prop :=
  h = h_close ∨ (∃ k, h = h_confirm k)
  ∨ (h = h_backdrop ∧ target e = at_ ".modal" [])
  ∨ (h = h_escape ∧ key e = units "Escape").

(** The diagnostic of [DOM.getTemplate]. *)
Definition template_not_found (id : string) : console_entry :=
  console_error [L_val (JStr (units ("Template " +:+ id +:+ " not found")))].

(** ** Example pages

    A document with the markup the script expects (or without the modal
    when [with_modal] is [false]), as it is when the script starts. *)

Definition engine : platform :=
  Platform (λ html, [Text html]) (λ _ v, if v is JStr s then Some s else None)
           (λ _, units "null").
Definition tagged (tag : string) (classes : list string) (children : list node) : element :=
  Element tag (list_to_set classes) ∅ [] children.
Definition alert_template : list node :=
  [Elem (tagged "div" ["modal__box"]
     [Elem (tagged "h2" ["modal__title"] []);
      Elem (tagged "p" ["modal__text"] []);
      Elem (tagged "button" ["modal__button"] [Text (units "OK")])])].
Definition confirm_template : list node :=
  [Elem (tagged "div" ["modal__box"]
     [Elem (tagged "h2" ["modal__title"] []);
      Elem (tagged "p" ["modal__text"] []);
      Elem (tagged "button" ["modal__button"; "modal__button--cancel"] [Text (units "Cancel")]);
      Elem (tagged "button" ["modal__button"; "modal__button--confirm"] [Text (units "OK")])])].
Definition markup (with_modal : bool) : gmap string element :=
  list_to_map
    ((if with_modal
      then [(".modal", tagged "div" ["modal"] []);
            (".modal__container", tagged "div" ["modal__container"] []);
            (".modal__content", tagged "div" ["modal__content"] []);
            (".modal__close", tagged "button" ["modal__close"] [])]
      else [])
     ++ [("main", tagged "main" [] []); (".main__button", tagged "button" ["main__button"] [])]).
Definition page_at_load (with_modal : bool) (stored : gmap string jstring) : page :=
  Page engine (markup with_modal)
       (list_to_map [("modal-alert", alert_template); ("modal-confirm", confirm_template)])
       [] [] (Storage_area stored true 5000) [] false JUndefined [].

Definition without_templates (s : page) : page :=
  Page (browser s) (document s) ∅ (document_listeners s) (body_overflow s)
       (localStorage s) (console s) (Log_ready s) (STATE_mainColor s) (called s).

(** ** Invariants and normal return

    [preserves P m]: whatever [m] does, thrown or returned, it keeps [P].
    [returns P Q m]: from a page with [P], [m] returns normally, keeps [P],
    and its result has [Q]. *)
Definition preserves (P : page → Prop) {A} (m : M A) : Prop :=
  ∀ s, P s → P (exec m s).

Definition returns (P : page → Prop) {A} (Q : A → Prop) (m : M A) : Prop :=
  ∀ s, P s → ∃ a s', m s = (Ok a, s') ∧ P s' ∧ Q a.

(** [Log.init()] has run. *)
Definition logger_ready (s : page) : Prop := Log_ready s = true.

(** What a handle resolved by [DOM.get(selector)] is: an element or
    [null], never the document. *)
Definition element_ref (r : option ref) : Prop := r ≠ Some the_document.

(** The example page once the script has run. *)
Definition started : page := exec script (page_at_load true ∅).

(** A template that lacks the title and text elements. *)
Definition bare_template : list node := [Elem (tagged "div" ["modal__box"] [])].

(** The diagnostics of [Storage.get] and [Storage.set]. *)
Definition read_error (e : exn) : console_entry :=
  console_log "red" [L_val (JStr (units "Storage read error:")); L_exn e].

Definition write_error (e : exn) : console_entry :=
  console_log "red" [L_val (JStr (units "Storage write error:")); L_exn e].

(** The text [Storage.set] hands to [localStorage.setItem]:
    [JSON.stringify(undefined)] is [undefined], stored as that word. *)
Definition stored_text (b : platform) (v : jsval) : jstring :=
  default (units "undefined") (JSON_stringify b v).

(** The values whose JSON text does not depend on the engine's number
    formatting. *)
Definition simple_json (v : jsval) : Prop :=
  match v with
  | JNull | JBool _ | JStr _ => True
  | _ => False
  end.


(** A value of [Math.random()] that yields the gray level [i]: the double
    just above [(i + 1/2) / 255]. *)
Definition level_source (i : Z) : double :=
  Double ((2 * i + 1) * 2 ^ 52 / 255 + 1) (-53).


(** The overlay is there and carries [modal--active]. *)
Definition shown (s : page) : Prop :=
  ∃ el, overlay s = Some el ∧ active ∈ classList el.

(** The element a path leads to in a list of nodes. *)
Definition lookup_in (p : list nat) (l : list node) : option element :=
  match p with
  | [] => None
  | i :: p' =>
      match l !! i with
      | Some (Elem c) => lookup_at p' c
      | _ => None
      end
  end.

(** The template content once [Modal.alert] or [Modal.confirm] has set its
    title and text; [None] when one of the two elements is not found.  The
    text element is looked up after the title has been written. *)
Definition filled (title message : jstring) (T : list node) : option (list node) :=
  p ← querySelector ".modal__title" T;
  let T1 := alter_in p (set_textContent title) T in
  q ← querySelector ".modal__text" T1;
  Some (alter_in q (set_textContent message) T1).

(** What assigning [textContent] on the [null] of a failed lookup throws. *)
Definition no_slot : exn :=
  TypeError "Cannot set properties of null (setting 'textContent')".

(** [element.addEventListener('click', h)]. *)
Definition on_click (h : handler) : element → element :=
  set_listeners (addEventListener "click" h).

(** What the modal has no business with: the colour in [STATE], the store,
    the templates, the logger and the engine. *)
Definition kept (s s' : page) : Prop :=
  STATE_mainColor s' = STATE_mainColor s ∧ localStorage s' = localStorage s
  ∧ templates s' = templates s ∧ Log_ready s' = Log_ready s ∧ browser s' = browser s.

(** The listeners of the element a selector resolved to at load. *)
Definition listeners_at (k : string) (s : page) : option (list (string * handler)) :=
  listeners <$> document s !! k.

(** The listeners the script installs at startup: on the document, the
    overlay, the close button and the main button. *)
Definition wiring (s : page) :=
  (document_listeners s, listeners_at ".modal" s, listeners_at ".modal__close" s,
   listeners_at ".main__button" s).

(** The wiring after startup. *)
Definition wired : list (string * handler) * option (list (string * handler))
                   * option (list (string * handler)) * option (list (string * handler)) :=
  ([("keydown", h_escape)], Some [("click", h_backdrop)], Some [("click", h_close)],
   Some [("click", h_changeColorClick)]).

(** The four targets exist and have no listeners yet. *)
Definition pristine (s : page) : Prop :=
  wiring s = ([], Some [], Some [], Some []).

(** A class name [classList] accepts: not empty and free of ASCII white
    space. *)
Definition valid_token (cls : string) : Prop :=
  cls ≠ EmptyString
  ∧ Forall (λ c, c ∉ [9; 10; 12; 13; 32]%N) (units cls).

(** The engine's CSS parser accepts the [display] keywords [none] and
    [block] as they are. *)
Definition sane_display (b : platform) : Prop :=
  cssValue b "display" (JStr (units "none")) = Some (units "none")
  ∧ cssValue b "display" (JStr (units "block")) = Some (units "block").

(** A number between 0 and 1: the doubles of [Math.random] and 1 itself
    among them. *)
Definition fraction (p : double) : Prop :=
  0 <= mant p < 2 ^ 53 ∧ -1074 <= expo p <= 0 ∧ mant p <= 2 ^ (- expo p).

(** A colour channel written with two lowercase hexadecimal digits. *)
Definition hex2 (n : Z) : jstring := padStart 2 48%N (toString16 n).

(** The value of a channel written with two hexadecimal digits of either
    case. *)
Definition channel (a b : N) : option Z :=
  x ← hex_value a; y ← hex_value b; Some (16 * Z.of_N x + Z.of_N y).

(** What [Tools.lightenColor] makes of a channel of value [x]. *)
Definition lightened (percent : double) (x : Z) : Z :=
  Math_round (double_add (Double x 0) (double_mul (Double (255 - x) 0) percent)).

(** The three channels of a colour written [#rrggbb]; the first unit is
    not looked at, as [Tools.lightenColor] drops it unseen. *)
Definition channels (s : jstring) : option (Z * Z * Z) :=
  match s with
  | [_; r1; r2; g1; g2; b1; b2] =>
      r ← channel r1 r2; g ← channel g1 g2; b ← channel b1 b2; Some (r, g, b)
  | _ => None
  end.

(** The code units below [n]. *)
Definition code_units_below (n : nat) : list N := N.of_nat <$> seq 0 n.

(** What [DOM.get(selector, null)] throws. *)
Definition null_context : exn :=
  TypeError "Cannot read properties of null (reading 'querySelector')".

(** The continuation [Handlers.changeColorClick] gives to [Modal.confirm]. *)
Definition changeColor_continuation : callback := Callback "changeColor".

(** The selectors that resolve to an element are the same on both pages. *)
Definition same_elements (s0 : page) (x : page) : Prop :=
  ∀ k, is_Some (document x !! k) ↔ is_Some (document s0 !! k).

(** Every call of [func] comes right after the call of the wrapper whose
    arguments it carries, at least [quiet] milliseconds later. *)
Definition follows_its_request (quiet : Z) (h : list occurrence) : Prop :=
  ∀ h1 t args h2, h = h1 ++ Invoked t args :: h2 →
    ∃ h0 t0, h1 = h0 ++ [Requested t0 args] ∧ t0 + quiet <= t.

(** The last call of the wrapper has not been answered yet. *)
Definition awaits (h : list occurrence) (t0 : Z) (args : list jsval) : Prop :=
  ∃ h0, h = h0 ++ [Requested t0 args].

(** The invariant of a debounced function: its only live timer is the one
    in [timeoutId], set by the last call, which is still unanswered. *)
Definition debounce_inv (delay : Z) (st : option nat * world) : Prop :=
  let '(timeoutId, w) := st in
  (∀ id args t, pending w !! id = Some (args, t) →
     timeoutId = Some id ∧ ∃ t0, awaits (trace w) t0 args ∧ t = t0 + timer_delay delay)
  ∧ (∀ id, timeoutId = Some id → (id < fresh w)%nat)
  ∧ (∀ id, is_Some (pending w !! id) → (id < fresh w)%nat)
  ∧ (∀ t0 args, awaits (trace w) t0 args →
       ∃ id, timeoutId = Some id ∧ pending w !! id = Some (args, t0 + timer_delay delay))
  ∧ follows_its_request (timer_delay delay) (trace w).

(** Calls of [func] start at least [limit] milliseconds apart. *)
Definition spaced (limit : Z) (h : list occurrence) : Prop :=
  ∀ h1 t1 a1 h2, h = h1 ++ Invoked t1 a1 :: h2 →
    ∀ t2 a2, Invoked t2 a2 ∈ h2 → t1 + limit <= t2.

(** No timer ran without calling [func]. *)
Definition nothing_skipped (h : list occurrence) : Prop :=
  ∀ t args, Skipped t args ∉ h.

(** The first call of the wrapper called [func] at once. *)
Definition leading_call (h : list occurrence) : Prop :=
  h = [] ∨ ∃ t args h', h = Requested t args :: Invoked t args :: h'.

(** The invariant of a throttled function. *)
Definition throttle_inv (limit : Z) (st : Tools.throttle_vars * world) : Prop :=
  let '(v, w) := st in
  0 < now w
  ∧ (∀ id args t, pending w !! id = Some (args, t) →
       Tools.lastFunc v = Some id
       ∧ ∃ t0 ran, awaits (trace w) t0 args ∧ t0 <= now w
                   ∧ Tools.lastRan v = Some ran ∧ ran + limit <= t)
  ∧ (∀ id, Tools.lastFunc v = Some id → (id < fresh w)%nat)
  ∧ (∀ id, is_Some (pending w !! id) → (id < fresh w)%nat)
  ∧ (∀ ran, Tools.lastRan v = Some ran →
       0 < ran <= now w ∧ ∀ t args, Invoked t args ∈ trace w → t <= ran)
  ∧ (Tools.lastRan v = None ↔ trace w = [])
  ∧ follows_its_request 0 (trace w)
  ∧ spaced limit (trace w)
  ∧ nothing_skipped (trace w)
  ∧ leading_call (trace w)
  ∧ (∀ t args, awaits (trace w) t args →
       ∃ id t', Tools.lastFunc v = Some id ∧ pending w !! id = Some (args, t')).

(* ================================================================== *)
(** * Properties *)

(** *** The random gray *)

Lemma rounded_floor_bound (d M e : Z) (up : bool) :
  1 <= d <= 8 → 0 <= M <= 255 * 2 ^ 53 - 255 → e <= -53 →
  (up = true → 2 ^ (d - 1) <= M mod 2 ^ d) →
  0 <= (if up then M / 2 ^ d + 1 else M / 2 ^ d) / 2 ^ (- (e + d)) <= 254.
Proof.
  intros Hd HM He Hup.
  set (X := 2 ^ (- e - 53)).
  assert (HX : 1 <= X ∧ (e = -53 ∨ 2 <= X)).
  { unfold X. destruct (decide (e = -53)) as [-> | Hne].
    - split; [now vm_compute | now left].
    - assert (2 ^ 1 <= 2 ^ (- e - 53)) by (apply Z.pow_le_mono_r; lia).
      change (2 ^ 1) with 2 in *. split; [lia | right; lia]. }
  assert (Hpow : 2 ^ (- (e + d)) = 2 ^ (53 - d) * X).
  { unfold X. rewrite <- Z.pow_add_r by lia. f_equal. lia. }
  rewrite Hpow. clear Hpow.
  assert (HXe : e = -53 → X = 1) by (intros ->; reflexivity).
  clearbody X.
  assert (Hcases : d = 1 ∨ d = 2 ∨ d = 3 ∨ d = 4 ∨ d = 5 ∨ d = 6 ∨ d = 7 ∨ d = 8) by lia.
  assert (Hgoal : ∀ D P H : Z, 2 <= D <= 256 → D * P = 2 ^ 53 → 0 < P → 2 * H = D →
             (up = true → H <= M mod D) →
             0 <= (if up then M / D + 1 else M / D) / (P * X) <= 254).
  { intros D P H HD HDP HP HH Hup'.
    pose proof (Z.div_mod M D ltac:(lia)) as Hdm.
    pose proof (Z.mod_pos_bound M D ltac:(lia)) as Hmod.
    set (q := M / D) in *. set (r := M mod D) in *.
    change (2 ^ 53) with 9007199254740992 in *.
    assert (Hq0 : 0 <= q) by nia.
    assert (Hq1 : q <= 255 * P - 1) by nia.
    assert (HPX : 0 < P * X) by nia.
    split.
    - apply Z.div_pos; [destruct up; lia | lia].
    - apply Z.lt_succ_r. apply Z.div_lt_upper_bound; [lia |].
      destruct up.
      + specialize (Hup' eq_refl).
        destruct HX as [HX1 [He53 | HX2]].
        * rewrite (HXe He53). nia.
        * nia.
      + nia. }
  destruct Hcases as [-> | [-> | [-> | [-> | [-> | [-> | [-> | ->]]]]]]];
    [ apply (Hgoal _ (2 ^ 52) 1) | apply (Hgoal _ (2 ^ 51) 2)
    | apply (Hgoal _ (2 ^ 50) 4) | apply (Hgoal _ (2 ^ 49) 8)
    | apply (Hgoal _ (2 ^ 48) 16) | apply (Hgoal _ (2 ^ 47) 32)
    | apply (Hgoal _ (2 ^ 46) 64) | apply (Hgoal _ (2 ^ 45) 128) ];
    try exact Hup; try (vm_compute; intuition congruence); try reflexivity.
Qed.

Lemma intensity_range (r : double) :
  in_unit_interval r → 0 <= Pure.intensity r <= 254.
Proof.
  destruct r as [m e]. unfold in_unit_interval, Pure.intensity, double_mul,
    Math_floor, round_nearest_even. cbn [mant expo].
  intros [[Hm0 Hm1] [He0 He1]].
  replace (e + 0) with e by lia.
  set (M := m * 255).
  assert (HM : 0 <= M <= 255 * 2 ^ 53 - 255) by (unfold M; lia).
  clearbody M.
  destruct (Z.leb_spec (Z.log2 M + 1 - 53) 0) as [Hd | Hd]; cbn [mant expo].
  - rewrite Z.shiftl_div_pow2 by lia.
    assert (0 < 2 ^ (- e)) by (apply Z.pow_pos_nonneg; lia).
    assert (2 ^ 53 <= 2 ^ (- e)) by (apply Z.pow_le_mono_r; lia).
    split; [apply Z.div_pos; lia |].
    apply Z.lt_succ_r, Z.div_lt_upper_bound; lia.
  - set (d := Z.log2 M + 1 - 53) in *.
    assert (HMpos : 0 < M).
    { destruct (decide (M = 0)) as [-> | ?]; [| lia]. now vm_compute in Hd. }
    assert (Hlog : Z.log2 M < 61).
    { apply Z.log2_lt_pow2; [lia |]. change (2 ^ 61) with (256 * 2 ^ 53). lia. }
    assert (Hd8 : 1 <= d <= 8) by lia.
    rewrite Z.shiftr_div_pow2, Z.land_ones by lia.
    rewrite Z.shiftl_div_pow2 by lia.
    apply rounded_floor_bound; [lia | lia | lia |].
    rewrite Z.shiftl_1_l.
    intros Hup. apply orb_true_iff in Hup as [Hup | Hup].
    + apply Z.ltb_lt in Hup. lia.
    + apply andb_true_iff in Hup as [Hup _]. apply Z.eqb_eq in Hup. lia.
Qed.

Lemma gray_table :
  Forall (λ i, gray_shape (gray_of i) = true ∧ gray_of i ≠ units "#ffffff")
         (seqZ 0 255).
Proof. apply (bool_decide_unpack _). vm_compute. exact I. Qed.

Lemma gray_of_range (i : Z) :
  0 <= i <= 254 → gray_shape (gray_of i) = true ∧ gray_of i ≠ units "#ffffff".
Proof.
  intros Hi. refine (proj1 (Forall_forall _ _) gray_table i _).
  apply elem_of_seqZ. lia.
Qed.

Lemma gray_shape_spec (s : jstring) :
  gray_shape s = true →
  ∃ a b, lower_hex a ∧ lower_hex b ∧ s = units "#" ++ [a; b] ++ [a; b] ++ [a; b].
Proof.
  unfold gray_shape.
  destruct s as [|h [|a [|b [|c [|d [|e [|f [|g s]]]]]]]]; try discriminate.
  intros H. repeat (apply andb_true_iff in H as [H ?]).
  repeat match goal with
         | E : (_ =? _)%N = true |- _ => apply N.eqb_eq in E; subst
         end.
  exists a, b. repeat split; try reflexivity.
  all: match goal with
       | E : lower_hexb ?x = true |- lower_hex ?x =>
           unfold lower_hexb in E; unfold lower_hex;
           apply orb_true_iff in E as [E | E];
           apply andb_true_iff in E as [E1 E2];
           apply N.leb_le in E1; apply N.leb_le in E2; [left | right]; lia
       end.
Qed.

(** C3: whatever value in [0, 1) the random source yields,
    [Pure.getRandomGray] returns ['#'] followed by six lowercase hexadecimal
    digits that are one two-digit pair repeated three times (R = G = B). *)
Theorem getRandomGray_is_gray (r : double) :
  in_unit_interval r →
  ∃ a b, lower_hex a ∧ lower_hex b ∧
         Pure.getRandomGray r = units "#" ++ [a; b] ++ [a; b] ++ [a; b].
Proof.
  intros Hr. apply gray_shape_spec.
  exact (proj1 (gray_of_range _ (intensity_range r Hr))).
Qed.

Lemma getRandomGray_is_gray_witness :
  in_unit_interval (Double 4503599627370496 (-53)) ∧
  ∃ a b, lower_hex a ∧ lower_hex b ∧
         Pure.getRandomGray (Double 4503599627370496 (-53))
         = units "#" ++ [a; b] ++ [a; b] ++ [a; b].
Proof.
  assert (H : in_unit_interval (Double 4503599627370496 (-53))).
  { unfold in_unit_interval; cbn; lia. }
  split; [exact H | exact (getRandomGray_is_gray _ H)].
Defined.

(** C10: the gray intensity is an integer between 0 and 254, so
    [#ffffff] is never returned, while [#000000] is returned for the random
    value 0. *)
Theorem getRandomGray_never_white (r : double) :
  in_unit_interval r →
  0 <= Pure.intensity r <= 254
  ∧ Pure.getRandomGray r ≠ units "#ffffff"
  ∧ ∃ r0, in_unit_interval r0 ∧ Pure.getRandomGray r0 = units "#000000".
Proof.
  intros Hr. pose proof (intensity_range r Hr) as Hi.
  split; [exact Hi |]. split; [exact (proj2 (gray_of_range _ Hi)) |].
  exists (Double 0 (-53)). split; [unfold in_unit_interval; cbn; lia | reflexivity].
Qed.

Lemma getRandomGray_never_white_witness :
  in_unit_interval (Double 9007199254740991 (-53)) ∧
  (0 <= Pure.intensity (Double 9007199254740991 (-53)) <= 254
   ∧ Pure.getRandomGray (Double 9007199254740991 (-53)) ≠ units "#ffffff"
   ∧ ∃ r0, in_unit_interval r0 ∧ Pure.getRandomGray r0 = units "#000000").
Proof.
  assert (H : in_unit_interval (Double 9007199254740991 (-53))).
  { unfold in_unit_interval; cbn; lia. }
  split; [exact H | exact (getRandomGray_never_white _ H)].
Defined.

(** The product [Math.random() * 255] is rounded before [Math.floor] sees
    it: for the double just below 1/255 the exact product is below 1, the
    rounded one is 1. *)
Example intensity_rounds_first :
  Pure.intensity (Double 4521260802379792 (-60)) = 1
  ∧ 4521260802379792 * 255 < 2 ^ 60.
Proof. split; reflexivity. Qed.

(** *** JSON: reading back a string that [JSON.stringify] wrote *)

Lemma hex_value_lower (x : N) : (x < 16)%N → hex_value (hex_lower x) = Some x.
Proof.
  intros Hx.
  assert (H : x ∈ [0; 1; 2; 3; 4; 5; 6; 7; 8; 9; 10; 11; 12; 13; 14; 15]%N).
  { assert (Hn : (N.to_nat x < 16)%nat) by lia.
    replace x with (N.of_nat (N.to_nat x)) by lia.
    destruct (N.to_nat x) as [|[|[|[|[|[|[|[|[|[|[|[|[|[|[|[|n]]]]]]]]]]]]]]]];
      [set_solver .. | lia]. }
  repeat (apply elem_of_cons in H as [-> | H]; [reflexivity |]).
  by apply elem_of_nil in H.
Qed.

Lemma hex4_value (c : N) :
  (c < 65536)%N →
  (c / 4096 * 4096 + (c / 256) mod 16 * 256 + (c / 16) mod 16 * 16 + c mod 16 = c)%N.
Proof. intros. zify. Z.to_euclidean_division_equations. lia. Qed.

Lemma scan_unicode_escape (c : N) (tail acc : jstring) :
  (c < 65536)%N →
  scan_string (unicode_escape c ++ tail) acc = scan_string tail (c :: acc).
Proof.
  intros Hc. unfold unicode_escape. cbn [app scan_string].
  change (92 =? 34)%N with false. change (92 =? 92)%N with true.
  change (117 =? 117)%N with true. cbn match.
  rewrite !hex_value_lower by (zify; Z.to_euclidean_division_equations; lia).
  by rewrite hex4_value.
Qed.

Lemma scan_quote_unit (c : N) (tail acc : jstring) :
  scan_string (quote_unit c ++ tail) acc = scan_string tail (c :: acc).
Proof.
  unfold quote_unit.
  repeat match goal with
         | |- context [(c =? ?k)%N] =>
             destruct (N.eqb_spec c k) as [-> | ?]; [reflexivity |]
         end.
  destruct ((c <? 32)%N || is_lead c || is_trail c) eqn:E.
  - apply scan_unicode_escape. unfold is_lead, is_trail in E.
    apply orb_true_iff in E as [E | E]; [apply orb_true_iff in E as [E | E] |].
    + apply N.ltb_lt in E. lia.
    + apply andb_true_iff in E as [_ E]. apply N.leb_le in E. lia.
    + apply andb_true_iff in E as [_ E]. apply N.leb_le in E. lia.
  - apply orb_false_iff in E as [E _]. apply orb_false_iff in E as [E _].
    cbn [app scan_string].
    destruct (N.eqb_spec c 34); [done |]. destruct (N.eqb_spec c 92); [done |].
    by rewrite E.
Qed.

Lemma quote_body_pair (c d : N) (t : jstring) :
  quote_body (c :: d :: t) =
    if is_lead c && is_trail d then c :: d :: quote_body t
    else quote_unit c ++ quote_body (d :: t).
Proof. reflexivity. Qed.

Lemma scan_quote_body (n : nat) : ∀ (s acc rest : jstring),
  (length s ≤ n)%nat →
  scan_string (quote_body s ++ 34%N :: rest) acc = Some (reverse acc ++ s, rest).
Proof.
  induction n as [|n IH]; intros s acc rest Hlen.
  - destruct s; [| simpl in Hlen; lia]. simpl. by rewrite app_nil_r.
  - destruct s as [|c [|d t]].
    + simpl. by rewrite app_nil_r.
    + cbn [quote_body]. rewrite <- app_assoc, scan_quote_unit. simpl.
      by rewrite reverse_cons.
    + rewrite quote_body_pair. destruct (is_lead c && is_trail d) eqn:E.
      * apply andb_true_iff in E as [E1 E2]. unfold is_lead, is_trail in *.
        apply andb_true_iff in E1 as [E1 _]. apply andb_true_iff in E2 as [E2 _].
        apply N.leb_le in E1, E2.
        cbn [app scan_string].
        destruct (N.eqb_spec c 34); [lia |]. destruct (N.eqb_spec c 92); [lia |].
        destruct (N.ltb_spec c 32); [lia |].
        destruct (N.eqb_spec d 34); [lia |]. destruct (N.eqb_spec d 92); [lia |].
        destruct (N.ltb_spec d 32); [lia |].
        rewrite (IH t (d :: c :: acc) rest) by (simpl in *; lia).
        by rewrite !reverse_cons, <- !app_assoc.
      * rewrite <- app_assoc, scan_quote_unit.
        rewrite IH by (simpl in *; lia).
        by rewrite reverse_cons, <- app_assoc.
Qed.

Lemma JSON_round_trip (s : jstring) : JSON_parse (QuoteJSONString s) = Some (JStr s).
Proof.
  unfold JSON_parse, QuoteJSONString.
  change (skip_ws (34%N :: ?l)) with (34%N :: l).
  rewrite Nat.add_comm. cbn [Nat.add parse_value].
  change (34 =? 34)%N with true. cbn match.
  rewrite (scan_quote_body (length s) s [] []) by done.
  reflexivity.
Qed.

(** *** Effects of the operations on what the user sees *)

Lemma exec_bind {A B} (m : M A) (f : A → M B) (s : page) :
  exec (m ≫= f) s =
    match m s with
    | (Ok a, s') => exec (f a) s'
    | (Throw _, s') => s'
    end.
Proof. unfold exec, mbind, M_bind. by destruct (m s) as [[a | e] s']. Qed.

Lemma ui_step_refl u : ui_step u u.
Proof. by left. Qed.

Lemma ui_step_trans u v w : ui_step u v → ui_step v w → ui_step u w.
Proof.
  destruct u as [o [c |]]; unfold ui_step, opened, closed; simpl;
    intros [-> | [-> | ->]] [-> | [-> | ->]]; simpl; auto.
  - right; left. do 2 f_equal. set_solver.
  - right; right. do 2 f_equal. set_solver.
  - right; left. do 2 f_equal. apply set_eq. intros x.
    rewrite !elem_of_union, elem_of_difference. destruct (decide (x = active)); set_solver.
  - right; right. do 2 f_equal. set_solver.
Qed.

Lemma ui_same_effect {A} (m : M A) : ui_same m → ui_effect m.
Proof. intros H s. left. apply H. Qed.

Lemma ui_same_bind {A B} (m : M A) (f : A → M B) :
  ui_same m → (∀ a, ui_same (f a)) → ui_same (m ≫= f).
Proof.
  intros Hm Hf s. rewrite exec_bind. specialize (Hm s). unfold exec in Hm.
  destruct (m s) as [[a | e] s']; simpl in Hm; [| done].
  by rewrite Hf.
Qed.

Lemma ui_effect_bind {A B} (m : M A) (f : A → M B) :
  ui_effect m → (∀ a, ui_effect (f a)) → ui_effect (m ≫= f).
Proof.
  intros Hm Hf s. rewrite exec_bind. specialize (Hm s). unfold exec in Hm.
  destruct (m s) as [[a | e] s']; simpl in Hm; [| done].
  eapply ui_step_trans; [exact Hm | apply Hf].
Qed.

Lemma ui_same_ret {A} (a : A) : ui_same (mret a).
Proof. done. Qed.
Lemma ui_same_throw {A} (e : exn) : ui_same (throw (A:=A) e).
Proof. done. Qed.
Lemma ui_same_gets {A} (f : page → A) : ui_same (gets f).
Proof. done. Qed.
Lemma ui_same_modify (f : page → page) :
  (∀ s, ui (f s) = ui s) → ui_same (modify f).
Proof. intros H s. apply H. Qed.
Lemma ui_same_try_catch {A} (body : M A) (h : exn → M A) :
  ui_same body → (∀ e, ui_same (h e)) → ui_same (try_catch body h).
Proof.
  intros Hb Hh s. unfold exec, try_catch. specialize (Hb s). unfold exec in Hb.
  destruct (body s) as [[a | e] s']; simpl in *; [done |].
  specialize (Hh e s'). unfold exec in Hh. by rewrite Hh.
Qed.

Lemma classList_alter_at (p : list nat) (f : element → element) (e : element) :
  (∀ e, classList (f e) = classList e) → classList (alter_at p f e) = classList e.
Proof. intros Hf. destruct p; simpl; [apply Hf | by destruct e]. Qed.

Lemma ui_same_update (r : ref) (f : element → element) :
  (∀ e, classList (f e) = classList e) → ui_same (update r f).
Proof.
  intros Hf s. destruct r as [| k p]; [done |].
  unfold exec, update, modify, ui, overlay. simpl. f_equal.
  destruct (decide (k = ".modal")) as [-> | Hne].
  - rewrite lookup_alter_eq. destruct (document s !! ".modal"); simpl; [| done].
    by rewrite classList_alter_at.
  - by rewrite lookup_alter_ne.
Qed.

Ltac ui_same_step :=
  first
    [ apply ui_same_ret | apply ui_same_throw | apply ui_same_gets
    | apply ui_same_modify; intros ?; reflexivity
    | apply ui_same_update; intros []; reflexivity
    | apply ui_same_bind; [| intros ?]
    | apply ui_same_try_catch; [| intros ?]
    | match goal with
      | |- ui_same (match ?x with _ => _ end) => destruct x
      | |- ui_same (let '(_, _) := ?x in _) => destruct x
      end ].
Ltac ui_same_auto := repeat (first [ solve [auto with ui nocore] | ui_same_step ]).

Create HintDb ui.

Lemma ui_same_console_write entry : ui_same (console_write entry).
Proof. unfold console_write. ui_same_auto. Qed.
#[local] Hint Resolve ui_same_console_write : ui.

Lemma ui_same_shortcut mode args : ui_same (Log.shortcut mode args).
Proof. unfold Log.shortcut, Log.styled. ui_same_auto. Qed.
#[local] Hint Resolve ui_same_shortcut : ui.

Lemma ui_same_Log_init : ui_same Log.init.
Proof. unfold Log.init. ui_same_auto. Qed.
#[local] Hint Resolve ui_same_Log_init : ui.

Lemma ui_same_Storage_get key v : ui_same (Storage.get key v).
Proof.
  unfold Storage.get, localStorage_getItem, Log.red. ui_same_auto.
Qed.
Lemma ui_same_Storage_set key v : ui_same (Storage.set key v).
Proof.
  unfold Storage.set, localStorage_setItem, Log.red. ui_same_auto.
Qed.
#[local] Hint Resolve ui_same_Storage_get ui_same_Storage_set : ui.

Lemma ui_same_DOM_get sel ctx : ui_same (DOM.get sel ctx).
Proof. unfold DOM.get. ui_same_auto. Qed.
Lemma ui_same_DOM_clear el : ui_same (DOM.clear el).
Proof. unfold DOM.clear. ui_same_auto. Qed.
Lemma ui_same_DOM_setHTML el html : ui_same (DOM.setHTML el html).
Proof. unfold DOM.setHTML. ui_same_auto. Qed.
Lemma ui_same_DOM_setStyle el p v : ui_same (DOM.setStyle el p v).
Proof. unfold DOM.setStyle. ui_same_auto. Qed.
Lemma ui_same_DOM_on el ev h : ui_same (DOM.on el ev h).
Proof. unfold DOM.on. ui_same_auto. Qed.
Lemma ui_same_DOM_append el ch : ui_same (DOM.append el ch).
Proof. unfold DOM.append. ui_same_auto. Qed.
Lemma ui_same_DOM_getTemplate id : ui_same (DOM.getTemplate id).
Proof. unfold DOM.getTemplate, DOM.getById. ui_same_auto. Qed.
Lemma ui_same_DOM_hasClass el c : ui_same (DOM.hasClass el c).
Proof. unfold DOM.hasClass. ui_same_auto. Qed.
Lemma ui_same_assign_textContent t v f : ui_same (assign_textContent t v f).
Proof. unfold assign_textContent. ui_same_auto. Qed.
#[local] Hint Resolve ui_same_DOM_get ui_same_DOM_clear ui_same_DOM_setHTML
  ui_same_DOM_setStyle ui_same_DOM_on ui_same_DOM_append ui_same_DOM_getTemplate
  ui_same_DOM_hasClass ui_same_assign_textContent : ui.

Lemma ui_same_Modal_init : ui_same Modal.init.
Proof. unfold Modal.init, Modal.S.element, Modal.S.close. ui_same_auto. Qed.
Lemma ui_same_Modal_isOpen : ui_same Modal.isOpen.
Proof. unfold Modal.isOpen, Modal.S.element. ui_same_auto. Qed.
Lemma ui_same_STATE_init : ui_same STATE.init.
Proof. unfold STATE.init. ui_same_auto. Qed.
Lemma ui_same_updateMainColor v : ui_same (Effects.updateMainColor v).
Proof. unfold Effects.updateMainColor, Log.white. ui_same_auto. Qed.
Lemma ui_same_invoke k : ui_same (invoke k).
Proof. unfold invoke. ui_same_auto. Qed.
#[local] Hint Resolve ui_same_Modal_init ui_same_Modal_isOpen ui_same_STATE_init
  ui_same_updateMainColor ui_same_invoke : ui.
Lemma ui_same_script : ui_same script.
Proof.
  unfold script, App.init, Listeners.init, Log.yellow. ui_same_auto.
Qed.

Lemma shortcut_run mode args s :
  mode ∈ Log.styles.*1 →
  Log.shortcut mode args s =
    if Log_ready s then (Ok tt, with_console (λ c, c ++ [console_log mode args]) s)
    else (Throw (TypeError ("Log." +:+ mode +:+ " is not a function")), s).
Proof.
  intros Hin. unfold Log.shortcut, mbind, M_bind, gets.
  destruct (Log_ready s); simpl; [| done].
  rewrite bool_decide_eq_true_2 by done.
  unfold Log.styles in Hin. simpl in Hin.
  repeat (apply elem_of_cons in Hin as [-> | Hin]; [reflexivity |]).
  by apply elem_of_nil in Hin.
Qed.

Lemma exec_shortcut mode args s :
  mode ∈ Log.styles.*1 → exec (Log.shortcut mode args) s = logged_if_ready mode args s.
Proof.
  intros H. unfold exec, logged_if_ready. rewrite shortcut_run by done.
  by destruct (Log_ready s).
Qed.

Lemma close_exec s :
  exec Modal.close s =
    match overlay s with
    | None => s
    | Some _ =>
        logged_if_ready "gray" [L_val (JStr (units "Modal closed"))]
          (with_body_overflow []
             (with_document (alter (set_classList (λ c, c ∖ {[active]})) ".modal") s))
    end.
Proof.
  unfold exec, Modal.close, Modal.S.element, DOM.get, overlay, logged_if_ready.
  unfold mbind, M_bind, gets, mret, M_ret. simpl.
  destruct (document s !! ".modal") eqn:E; simpl; [| done].
  unfold Log.gray. rewrite shortcut_run by (vm_compute; set_solver).
  simpl. by destruct (Log_ready s).
Qed.

Lemma ui_logged_if_ready mode args s : ui (logged_if_ready mode args s) = ui s.
Proof. unfold logged_if_ready. by destruct (Log_ready s). Qed.

Lemma ui_close s : ui (exec Modal.close s) = closed (ui s).
Proof.
  rewrite close_exec. unfold closed, ui at 2. simpl.
  destruct (overlay s) as [e |] eqn:E; simpl.
  - rewrite ui_logged_if_ready. unfold ui, overlay in *. simpl.
    rewrite lookup_alter_eq, E. by destruct e.
  - unfold ui. by rewrite E.
Qed.

Arguments Log.shortcut : simpl never.
Arguments units : simpl never.

Lemma fill_after_clear (g : list node → list node) (k : string) (d : gmap string element) :
  alter (set_childNodes g) k (alter (set_childNodes (λ _, [])) k d)
  = alter (set_childNodes (λ _, g [])) k d.
Proof.
  rewrite alter_alter_eq. apply alter_ext. by intros [].
Qed.

Lemma open_exec c s :
  exec (Modal.open c) s =
    match overlay s with
    | None => logged_if_ready "red" [L_val (JStr (units "Modal not initialized"))] s
    | Some _ =>
        let fill (d : gmap string element) :=
          alter (set_childNodes (λ _,
                   match c with
                   | c_string html => parseHTML (browser s) html
                   | c_fragment nodes => nodes
                   | c_element e => [Elem e]
                   | c_other => []
                   end)) ".modal__content" d in
        logged_if_ready "gray" [L_val (JStr (units "Modal opened"))]
          (with_body_overflow (units "hidden")
             (with_document
                (λ d, alter (set_classList (λ c, {[active]} ∪ c)) ".modal" (fill d)) s))
    end.
Proof.
  destruct s as [b d t dl bo ls co lr sm ca].
  unfold exec, Modal.open, Modal.S.element, Modal.S.content, DOM.get, overlay,
    Log.red, Log.gray, DOM.clear, DOM.setHTML, DOM.append, DOM.addClass,
    DOM.lockScroll, update, mbind, M_bind, gets, modify, mret, M_ret.
  cbn [document].
  destruct (d !! ".modal") as [e |] eqn:E; cbn iota beta.
  - assert (Hs : ∀ f, alter f ".modal__content" d !! ".modal__content"
                      = f <$> d !! ".modal__content")
      by (intros; apply lookup_alter_eq).
    destruct (d !! ".modal__content") as [sl |] eqn:Es; destruct c; cbn;
      rewrite ?Es; cbn; rewrite ?Hs; cbn;
      rewrite shortcut_run by (vm_compute; set_solver); unfold logged_if_ready;
      cbn; destruct lr; cbn; unfold with_body_overflow, with_document, with_console;
      cbn; rewrite ?fill_after_clear;
      rewrite ?(alter_id' _ d ".modal__content") by done; reflexivity.
  - rewrite shortcut_run by (vm_compute; set_solver). unfold logged_if_ready.
    cbn. by destruct lr.
Qed.

Lemma ui_open c s : ui (exec (Modal.open c) s) = opened (ui s).
Proof.
  rewrite open_exec. unfold opened, ui at 2. simpl.
  destruct (overlay s) as [e |] eqn:E; simpl.
  - rewrite ui_logged_if_ready. unfold ui, overlay in *. simpl.
    rewrite lookup_alter_eq, lookup_alter_ne, E by done. by destruct e.
  - rewrite ui_logged_if_ready. unfold ui. by rewrite E.
Qed.

Lemma ui_effect_open c : ui_effect (Modal.open c).
Proof. intros s. right; left. apply ui_open. Qed.
Lemma ui_effect_close : ui_effect Modal.close.
Proof. intros s. right; right. apply ui_close. Qed.

Ltac ui_effect_auto :=
  repeat first
    [ solve [auto using ui_effect_open, ui_effect_close with nocore]
    | solve [apply ui_same_effect; ui_same_auto]
    | apply ui_effect_bind; [| intros ?]
    | match goal with
      | |- ui_effect (match ?x with _ => _ end) => destruct x
      end ].

Lemma ui_effect_alert t m : ui_effect (Modal.alert t m).
Proof. unfold Modal.alert, Modal.S.content. ui_effect_auto. Qed.
Lemma ui_effect_confirm t m k : ui_effect (Modal.confirm t m k).
Proof. unfold Modal.confirm, Modal.S.content. ui_effect_auto. Qed.

Lemma ui_effect_run_handler h e : ui_effect (run_handler h e).
Proof.
  destruct h; unfold run_handler, Handlers.changeColorClick, Modal.S.element, Log.blue;
    ui_effect_auto; auto using ui_effect_confirm.
Qed.

Lemma ui_step_run_listeners hs e s : ui_step (ui s) (ui (run_listeners hs e s)).
Proof.
  revert s. induction hs as [| h hs IH]; intros s; simpl; [apply ui_step_refl |].
  eapply ui_step_trans; [apply ui_effect_run_handler | apply IH].
Qed.

Lemma ui_step_run_op o s : ui_step (ui s) (ui (run_op o s)).
Proof.
  destruct o; simpl.
  - apply ui_effect_open.
  - apply ui_effect_close.
  - apply ui_same_effect, ui_same_Modal_isOpen.
  - apply ui_effect_alert.
  - apply ui_effect_confirm.
  - apply ui_step_run_listeners.
Qed.

Lemma lock_inv_step u u' : ui_step u u' → lock_inv u → lock_inv u'.
Proof.
  destruct u as [o [c |]]; unfold ui_step, opened, closed, lock_inv; simpl;
    intros [-> | [-> | ->]] H; simpl; auto.
  right. split; [done |]. exists ({[active]} ∪ c). split; [done | set_solver].
Qed.

Lemma reachable_lock_inv s : reachable s → lock_inv (ui s).
Proof.
  induction 1 as [s0 H0 | s o _ IH].
  - rewrite ui_same_script. by left.
  - eapply lock_inv_step; [apply ui_step_run_op | exact IH].
Qed.

Lemma isOpen_run s :
  Modal.isOpen s =
    (Ok (match overlay s with
         | Some e => JBool (bool_decide (active ∈ classList e))
         | None => JNull
         end), s).
Proof.
  unfold Modal.isOpen, Modal.S.element, DOM.get, DOM.hasClass, overlay, deref,
    mbind, M_bind, gets, mret, M_ret. simpl.
  destruct (document s !! ".modal") as [e |] eqn:E; simpl; [| done].
  by rewrite E.
Qed.

Lemma run_snoc ops o s : run (ops ++ [o]) s = run_op o (run ops s).
Proof. unfold run. by rewrite foldl_app. Qed.

Lemma ui_step_run ops s : ui_step (ui s) (ui (run ops s)).
Proof.
  induction ops as [| o ops IH] using rev_ind; [apply ui_step_refl |].
  rewrite run_snoc. eapply ui_step_trans; [exact IH | apply ui_step_run_op].
Qed.

Lemma ui_step_overlay u u' : ui_step u u' → is_Some u'.2 ↔ is_Some u.2.
Proof.
  destruct u as [o [c |]]; unfold ui_step, opened, closed; simpl;
    intros [-> | [-> | ->]]; simpl; split; intros [? ?]; eauto; done.
Qed.

Lemma overlay_run ops s : is_Some (overlay (run ops s)) ↔ is_Some (overlay s).
Proof.
  pose proof (ui_step_overlay _ _ (ui_step_run ops s)) as H. unfold ui in H.
  simpl in H. by rewrite !fmap_is_Some in H.
Qed.

Lemma isOpen_of_ui s :
  (Modal.isOpen s).1 =
    Ok (match (ui s).2 with
        | Some c => JBool (bool_decide (active ∈ c))
        | None => JNull
        end).
Proof. rewrite isOpen_run. unfold ui. simpl. by destruct (overlay s). Qed.

Lemma S_element_run s :
  Modal.S.element s
  = (Ok (if overlay s is Some _ then Some (at_ ".modal" []) else None), s).
Proof. reflexivity. Qed.

(** *** The persisted colour *)

Lemma stored_color_round_trip (s s' : page) (C : jstring) :
  C ≠ [] →
  Storage.set CONFIG.storage.mainColor (JStr C) s = (Ok true, s') →
  STATE.init s' = (Ok tt, with_STATE_mainColor (JStr C) s').
Proof.
  intros HC Hset.
  assert (Hst : available (localStorage s') = true
                ∧ items (localStorage s') !! "main-color" = Some (QuoteJSONString C)).
  { unfold Storage.set, try_catch, localStorage_setItem, mbind, M_bind, gets, modify,
      mret, M_ret, throw in Hset. simpl in Hset.
    destruct (available (localStorage s)) eqn:Ea; simpl in Hset.
    - destruct (bool_decide _) eqn:Eq in Hset; simpl in Hset.
      + injection Hset as <-. simpl. split; [done | apply lookup_insert_eq].
      + unfold Log.red in Hset. rewrite shortcut_run in Hset by (vm_compute; set_solver).
        destruct (Log_ready s); discriminate.
    - unfold Log.red in Hset. rewrite shortcut_run in Hset by (vm_compute; set_solver).
      destruct (Log_ready s); discriminate. }
  destruct Hst as [Ha Hi].
  unfold STATE.init, Storage.get, try_catch, localStorage_getItem, mbind, M_bind,
    gets, modify, mret, M_ret. simpl.
  unfold CONFIG.storage.mainColor. rewrite Ha, Hi.
  pose proof (JSON_round_trip C) as Hrt. unfold QuoteJSONString in *.
  rewrite Hrt. simpl. by rewrite bool_decide_eq_false_2.
Qed.

Lemma absent_color_gives_default (s : page) :
  available (localStorage s) = true →
  items (localStorage s) !! "main-color" = None →
  STATE.init s = (Ok tt, with_STATE_mainColor (JStr (units "#111")) s).
Proof.
  intros Ha Hi.
  unfold STATE.init, Storage.get, try_catch, localStorage_getItem, mbind, M_bind,
    gets, modify, mret, M_ret. simpl.
  unfold CONFIG.storage.mainColor. by rewrite Ha, Hi.
Qed.

Lemma unparsable_color_throws (s : page) (text : jstring) :
  Log_ready s = false →
  available (localStorage s) = true →
  items (localStorage s) !! "main-color" = Some text →
  text ≠ [] → JSON_parse text = None →
  STATE.init s = (Throw (TypeError "Log.red is not a function"), s).
Proof.
  intros Hl Ha Hi Hne Hp.
  unfold STATE.init, Storage.get, try_catch, localStorage_getItem, mbind, M_bind,
    gets, modify, mret, M_ret, throw. simpl.
  unfold CONFIG.storage.mainColor. rewrite Ha, Hi.
  destruct text as [| c text]; [done |]. rewrite Hp.
  unfold Log.red. rewrite shortcut_run by (vm_compute; set_solver). by rewrite Hl.
Qed.

(** C2 (the part the code misses): with the text [#111] stored under the
    key, which is not JSON, reading the colour back at startup does not yield
    the default: [JSON.parse] throws, the [catch] of [Storage.get] calls
    [Log.red], which [Log.init] has not installed yet, and the TypeError
    leaves the [STATE] initializer and stops the script before [App.init]. *)
Theorem STATE_init_unparsable_store_throws :
  let s := page_at_load true {[ "main-color" := units "#111" ]} in
  JSON_parse (units "#111") = None
  ∧ STATE.init s = (Throw (TypeError "Log.red is not a function"), s)
  ∧ script s = (Throw (TypeError "Log.red is not a function"), s).
Proof. cbv zeta. split; [| split]; vm_compute; reflexivity. Qed.

(** *** The modal *)

(** C1 as stated fails: without the overlay root, [Modal.isOpen()] returns
    [null], not [false]. *)
Lemma isOpen_without_overlay_is_null :
  (Modal.isOpen (page_at_load false ∅)).1 = Ok JNull
  ∧ (Modal.isOpen (page_at_load false ∅)).1 ≠ Ok (JBool false).
Proof. split; [reflexivity | discriminate]. Qed.

(** C1, amended: after any sequence of [Modal.open] and [Modal.close]
    calls on a page with the overlay root, [Modal.isOpen()] returns [true]
    when the last call was [open] and [false] when it was [close]; without
    the overlay root it returns [null] (a falsy value) after every such
    sequence. *)
Theorem isOpen_tracks_last_call (s : page) (calls : list modal_call) (last : modal_call) :
  (is_Some (overlay s) →
   (Modal.isOpen (run (op_of <$> (calls ++ [last])) s)).1
   = Ok (JBool (if last is do_open _ then true else false)))
  ∧ (overlay s = None →
     (Modal.isOpen (run (op_of <$> calls) s)).1 = Ok JNull).
Proof.
  split.
  - intros Hov. rewrite fmap_app. change (op_of <$> [last]) with [op_of last].
    rewrite run_snoc.
    set (s' := run (op_of <$> calls) s).
    assert (Hov' : is_Some (overlay s')) by by apply overlay_run.
    destruct Hov' as [e He]. rewrite isOpen_of_ui.
    destruct last as [c |]; cbn [op_of run_op].
    + rewrite ui_open. unfold opened, ui. rewrite He. simpl.
      rewrite bool_decide_eq_true_2; [done | set_solver].
    + rewrite ui_close. unfold closed, ui. rewrite He. simpl.
      rewrite bool_decide_eq_false_2; [done | set_solver].
  - intros Hov. rewrite isOpen_of_ui.
    destruct (ui (run (op_of <$> calls) s)).2 as [c |] eqn:E; [| done].
    assert (H : is_Some (overlay (run (op_of <$> calls) s))).
    { unfold ui in E. simpl in E.
      destruct (overlay (run (op_of <$> calls) s)); [eauto | discriminate]. }
    apply overlay_run in H. rewrite Hov in H. by destruct H.
Qed.

Lemma isOpen_tracks_last_call_witness :
  (Modal.isOpen (run (op_of <$> ([do_open c_other; do_close] ++ [do_open (c_string (units "hi"))]))
                     (page_at_load true ∅))).1 = Ok (JBool true)
  ∧ (Modal.isOpen (run (op_of <$> [do_open c_other; do_close]) (page_at_load false ∅))).1
    = Ok JNull.
Proof.
  pose proof (isOpen_tracks_last_call (page_at_load true ∅) [do_open c_other; do_close]
                (do_open (c_string (units "hi")))) as [H1 _].
  pose proof (isOpen_tracks_last_call (page_at_load false ∅) [do_open c_other; do_close]
                do_close) as [_ H2].
  split; [apply H1; vm_compute; eauto | apply H2; reflexivity].
Defined.

(** C4 as stated fails on the loaded page without the modal markup:
    [Modal.close()] writes no diagnostic, and [Modal.alert] throws when it
    looks for its button in the missing content slot. *)
Lemma absent_overlay_close_silent_alert_throws :
  let s := exec script (page_at_load false ∅) in
  overlay s = None
  ∧ Modal.close s = (Ok tt, s)
  ∧ (Modal.alert (units "Success!") (units "The color has been changed.") s).1
    = Throw (TypeError "Cannot read properties of null (reading 'querySelector')").
Proof. cbv zeta. split; [| split]; vm_compute; reflexivity. Qed.

(** C4, amended: without the overlay root (and once the logger is
    initialized) [Modal.open] logs "Modal not initialized" and changes nothing
    else, [Modal.close] and [Modal.isOpen] change nothing and log nothing,
    [isOpen] returning [null]; none of the three throws, whatever the
    argument.  [Modal.alert] and [Modal.confirm] leave the overlay's classes
    and the scroll lock as they were. *)
Theorem absent_overlay_open_close_isOpen
    (s : page) (c : content) (title message : jstring) (onConfirm : callback) :
  overlay s = None → Log_ready s = true →
  Modal.open c s
  = (Ok tt, with_console
              (λ l, l ++ [console_log "red" [L_val (JStr (units "Modal not initialized"))]]) s)
  ∧ Modal.close s = (Ok tt, s)
  ∧ Modal.isOpen s = (Ok JNull, s)
  ∧ ui (exec (Modal.alert title message) s) = ui s
  ∧ ui (exec (Modal.confirm title message onConfirm) s) = ui s.
Proof.
  intros Hov Hlog.
  assert (Hui : ∀ u', ui_step (ui s) u' → u' = ui s).
  { unfold ui_step, opened, closed, ui. rewrite Hov. simpl. by intros u' [-> | [-> | ->]]. }
  unfold overlay in Hov. split; [| split; [| split; [| split]]].
  - unfold Modal.open, Modal.S.element, DOM.get, Log.red, mbind, M_bind, gets,
      mret, M_ret. simpl. rewrite Hov. simpl.
    rewrite shortcut_run by (vm_compute; set_solver). by rewrite Hlog.
  - unfold Modal.close, Modal.S.element, DOM.get, mbind, M_bind, gets, mret, M_ret.
    simpl. by rewrite Hov.
  - rewrite isOpen_run. unfold overlay. by rewrite Hov.
  - apply Hui, ui_effect_alert.
  - apply Hui, ui_effect_confirm.
Qed.

Lemma absent_overlay_open_close_isOpen_witness :
  let s := exec script (page_at_load false ∅) in
  Modal.open (c_string (units "hi")) s
  = (Ok tt, with_console
              (λ l, l ++ [console_log "red" [L_val (JStr (units "Modal not initialized"))]]) s)
  ∧ Modal.close s = (Ok tt, s)
  ∧ Modal.isOpen s = (Ok JNull, s)
  ∧ ui (exec (Modal.alert (units "Success!") (units "Done.")) s) = ui s
  ∧ ui (exec (Modal.confirm (units "Success!") (units "Done.") not_callable) s) = ui s.
Proof.
  apply (absent_overlay_open_close_isOpen (exec script (page_at_load false ∅))
           (c_string (units "hi")) (units "Success!") (units "Done.")
           not_callable); vm_compute; reflexivity.
Defined.

(** C5: [Modal.close()] is idempotent on what is observable: from any page,
    a second call in a row leaves the overlay's class list and the
    scroll-lock flag as the first call left them. *)
Theorem close_idempotent (s : page) :
  let once := exec Modal.close s in
  let twice := exec Modal.close once in
  classList <$> overlay twice = classList <$> overlay once
  ∧ body_overflow twice = body_overflow once.
Proof.
  cbv zeta.
  assert (H : ui (exec Modal.close (exec Modal.close s)) = ui (exec Modal.close s)).
  { rewrite !ui_close. destruct (ui s) as [o [c |]]; unfold closed; simpl; [| done].
    do 2 f_equal. set_solver. }
  unfold ui in H. by inversion H.
Qed.

Lemma closed_unlocked u u' : lock_inv u → u' = closed u → u'.1 = [].
Proof.
  destruct u as [o [c |]]; unfold lock_inv, closed; simpl; intros H ->; simpl; [done |].
  destruct H as [-> | [_ (c & ? & _)]]; done.
Qed.

(** C6: on every reachable page a call of [Modal.close()] leaves scrolling
    unlocked, whether the modal was open or closed and whichever dismissal
    listener made the call (close button, confirm or cancel button, backdrop
    click, Escape key); the lock is held only while the modal is open; and
    with the overlay root present [close] releases the lock from any page
    whatsoever. *)
Theorem close_releases_scroll_lock (s : page) :
  reachable s →
  body_overflow (exec Modal.close s) = []
  ∧ (∀ h e, dismissal h e → body_overflow (exec (run_handler h e) s) = [])
  ∧ (body_overflow s = units "hidden" → (Modal.isOpen s).1 = Ok (JBool true))
  ∧ (∀ s', is_Some (overlay s') → body_overflow (exec Modal.close s') = []).
Proof.
  intros Hr. pose proof (reachable_lock_inv s Hr) as Hinv.
  assert (Hclose : body_overflow (exec Modal.close s) = []).
  { change (body_overflow (exec Modal.close s)) with (ui (exec Modal.close s)).1.
    eapply closed_unlocked; [exact Hinv | apply ui_close]. }
  assert (Hopen : body_overflow s = units "hidden" → (Modal.isOpen s).1 = Ok (JBool true)).
  { intros Hh. rewrite isOpen_of_ui. destruct Hinv as [H0 | [_ (c & Hc & Hin)]].
    - unfold ui in H0. simpl in H0. rewrite H0 in Hh. discriminate.
    - rewrite Hc. by rewrite bool_decide_eq_true_2. }
  split; [exact Hclose |]. split; [| split; [exact Hopen |]].
  - intros h e [-> | [[k ->] | [[-> Ht] | [-> Hk]]]]; simpl.
    + exact Hclose.
    + rewrite exec_bind. unfold exec in Hclose.
      destruct (Modal.close s) as [[[] | ex] s'] eqn:E; simpl in *; [| done].
      change (body_overflow (exec (invoke k) s')) with (ui (exec (invoke k) s')).1.
      rewrite ui_same_invoke. exact Hclose.
    + rewrite exec_bind, S_element_run, Ht.
      destruct (overlay s) as [ov |] eqn:E.
      * rewrite bool_decide_eq_true_2 by done. exact Hclose.
      * rewrite bool_decide_eq_false_2 by done.
        destruct Hinv as [H0 | [_ (c & Hc & _)]]; [exact H0 |].
        unfold ui in Hc. simpl in Hc. by rewrite E in Hc.
    + rewrite bool_decide_eq_true_2 by done. rewrite exec_bind, isOpen_run.
      destruct (overlay s) as [ov |] eqn:E; simpl.
      * destruct (bool_decide (active ∈ classList ov)) eqn:Ea; [exact Hclose |].
        unfold exec; simpl. destruct Hinv as [H0 | [_ (c & Hc & Hin)]]; [exact H0 |].
        unfold ui in Hc. simpl in Hc. rewrite E in Hc. simpl in Hc.
        injection Hc as <-. by apply bool_decide_eq_false_1 in Ea.
      * unfold exec; simpl. destruct Hinv as [H0 | [_ (c & Hc & _)]]; [exact H0 |].
        unfold ui in Hc. simpl in Hc. by rewrite E in Hc.
  - intros s' [ov Hov].
    change (body_overflow (exec Modal.close s')) with (ui (exec Modal.close s')).1.
    rewrite ui_close. unfold closed, ui. by rewrite Hov.
Qed.

Lemma close_releases_scroll_lock_witness :
  let s := run [call_open (c_string (units "hi"))] (exec script (page_at_load true ∅)) in
  reachable s ∧
  (body_overflow (exec Modal.close s) = []
   ∧ (∀ h e, dismissal h e → body_overflow (exec (run_handler h e) s) = [])
   ∧ (body_overflow s = units "hidden" → (Modal.isOpen s).1 = Ok (JBool true))
   ∧ (∀ s', is_Some (overlay s') → body_overflow (exec Modal.close s') = [])).
Proof.
  assert (H : reachable (run [call_open (c_string (units "hi"))]
                           (exec script (page_at_load true ∅)))).
  { apply (reachable_step _ (call_open _)). apply reachable_load. reflexivity. }
  split; [exact H | exact (close_releases_scroll_lock _ H)].
Defined.

Lemma getTemplate_missing id s :
  templates s !! id = None →
  DOM.getTemplate id s = (Ok None, with_console (λ l, l ++ [template_not_found id]) s).
Proof.
  intros H. unfold DOM.getTemplate, DOM.getById, console_write, mbind, M_bind, gets,
    modify, mret, M_ret. by rewrite H.
Qed.

(** C7: when the template is missing, [Modal.alert] and [Modal.confirm]
    return after writing the diagnostic to the console and change nothing
    else: the overlay's classes, the content slot and the scroll-lock flag
    are those of the page before the call. *)
Theorem missing_template_aborts (s : page) (title message : jstring) (onConfirm : callback) :
  (templates s !! "modal-alert" = None →
   Modal.alert title message s
   = (Ok tt, with_console (λ l, l ++ [template_not_found "modal-alert"]) s))
  ∧ (templates s !! "modal-confirm" = None →
     Modal.confirm title message onConfirm s
     = (Ok tt, with_console (λ l, l ++ [template_not_found "modal-confirm"]) s)).
Proof.
  split; intros H.
  - unfold Modal.alert, mbind, M_bind. by rewrite (getTemplate_missing _ _ H).
  - unfold Modal.confirm, mbind, M_bind. by rewrite (getTemplate_missing _ _ H).
Qed.

Lemma missing_template_aborts_witness :
  let s := without_templates
             (run [call_open (c_string (units "hi"))] (exec script (page_at_load true ∅))) in
  Modal.alert (units "Success!") (units "The color has been changed.") s
  = (Ok tt, with_console (λ l, l ++ [template_not_found "modal-alert"]) s)
  ∧ Modal.confirm (units "Change color?") (units "Really?") (Callback "changeColor") s
    = (Ok tt, with_console (λ l, l ++ [template_not_found "modal-confirm"]) s).
Proof.
  cbv zeta.
  destruct (missing_template_aborts
              (without_templates
                 (run [call_open (c_string (units "hi"))] (exec script (page_at_load true ∅))))
              (units "Success!") (units "The color has been changed.")
              (Callback "changeColor")) as [Ha _].
  destruct (missing_template_aborts
              (without_templates
                 (run [call_open (c_string (units "hi"))] (exec script (page_at_load true ∅))))
              (units "Change color?") (units "Really?")
              (Callback "changeColor")) as [_ Hc].
  split; [apply Ha | apply Hc]; reflexivity.
Defined.

Lemma close_is_not_a_no_op s : is_Some (overlay s) → Modal.close s ≠ (Ok tt, s).
Proof.
  intros [ov Hov] H.
  assert (Hex : exec Modal.close s = s) by (unfold exec; by rewrite H).
  rewrite close_exec, Hov in Hex. unfold logged_if_ready in Hex.
  cbn [Log_ready with_body_overflow with_document] in Hex.
  destruct (Log_ready s) eqn:Hl.
  - apply (f_equal console) in Hex.
    cbn [console with_console with_body_overflow with_document] in Hex.
    apply (f_equal length) in Hex. rewrite length_app in Hex. simpl in Hex. lia.
  - unfold Modal.close, mbind, M_bind in H. rewrite S_element_run, Hov in H.
    unfold DOM.removeClass, DOM.unlockScroll, update, modify, Log.gray in H.
    simpl in H. rewrite shortcut_run in H by (vm_compute; set_solver).
    simpl in H. rewrite Hl in H. discriminate.
Qed.

(** C8: [Modal.init] registers the backdrop listener on the overlay root
    for clicks, and the listener does what [Modal.close] does exactly when
    the event's target is the overlay root itself; for any other target, a
    descendant content element included, it leaves the page as it is. *)
Theorem backdrop_click_closes_iff_target_is_overlay (s : page) (e : event) :
  is_Some (overlay s) →
  ("click", h_backdrop) ∈ listeners_of (at_ ".modal" []) (exec Modal.init s)
  ∧ (run_handler h_backdrop e s = Modal.close s ↔ target e = at_ ".modal" [])
  ∧ (target e ≠ at_ ".modal" [] → run_handler h_backdrop e s = (Ok tt, s)).
Proof.
  intros Hov. pose proof Hov as [ov Hov'].
  assert (Hrun : run_handler h_backdrop e s
                 = if bool_decide (target e = at_ ".modal" []) then Modal.close s
                   else (Ok tt, s)).
  { unfold run_handler, mbind, M_bind. rewrite S_element_run, Hov'.
    destruct (decide (target e = at_ ".modal" [])) as [-> | Hne].
    - by rewrite !bool_decide_eq_true_2.
    - rewrite !bool_decide_eq_false_2; [done | done | congruence]. }
  split; [| split].
  - unfold exec, Modal.init, Modal.S.close, mbind, M_bind. rewrite S_element_run, Hov'.
    unfold DOM.get, DOM.on, update, modify, gets, mbind, M_bind, mret, M_ret.
    simpl. unfold overlay in Hov'.
    destruct (alter _ ".modal" (document s) !! ".modal__close") eqn:Ec; simpl;
      rewrite ?lookup_alter_ne by done; rewrite lookup_alter_eq, Hov'; simpl;
      destruct ov; simpl; unfold addEventListener; simpl; set_solver.
  - rewrite Hrun. split.
    + intros H. destruct (decide (target e = at_ ".modal" [])) as [Ht | Hne]; [done |].
      rewrite bool_decide_eq_false_2 in H by done.
      symmetry in H. by apply close_is_not_a_no_op in H.
    + intros Ht. by rewrite bool_decide_eq_true_2.
  - intros Hne. rewrite Hrun. by rewrite bool_decide_eq_false_2.
Qed.

Lemma backdrop_click_closes_iff_target_is_overlay_witness :
  let s := run [call_open (c_string (units "hi"))] (exec script (page_at_load true ∅)) in
  let e := Event (at_ ".modal__content" [0%nat]) [] in
  ("click", h_backdrop) ∈ listeners_of (at_ ".modal" []) (exec Modal.init s)
  ∧ (run_handler h_backdrop e s = Modal.close s ↔ target e = at_ ".modal" [])
  ∧ (target e ≠ at_ ".modal" [] → run_handler h_backdrop e s = (Ok tt, s)).
Proof.
  apply backdrop_click_closes_iff_target_is_overlay. vm_compute. eauto.
Defined.

(** *** The colour change *)

(** C9: for a falsy argument ([null], [undefined], the empty string, and
    also [false] and 0) [Effects.updateMainColor] returns at once:
    [STATE.mainColor], the style of the main element and the store are
    untouched, as is the rest of the page. *)
Theorem updateMainColor_falsy_is_no_op (newColor : jsval) (s : page) :
  truthy newColor = false → Effects.updateMainColor newColor s = (Ok tt, s).
Proof. intros H. unfold Effects.updateMainColor. by rewrite H. Qed.

Lemma updateMainColor_falsy_is_no_op_witness :
  let s := exec script (page_at_load true {[ "main-color" := QuoteJSONString (units "#3a3a3a") ]}) in
  Effects.updateMainColor JNull s = (Ok tt, s)
  ∧ Effects.updateMainColor JUndefined s = (Ok tt, s)
  ∧ Effects.updateMainColor (JStr []) s = (Ok tt, s).
Proof.
  cbv zeta. split; [| split]; apply updateMainColor_falsy_is_no_op; reflexivity.
Defined.

(* ================================================================== *)
(** * Further properties *)

(** *** Invariants and normal return: rules *)
Lemma preserves_bind P {A B} (m : M A) (f : A → M B) :
  preserves P m → (∀ a, preserves P (f a)) → preserves P (m ≫= f).
Proof.
  intros Hm Hf s HP. rewrite exec_bind. specialize (Hm s HP). unfold exec in Hm.
  destruct (m s) as [[a | e] s']; simpl in Hm; [by apply Hf | done].
Qed.
Lemma preserves_ret P {A} (a : A) : preserves P (mret a).
Proof. by intros s H. Qed.
Lemma preserves_throw P {A} (e : exn) : preserves P (throw (A:=A) e).
Proof. by intros s H. Qed.
Lemma preserves_gets P {A} (f : page → A) : preserves P (gets f).
Proof. by intros s H. Qed.
Lemma preserves_modify P (g : page → page) :
  (∀ s, P s → P (g s)) → preserves P (modify g).
Proof. intros H s HP. by apply H. Qed.
Lemma preserves_update P (r : ref) (f : element → element) :
  (∀ s g, P s → P (with_document g s)) → preserves P (update r f).
Proof. intros H s HP. destruct r; [done | by apply H]. Qed.
Lemma preserves_try_catch P {A} (body : M A) (h : exn → M A) :
  preserves P body → (∀ e, preserves P (h e)) → preserves P (try_catch body h).
Proof.
  intros Hb Hh s HP. unfold exec, try_catch. specialize (Hb s HP). unfold exec in Hb.
  destruct (body s) as [[a | e] s']; simpl in *; [done | by apply Hh].
Qed.

Ltac preserves_step :=
  first
    [ apply preserves_ret | apply preserves_throw | apply preserves_gets
    | apply preserves_modify; intros ? HP; exact HP
    | apply preserves_update; intros ? ? HP; exact HP
    | apply preserves_bind; [| intros ?]
    | apply preserves_try_catch; [| intros ?]
    | match goal with
      | |- preserves _ (match ?x with _ => _ end) => destruct x
      end ].
Ltac preserves_auto := repeat preserves_step.

Lemma returns_bind P {A B} (Q : A → Prop) (R : B → Prop) (m : M A) (f : A → M B) :
  returns P Q m → (∀ a, Q a → returns P R (f a)) → returns P R (m ≫= f).
Proof.
  intros Hm Hf s HP. destruct (Hm s HP) as (a & s' & E & HP' & HQ).
  unfold mbind, M_bind. rewrite E. by apply Hf.
Qed.
Lemma returns_ret P {A} (Q : A → Prop) (a : A) : Q a → returns P Q (mret a).
Proof. intros HQ s HP. by exists a, s. Qed.
Lemma returns_gets P {A} (f : page → A) : returns P (λ _, True) (gets f).
Proof. intros s HP. by exists (f s), s. Qed.
Lemma returns_modify P (g : page → page) :
  (∀ s, P s → P (g s)) → returns P (λ _, True) (modify g).
Proof. intros H s HP. exists tt, (g s). auto. Qed.
Lemma returns_update P (r : ref) (f : element → element) :
  (∀ s g, P s → P (with_document g s)) → returns P (λ _, True) (update r f).
Proof.
  intros H s HP. destruct r as [| k p]; [by exists tt, s |].
  exists tt, (with_document (alter (alter_at p f) k) s). auto.
Qed.
Lemma returns_try_catch P {A} (Q : A → Prop) (body : M A) (h : exn → M A) :
  returns P Q body ∨ (preserves P body ∧ ∀ a, Q a) →
  (∀ e, returns P Q (h e)) → returns P Q (try_catch body h).
Proof.
  intros Hb Hh s HP. unfold try_catch.
  destruct Hb as [Hb | [Hb HQ]].
  - destruct (Hb s HP) as (a & s' & E & ? & ?). rewrite E. eauto.
  - specialize (Hb s HP). unfold exec in Hb.
    destruct (body s) as [[a | e] s'] eqn:E; simpl in Hb; [eauto 6 | by apply Hh].
Qed.

Lemma returns_shortcut mode args :
  mode ∈ Log.styles.*1 → returns logger_ready (λ _, True) (Log.shortcut mode args).
Proof.
  intros Hm s HP. rewrite shortcut_run by done. rewrite HP.
  eexists _, _. split; [done |]. by split.
Qed.

Lemma returns_console_write P entry :
  (∀ s f, P s → P (with_console f s)) → returns P (λ _, True) (console_write entry).
Proof. intros H. apply returns_modify. intros s HP. by apply H. Qed.

Lemma returns_DOM_get_omitted P selector : returns P element_ref (DOM.get selector DOM.omitted).
Proof.
  intros s HP. eexists _, s. split; [reflexivity |]. split; [done |].
  unfold element_ref. by destruct (document s !! selector).
Qed.

Ltac returns_step :=
  first
    [ apply returns_ret; done
    | apply returns_shortcut; vm_compute; set_solver
    | apply returns_modify; intros ? HP; exact HP
    | apply returns_update; intros ? ? HP; exact HP
    | apply returns_console_write; intros ? ? HP; exact HP
    | eapply returns_bind;
      [ first [ apply returns_gets | apply returns_DOM_get_omitted
              | apply returns_shortcut; vm_compute; set_solver
              | apply returns_modify; intros ? HP; exact HP
              | apply returns_update; intros ? ? HP; exact HP ]
      | intros ? ? ]
    | match goal with
      | |- returns _ _ (match ?x with _ => _ end) => destruct x
      end ].

(** *** The store *)

Lemma Storage_get_run key d s :
  Log_ready s = true →
  Storage.get key d s =
    if available (localStorage s) then
      match items (localStorage s) !! key with
      | Some (c :: text) =>
          match JSON_parse (c :: text) with
          | Some v => (Ok v, s)
          | None => (Ok d, with_console (λ l, l ++ [read_error SyntaxError]) s)
          end
      | _ => (Ok d, s)
      end
    else (Ok d, with_console (λ l, l ++ [read_error SecurityError]) s).
Proof.
  intros Hl. unfold Storage.get, try_catch, localStorage_getItem, mbind, M_bind, gets,
    mret, M_ret, throw, Log.red. simpl.
  destruct (available (localStorage s)); simpl.
  - destruct (items (localStorage s) !! key) as [[| c text] |]; try done.
    destruct (JSON_parse (c :: text)); [done |].
    rewrite shortcut_run by (vm_compute; set_solver). by rewrite Hl.
  - rewrite shortcut_run by (vm_compute; set_solver). by rewrite Hl.
Qed.

(** X1: once the logger is initialised [Storage.get] never throws.  It
    leaves the page as it was, or returns the default and logs one
    "Storage read error:" entry; a missing item and the empty string give
    the default silently. *)
Theorem Storage_get_never_throws (key : string) (d : jsval) (s : page) :
  Log_ready s = true →
  ∃ v s', Storage.get key d s = (Ok v, s')
          ∧ (s' = s ∨ (v = d ∧ ∃ e, s' = with_console (λ l, l ++ [read_error e]) s))
          ∧ (available (localStorage s) = true →
             items (localStorage s) !! key = None ∨ items (localStorage s) !! key = Some [] →
             v = d ∧ s' = s).
Proof.
  intros Hl. rewrite Storage_get_run by done.
  destruct (available (localStorage s)).
  - destruct (items (localStorage s) !! key) as [[| c text] |] eqn:E.
    + eexists _, _. split; [done |]. split; [by left | done].
    + destruct (JSON_parse (c :: text)).
      * eexists _, _. split; [done |]. split; [by left |]. by intros _ [? | ?].
      * eexists _, _. split; [done |]. split; [right; eauto |]. by intros _ [? | ?].
    + eexists _, _. split; [done |]. split; [by left | done].
  - eexists _, _. split; [done |]. split; [right; eauto | done].
Qed.

Lemma Storage_get_never_throws_witness :
  Log_ready started = true
  ∧ ∃ v s', Storage.get "main-color" JNull started = (Ok v, s').
Proof.
  assert (H : Log_ready started = true) by (vm_compute; reflexivity).
  split; [exact H |].
  destruct (Storage_get_never_throws "main-color" JNull started H) as (v & s' & E & _).
  exists v, s'. exact E.
Defined.

Lemma Storage_set_run key v s :
  Log_ready s = true →
  Storage.set key v s =
    let text := stored_text (browser s) v in
    if available (localStorage s) then
      if bool_decide (usage (<[key := text]> (items (localStorage s)))
                      ≤ capacity (localStorage s))%nat
      then (Ok true, with_localStorage
                       (Storage_area (<[key := text]> (items (localStorage s))) true
                                     (capacity (localStorage s))) s)
      else (Ok false, with_console (λ l, l ++ [write_error QuotaExceededError]) s)
    else (Ok false, with_console (λ l, l ++ [write_error SecurityError]) s).
Proof.
  intros Hl. unfold Storage.set, try_catch, localStorage_setItem, mbind, M_bind, gets,
    modify, mret, M_ret, throw, Log.red, stored_text. simpl.
  destruct (available (localStorage s)) eqn:Ea; simpl.
  - destruct (bool_decide _); simpl; [done |].
    rewrite shortcut_run by (vm_compute; set_solver). by rewrite Hl.
  - rewrite shortcut_run by (vm_compute; set_solver). by rewrite Hl.
Qed.

(** X2: once the logger is initialised [Storage.set] never throws.  On
    [true] the key holds the JSON text, every other key is as before and
    nothing is logged; on [false] the store is unchanged and one "Storage
    write error:" entry is logged. *)
Theorem Storage_set_never_throws (key : string) (v : jsval) (s : page) :
  Log_ready s = true →
  ∃ ok s', Storage.set key v s = (Ok ok, s')
    ∧ (ok = true →
       items (localStorage s') !! key = Some (stored_text (browser s) v)
       ∧ (∀ k, k ≠ key → items (localStorage s') !! k = items (localStorage s) !! k)
       ∧ console s' = console s)
    ∧ (ok = false →
       localStorage s' = localStorage s
       ∧ ∃ e, console s' = console s ++ [write_error e]).
Proof.
  intros Hl. rewrite Storage_set_run by done. cbv zeta.
  destruct (available (localStorage s)).
  - destruct (bool_decide _).
    + eexists _, _. split; [done |]. split; [| done]. intros _. simpl.
      split; [apply lookup_insert_eq |]. split; [| done].
      intros k Hk. by rewrite lookup_insert_ne.
    + eexists _, _. split; [done |]. split; [done |]. intros _. simpl. eauto.
  - eexists _, _. split; [done |]. split; [done |]. intros _. simpl. eauto.
Qed.

Lemma Storage_set_never_throws_witness :
  Log_ready started = true
  ∧ ∃ ok s', Storage.set "main-color" (JStr (units "#222")) started = (Ok ok, s').
Proof.
  assert (H : Log_ready started = true) by (vm_compute; reflexivity).
  split; [exact H |].
  destruct (Storage_set_never_throws "main-color" (JStr (units "#222")) started H)
    as (ok & s' & E & _).
  exists ok, s'. exact E.
Defined.

Lemma Storage_set_true key v s s' :
  Storage.set key v s = (Ok true, s') →
  available (localStorage s') = true
  ∧ items (localStorage s') !! key = Some (stored_text (browser s) v)
  ∧ Log_ready s' = Log_ready s ∧ browser s' = browser s.
Proof.
  intros Hset.
  unfold Storage.set, try_catch, localStorage_setItem, mbind, M_bind, gets, modify,
    mret, M_ret, throw in Hset. simpl in Hset.
  destruct (available (localStorage s)) eqn:Ea; simpl in Hset.
  - destruct (bool_decide _) eqn:Eq in Hset; simpl in Hset.
    + injection Hset as <-. simpl. split; [done |]. split; [apply lookup_insert_eq | done].
    + unfold Log.red in Hset. rewrite shortcut_run in Hset by (vm_compute; set_solver).
      destruct (Log_ready s); discriminate.
  - unfold Log.red in Hset. rewrite shortcut_run in Hset by (vm_compute; set_solver).
    destruct (Log_ready s); discriminate.
Qed.

Lemma Storage_get_parsed key d s c text v :
  available (localStorage s) = true →
  items (localStorage s) !! key = Some (c :: text) →
  JSON_parse (c :: text) = Some v →
  Storage.get key d s = (Ok v, s).
Proof.
  intros Ha Hi Hp. unfold Storage.get, try_catch, localStorage_getItem, mbind, M_bind,
    gets, mret, M_ret. cbv beta iota. rewrite Ha. cbv beta iota.
  unfold jstring in *. rewrite Hi. cbv beta iota. by rewrite Hp.
Qed.

(** X3: what [Storage.set] stored, [Storage.get] reads back, for [null],
    booleans and strings (whatever their characters), and whatever the
    default. *)
Theorem Storage_round_trip (key : string) (v d : jsval) (s s' : page) :
  simple_json v →
  Storage.set key v s = (Ok true, s') →
  Storage.get key d s' = (Ok v, s').
Proof.
  intros Hv Hset. destruct (Storage_set_true _ _ _ _ Hset) as (Ha & Hi & _ & _).
  destruct v as [| | [|] | | str | |]; try done; unfold stored_text in Hi; simpl in Hi.
  - eapply Storage_get_parsed; [done | exact Hi | reflexivity].
  - eapply Storage_get_parsed; [done | exact Hi | reflexivity].
  - eapply Storage_get_parsed; [done | exact Hi | reflexivity].
  - eapply Storage_get_parsed; [done | exact Hi |]. apply JSON_round_trip.
Qed.

Lemma Storage_round_trip_witness :
  let s' := exec (Storage.set "k" (JStr (units "a\b")) ) started in
  simple_json (JStr (units "a\b"))
  ∧ Storage.set "k" (JStr (units "a\b")) started = (Ok true, s')
  ∧ Storage.get "k" JNull s' = (Ok (JStr (units "a\b")), s').
Proof.
  cbv zeta.
  assert (H1 : simple_json (JStr (units "a\b"))) by exact I.
  assert (H2 : Storage.set "k" (JStr (units "a\b")) started
               = (Ok true, exec (Storage.set "k" (JStr (units "a\b"))) started))
    by (vm_compute; reflexivity).
  split; [exact H1 | split; [exact H2 |]].
  exact (Storage_round_trip "k" _ JNull _ _ H1 H2).
Defined.

(** X4: [Storage.set(key, undefined)] succeeds and stores the word
    [undefined], which is not JSON: [Storage.get] then logs a read error and
    returns the default. *)
Theorem Storage_undefined_reads_as_default (key : string) (d : jsval) (s s' : page) :
  Log_ready s = true →
  Storage.set key JUndefined s = (Ok true, s') →
  items (localStorage s') !! key = Some (units "undefined")
  ∧ Storage.get key d s'
    = (Ok d, with_console (λ l, l ++ [read_error SyntaxError]) s').
Proof.
  intros Hl Hset. destruct (Storage_set_true _ _ _ _ Hset) as (Ha & Hi & Hl' & _).
  split; [exact Hi |].
  rewrite Storage_get_run by congruence. unfold jstring in *. rewrite Ha, Hi.
  reflexivity.
Qed.

Lemma Storage_undefined_reads_as_default_witness :
  let s' := exec (Storage.set "k" JUndefined) started in
  Log_ready started = true
  ∧ Storage.set "k" JUndefined started = (Ok true, s')
  ∧ (Storage.get "k" (JBool true) s').1 = Ok (JBool true).
Proof.
  cbv zeta.
  assert (H1 : Log_ready started = true) by (vm_compute; reflexivity).
  assert (H2 : Storage.set "k" JUndefined started
               = (Ok true, exec (Storage.set "k" JUndefined) started))
    by (vm_compute; reflexivity).
  split; [exact H1 | split; [exact H2 |]].
  destruct (Storage_undefined_reads_as_default "k" (JBool true) _ _ H1 H2) as [_ E].
  exact (f_equal fst E).
Defined.

(** *** Startup *)

Lemma Storage_get_result key d s v s' :
  Storage.get key d s = (Ok v, s') →
  v = d ∨ (∃ text, items (localStorage s) !! key = Some text ∧ JSON_parse text = Some v).
Proof.
  unfold Storage.get, try_catch, localStorage_getItem, mbind, M_bind, gets,
    mret, M_ret, throw, Log.red. cbv beta iota.
  destruct (available (localStorage s)); cbv beta iota.
  - destruct (items (localStorage s) !! key) as [[| c text] |] eqn:E; cbv beta iota.
    + intros [= <- <-]. by left.
    + destruct (JSON_parse (c :: text)) eqn:Ep; cbv beta iota.
      * intros [= <- <-]. right. eauto.
      * rewrite shortcut_run by (vm_compute; set_solver).
        destruct (Log_ready s); [intros [= <- <-]; by left | discriminate].
    + intros [= <- <-]. by left.
  - rewrite shortcut_run by (vm_compute; set_solver).
    destruct (Log_ready s); [intros [= <- <-]; by left | discriminate].
Qed.

(** X5: when the [STATE] initializer completes, [STATE.mainColor] is
    truthy, and it is either the default [#111] or the value parsed from the
    stored text (a stored [null], [false], [0] or empty string gives the
    default). *)
Theorem STATE_init_color_is_truthy (s s' : page) :
  STATE.init s = (Ok tt, s') →
  truthy (STATE_mainColor s') = true
  ∧ (STATE_mainColor s' = JStr CONFIG.defaults.mainColor
     ∨ ∃ text, items (localStorage s) !! CONFIG.storage.mainColor = Some text
               ∧ JSON_parse text = Some (STATE_mainColor s')).
Proof.
  unfold STATE.init, mbind, M_bind, modify.
  destruct (Storage.get CONFIG.storage.mainColor JNull s) as [[v | e] s1] eqn:E;
    [| discriminate].
  intros [= <-]. cbn [STATE_mainColor with_STATE_mainColor].
  destruct (truthy v) eqn:Ev.
  - split; [done |]. destruct (Storage_get_result _ _ _ _ _ E) as [-> | H]; [done | by right].
  - split; [done | by left].
Qed.

Lemma STATE_init_color_is_truthy_witness :
  let s := page_at_load true {[ "main-color" := units "0" ]} in
  STATE.init s = (Ok tt, exec STATE.init s)
  ∧ truthy (STATE_mainColor (exec STATE.init s)) = true.
Proof.
  cbv zeta.
  assert (H : STATE.init (page_at_load true {[ "main-color" := units "0" ]})
              = (Ok tt, exec STATE.init (page_at_load true {[ "main-color" := units "0" ]})))
    by (vm_compute; reflexivity).
  split; [exact H | exact (proj1 (STATE_init_color_is_truthy _ _ H))].
Defined.

Lemma returns_updateMainColor v :
  returns logger_ready (λ _, True) (Effects.updateMainColor v).
Proof.
  unfold Effects.updateMainColor. destruct (negb (truthy v)); [by apply returns_ret |].
  unfold Log.white, DOM.setStyle, Storage.set.
  eapply returns_bind; [apply returns_modify; intros ? HP; exact HP | intros _ _].
  eapply returns_bind; [apply returns_shortcut; vm_compute; set_solver | intros _ _].
  eapply returns_bind; [apply returns_DOM_get_omitted | intros main Hmain].
  eapply returns_bind with (Q := λ _, True).
  - destruct main as [[| k p] |]; [done | | by apply returns_ret].
    repeat returns_step.
  - intros _ _. eapply returns_bind with (Q := λ _, True); [| intros; by apply returns_ret].
    apply returns_try_catch.
    + right. split; [| done]. unfold localStorage_setItem. preserves_auto.
    + intros e. unfold Log.red. repeat returns_step.
Qed.

Lemma returns_Modal_init : returns logger_ready (λ _, True) Modal.init.
Proof.
  unfold Modal.init, Modal.S.element, Modal.S.close, DOM.on.
  eapply returns_bind; [apply returns_DOM_get_omitted | intros el Hel].
  eapply returns_bind with (Q := λ _, True).
  { destruct el as [[| k p] |]; [done | |]; repeat returns_step. }
  intros _ _.
  eapply returns_bind; [apply returns_DOM_get_omitted | intros btn Hbtn].
  eapply returns_bind with (Q := λ _, True).
  { destruct btn as [[| k p] |]; [done | |]; repeat returns_step. }
  intros _ _. repeat returns_step.
Qed.

Lemma returns_Listeners_init : returns logger_ready (λ _, True) Listeners.init.
Proof.
  unfold Listeners.init, DOM.on.
  eapply returns_bind; [apply returns_DOM_get_omitted | intros el Hel].
  destruct el as [[| k p] |]; [done | |]; repeat returns_step.
Qed.

Lemma returns_App_init_steps :
  returns logger_ready (λ _, True)
    (Log.yellow [L_val (JStr (units "App started..."))];;
     Modal.init;; Listeners.init;;
     color ← gets STATE_mainColor; Effects.updateMainColor color).
Proof.
  unfold Log.yellow.
  eapply returns_bind; [apply returns_shortcut; vm_compute; set_solver | intros _ _].
  eapply returns_bind; [apply returns_Modal_init | intros _ _].
  eapply returns_bind; [apply returns_Listeners_init | intros _ _].
  eapply returns_bind; [apply returns_gets | intros c _].
  apply returns_updateMainColor.
Qed.


Lemma preserves_shortcut P mode args :
  (∀ s f, P s → P (with_console f s)) → preserves P (Log.shortcut mode args).
Proof.
  intros H. unfold Log.shortcut, Log.styled, console_write.
  apply preserves_bind; [apply preserves_gets | intros ready].
  destruct (_ && _); [| apply preserves_throw].
  destruct (negb Log.active); [apply preserves_ret |].
  destruct (_ !! mode) as [[? []] |]; try apply preserves_ret.
  apply preserves_modify. intros ? HP. by apply H.
Qed.





(** *** The colour *)

Lemma level_table :
  Forall (λ i, (0 <=? mant (level_source i)) && (mant (level_source i) <? 2 ^ 53)
               && (Pure.intensity (level_source i) =? i) = true)
         (seqZ 0 255).
Proof. apply (bool_decide_unpack _). vm_compute. exact I. Qed.

Lemma gray_of_injective_table :
  Forall (λ i, Forall (λ j, gray_of i = gray_of j → i = j) (seqZ 0 255)) (seqZ 0 255).
Proof. apply (bool_decide_unpack _). vm_compute. exact I. Qed.

(** X8: [Pure.getRandomGray] returns one of 255 colours, the grays of
    levels 0 to 254; every one of them is returned for some value of
    [Math.random()], and different levels give different strings. *)
Theorem getRandomGray_takes_255_values :
  (∀ r, in_unit_interval r →
        ∃ i, 0 <= i <= 254 ∧ Pure.getRandomGray r = gray_of i)
  ∧ (∀ i, 0 <= i <= 254 →
          ∃ r, in_unit_interval r ∧ Pure.getRandomGray r = gray_of i)
  ∧ (∀ i j, 0 <= i <= 254 → 0 <= j <= 254 → gray_of i = gray_of j → i = j).
Proof.
  split; [| split].
  - intros r Hr. exists (Pure.intensity r). split; [by apply intensity_range | done].
  - intros i Hi. exists (level_source i).
    assert (Hin : i ∈ seqZ 0 255) by (apply elem_of_seqZ; lia).
    pose proof (proj1 (Forall_forall _ _) level_table i Hin) as H.
    apply andb_true_iff in H as [H H3]. apply andb_true_iff in H as [H1 H2].
    apply Z.leb_le in H1. apply Z.ltb_lt in H2. apply Z.eqb_eq in H3.
    split; [split; [lia | cbn; lia] |].
    unfold Pure.getRandomGray. by rewrite H3.
  - intros i j Hi Hj.
    assert (Hin : i ∈ seqZ 0 255) by (apply elem_of_seqZ; lia).
    assert (Hjn : j ∈ seqZ 0 255) by (apply elem_of_seqZ; lia).
    pose proof (proj1 (Forall_forall _ _) gray_of_injective_table i Hin) as H.
    exact (proj1 (Forall_forall _ _) H j Hjn).
Qed.

Lemma getRandomGray_takes_255_values_witness :
  0 <= 200 <= 254
  ∧ ∃ r, in_unit_interval r ∧ Pure.getRandomGray r = gray_of 200.
Proof.
  assert (H : 0 <= 200 <= 254) by lia.
  split; [exact H |].
  exact (proj1 (proj2 getRandomGray_takes_255_values) 200 H).
Defined.

Lemma updateMainColor_truthy_STATE c s :
  truthy c = true → STATE_mainColor (exec (Effects.updateMainColor c) s) = c.
Proof.
  intros Ht. unfold Effects.updateMainColor. rewrite Ht. cbn [negb].
  rewrite exec_bind. unfold modify at 1.
  assert (H : preserves (λ s, STATE_mainColor s = c)
                (Log.white [L_val c];;
                 main ← DOM.get "main" DOM.omitted;
                 DOM.setStyle main "backgroundColor" c;;
                 _ ← Storage.set CONFIG.storage.mainColor c; mret tt)).
  { unfold Log.white, DOM.get, DOM.setStyle, Storage.set, localStorage_setItem, Log.red.
    repeat first [ apply preserves_shortcut; intros ? ? HP; exact HP | preserves_step ]. }
  by apply H.
Qed.





(** X10: [Logic.changeColor] returns normally, sets [STATE.mainColor] to a
    gray [#xyxyxy] other than white, and neither touches the modal nor
    calls a continuation. *)
Theorem changeColor_sets_a_gray (r : double) (s : page) :
  in_unit_interval r → Log_ready s = true →
  ∃ s' g, Logic.changeColor r s = (Ok tt, s')
          ∧ STATE_mainColor s' = JStr g
          ∧ gray_shape g = true ∧ g ≠ units "#ffffff"
          ∧ ui s' = ui s ∧ called s' = called s.
Proof.
  intros Hr Hl. unfold Logic.changeColor.
  pose proof (gray_of_range _ (intensity_range r Hr)) as [Hg Hw].
  change (gray_of (Pure.intensity r)) with (Pure.getRandomGray r) in Hg, Hw.
  set (g := Pure.getRandomGray r) in *.
  assert (Ht : truthy (JStr g) = true).
  { destruct g; [discriminate Hg | done]. }
  destruct (returns_updateMainColor (JStr g) s Hl) as ([] & s' & E & _ & _).
  exists s', g. split; [exact E |].
  pose proof (updateMainColor_truthy_STATE (JStr g) s Ht) as Hst.
  pose proof (ui_same_updateMainColor (JStr g) s) as Hui.
  assert (Hc : preserves (λ x, called x = called s) (Effects.updateMainColor (JStr g))).
  { unfold Effects.updateMainColor, Log.white, DOM.get, DOM.setStyle, Storage.set,
      localStorage_setItem, Log.red.
    repeat first [ apply preserves_shortcut; intros ? ? HP; exact HP | preserves_step ]. }
  specialize (Hc s eq_refl).
  unfold exec in Hst, Hui, Hc. rewrite E in Hst, Hui, Hc. by cbn [snd] in *.
Qed.

Lemma changeColor_sets_a_gray_witness :
  in_unit_interval (Double 4503599627370496 (-53)) ∧ Log_ready started = true
  ∧ ∃ s' g, Logic.changeColor (Double 4503599627370496 (-53)) started = (Ok tt, s')
            ∧ STATE_mainColor s' = JStr g.
Proof.
  assert (H1 : in_unit_interval (Double 4503599627370496 (-53))).
  { unfold in_unit_interval; cbn; lia. }
  assert (H2 : Log_ready started = true) by (vm_compute; reflexivity).
  split; [exact H1 | split; [exact H2 |]].
  destruct (changeColor_sets_a_gray _ _ H1 H2) as (s' & g & E & Hs & _).
  exists s', g. split; [exact E | exact Hs].
Defined.

(** *** The modal never throws; what [open] leaves *)

Lemma returns_Modal_close : returns logger_ready (λ _, True) Modal.close.
Proof.
  unfold Modal.close, Modal.S.element, DOM.removeClass, DOM.unlockScroll, Log.gray.
  eapply returns_bind; [apply returns_DOM_get_omitted | intros el Hel].
  destruct el as [[| k p] |]; [done | | by apply returns_ret].
  repeat returns_step.
Qed.

Lemma returns_Modal_open c : returns logger_ready (λ _, True) (Modal.open c).
Proof.
  unfold Modal.open, Modal.S.element, Modal.S.content, DOM.clear, DOM.setHTML,
    DOM.append, DOM.addClass, DOM.lockScroll, Log.red, Log.gray.
  eapply returns_bind; [apply returns_DOM_get_omitted | intros el Hel].
  destruct el as [[| k p] |]; [done | | repeat returns_step].
  eapply returns_bind; [apply returns_DOM_get_omitted | intros slot Hslot].
  eapply returns_bind with (Q := λ _, True).
  { destruct slot; repeat returns_step. }
  intros _ _. eapply returns_bind with (Q := λ _, True).
  { destruct c, slot; repeat returns_step. }
  intros _ _. repeat returns_step.
Qed.







(** *** The listeners of the modal *)

(** X13: the [keydown] listener does what [Modal.close] does when the key
    is [Escape] and the modal is shown; for any other key, or when the modal
    is not shown (or not there), it changes nothing. *)
Theorem escape_closes_only_an_open_modal (e : event) (s : page) :
  (key e = units "Escape" ∧ shown s →
   run_handler h_escape e s = Modal.close s ∧ ui (exec Modal.close s) = closed (ui s))
  ∧ (key e ≠ units "Escape" ∨ ¬ shown s → run_handler h_escape e s = (Ok tt, s)).
Proof.
  cbn [run_handler]. split.
  - intros [Hk (el & Hel & Hin)]. rewrite bool_decide_eq_true_2 by done.
    unfold mbind at 1, M_bind at 1. rewrite isOpen_run, Hel.
    rewrite bool_decide_eq_true_2 by done. cbn [truthy]. split; [done | apply ui_close].
  - intros [Hk | Hn].
    + by rewrite bool_decide_eq_false_2.
    + destruct (bool_decide (key e = units "Escape")); [| done].
      unfold mbind at 1, M_bind at 1. rewrite isOpen_run.
      destruct (overlay s) as [el |] eqn:Hel; [| done].
      rewrite bool_decide_eq_false_2; [done |]. intros Hin. apply Hn. by exists el.
Qed.

Lemma escape_closes_only_an_open_modal_witness :
  let s := exec (Modal.open c_other) started in
  let e := Event the_document (units "Escape") in
  key e = units "Escape" ∧ shown s
  ∧ ui (exec (run_handler h_escape e) s) = closed (ui s).
Proof.
  cbv zeta.
  set (s := exec (Modal.open c_other) started).
  set (e := Event the_document (units "Escape")).
  assert (H1 : key e = units "Escape") by reflexivity.
  assert (H2 : shown s).
  { exists (set_listeners (λ _, [("click", h_backdrop)])
              (tagged "div" ["modal"; "modal--active"] [])).
    split; [vm_compute; reflexivity |]. apply (bool_decide_unpack _). vm_compute. exact I. }
  split; [exact H1 | split; [exact H2 |]].
  destruct (proj1 (escape_closes_only_an_open_modal e s) (conj H1 H2)) as [E Hui].
  unfold exec at 1. rewrite E. exact Hui.
Defined.

Lemma called_close s : called (exec Modal.close s) = called s.
Proof.
  rewrite close_exec. destruct (overlay s); [| done].
  unfold logged_if_ready. cbn. by destruct (Log_ready s).
Qed.

(** X14: the listener of the confirm button closes the modal first and
    then calls the continuation, once.  If the continuation is not a
    function the TypeError comes after the modal was closed. *)
Theorem confirm_click_closes_then_calls (onConfirm : callback) (e : event) (s : page) :
  Log_ready s = true →
  let s' := exec (run_handler (h_confirm onConfirm) e) s in
  ui s' = closed (ui s)
  ∧ match onConfirm with
    | Callback _ =>
        run_handler (h_confirm onConfirm) e s = (Ok tt, s')
        ∧ called s' = called s ++ [onConfirm]
    | not_callable =>
        run_handler (h_confirm onConfirm) e s
        = (Throw (TypeError "onConfirm is not a function"), s')
        ∧ called s' = called s
    end.
Proof.
  intros Hl. cbv zeta. cbn [run_handler].
  destruct (returns_Modal_close s Hl) as ([] & s1 & E & _ & _).
  pose proof (ui_close s) as Hui. pose proof (called_close s) as Hca.
  unfold exec in Hui, Hca |- *. unfold mbind, M_bind. rewrite E in Hui, Hca |- *.
  cbn [snd] in Hui, Hca.
  destruct onConfirm as [| l]; cbn [invoke]; unfold throw, modify; cbn [snd].
  - done.
  - split; [exact Hui | split; [done |]]. cbn. by rewrite Hca.
Qed.

Lemma confirm_click_closes_then_calls_witness :
  let e := Event (at_ ".modal__content" [0; 3]%nat) [] in
  Log_ready started = true
  ∧ ui (exec (run_handler (h_confirm (Callback "changeColor")) e) started)
    = closed (ui started).
Proof.
  cbv zeta.
  assert (H : Log_ready started = true) by (vm_compute; reflexivity).
  split; [exact H |].
  exact (proj1 (confirm_click_closes_then_calls (Callback "changeColor") _ started H)).
Defined.

(** *** Paths into content *)

Lemma childNodes_set_childNodes f e : childNodes (set_childNodes f e) = f (childNodes e).
Proof. by destruct e. Qed.

Lemma lookup_at_alter_at (p : list nat) (f : element → element) :
  ∀ e, lookup_at p (alter_at p f e) = f <$> lookup_at p e.
Proof.
  induction p as [| i p IH]; intros e; [done |].
  cbn [lookup_at alter_at]. rewrite childNodes_set_childNodes.
  rewrite list_lookup_alter_eq.
  destruct (childNodes e !! i) as [[d | c] |]; cbn; [done | apply IH | done].
Qed.

Lemma lookup_at_cons_in i p e :
  lookup_at (i :: p) e = lookup_in (i :: p) (childNodes e).
Proof. done. Qed.

Lemma first_in_found {A} (f : node → option A) (l : list node) :
  ∀ i k a, first_in f l i = Some (k, a) →
           ∃ j n, k = (i + j)%nat ∧ l !! j = Some n ∧ f n = Some a.
Proof.
  induction l as [| n l IH]; intros i k a H; cbn in H; [done |].
  destruct (f n) as [a' |] eqn:E.
  - injection H as <- <-. exists 0%nat, n. split; [lia | done].
  - destruct (IH _ _ _ H) as (j & n' & -> & Hj & Hf).
    exists (S j), n'. split; [lia | done].
Qed.

Lemma query_node_sound (selector : string) :
  ∀ n p, query_node selector n = Some p →
         ∃ e b, n = Elem e ∧ lookup_at p e = Some b ∧ selects selector b = true.
Proof.
  fix IH 1. intros [d | [t c st ls ch]] p; cbn [query_node]; [done |].
  destruct (selects selector (Element t c st ls ch)) eqn:Es.
  - intros [= <-]. eauto.
  - assert (Hl : ∀ i k p', first_in (query_node selector) ch i = Some (k, p') →
                  ∃ j b, k = (i + j)%nat
                         ∧ match ch !! j with
                           | Some (Elem c) => lookup_at p' c
                           | _ => None
                           end = Some b
                         ∧ selects selector b = true).
    { clear Es. induction ch as [| n ch IHch]; intros i k p' H; cbn in H; [done |].
      destruct (query_node selector n) as [q |] eqn:E.
      - injection H as <- <-. apply IH in E as (e & b & -> & Hb & Hs).
        exists 0%nat, b. split; [lia | done].
      - destruct (IHch _ _ _ H) as (j & b & -> & Hb & Hs).
        exists (S j), b. split; [lia | done]. }
    intros H. apply fmap_Some in H as ([k p'] & H & ->).
    destruct (Hl _ _ _ H) as (j & b & -> & Hb & Hs).
    exists (Element t c st ls ch), b. split; [done |]. split; [| done].
    cbn [lookup_at childNodes]. exact Hb.
Qed.

Lemma querySelector_sound (selector : string) (l : list node) (q : list nat) :
  querySelector selector l = Some q →
  ∃ b, lookup_in q l = Some b ∧ selects selector b = true.
Proof.
  unfold querySelector. intros H. apply fmap_Some in H as ([k p'] & H & ->).
  destruct (first_in_found _ _ _ _ _ H) as (j & n & -> & Hj & Hq).
  apply query_node_sound in Hq as (e & b & -> & Hb & Hs).
  exists b. split; [| done]. cbn [lookup_in Nat.add]. by rewrite Hj.
Qed.

(** *** [Modal.alert] and [Modal.confirm] *)

Lemma fill_run {A} (title message : jstring) (T : list node) (k : list node → M A) s :
  (content ← assign_textContent (querySelector ".modal__title" T) title T;
   content ← assign_textContent (querySelector ".modal__text" content) message content;
   k content) s
  = match filled title message T with
    | Some T' => k T' s
    | None => (Throw no_slot, s)
    end.
Proof.
  unfold filled, assign_textContent, mbind at 1 2, M_bind at 1 2.
  destruct (querySelector ".modal__title" T) as [p |]; cbn; [| done].
  by destruct (querySelector ".modal__text" _) as [q |].
Qed.

Lemma getTemplate_found id T s :
  templates s !! id = Some T → DOM.getTemplate id s = (Ok (Some T), s).
Proof.
  intros H. unfold DOM.getTemplate, DOM.getById, mbind, M_bind, gets. by rewrite H.
Qed.

(** X15: when the template lacks the title or the text element (or the
    text element sits inside the title, which is overwritten first),
    [Modal.alert] and [Modal.confirm] throw a TypeError and leave the page
    as it was: the modal is not opened. *)
Theorem alert_and_confirm_need_title_and_text
    (title message : jstring) (T : list node) (s : page) :
  filled title message T = None →
  (templates s !! "modal-alert" = Some T →
   Modal.alert title message s = (Throw no_slot, s))
  ∧ (templates s !! "modal-confirm" = Some T →
     ∀ onConfirm, Modal.confirm title message onConfirm s = (Throw no_slot, s)).
Proof.
  intros Hf. split.
  - intros HT. unfold Modal.alert. unfold mbind at 1, M_bind at 1.
    rewrite (getTemplate_found _ _ _ HT). by rewrite fill_run, Hf.
  - intros HT k. unfold Modal.confirm. unfold mbind at 1, M_bind at 1.
    rewrite (getTemplate_found _ _ _ HT). by rewrite fill_run, Hf.
Qed.

Lemma alert_and_confirm_need_title_and_text_witness :
  let s := Page engine (markup true) {[ "modal-alert" := bare_template ]} [] []
             (Storage_area ∅ true 5000) [] true JUndefined [] in
  filled (units "Hi") (units "there") bare_template = None
  ∧ Modal.alert (units "Hi") (units "there") s = (Throw no_slot, s).
Proof.
  cbv zeta.
  assert (H : filled (units "Hi") (units "there") bare_template = None) by reflexivity.
  split; [exact H |].
  apply (proj1 (alert_and_confirm_need_title_and_text _ _ _ _ H)). reflexivity.
Defined.

Lemma open_run c s :
  Log_ready s = true → Modal.open c s = (Ok tt, exec (Modal.open c) s).
Proof.
  intros Hl. destruct (returns_Modal_open c s Hl) as ([] & s' & E & _ & _).
  unfold exec. by rewrite E.
Qed.

Lemma document_logged_if_ready mode args s :
  document (logged_if_ready mode args s) = document s.
Proof. unfold logged_if_ready. by destruct (Log_ready s). Qed.

Lemma slot_after_open nodes s el slot :
  document s !! ".modal" = Some el →
  document s !! ".modal__content" = Some slot →
  document (exec (Modal.open (c_fragment nodes)) s) !! ".modal__content"
  = Some (set_childNodes (λ _, nodes) slot).
Proof.
  intros Hel Hslot. rewrite open_exec. unfold overlay. rewrite Hel. cbv zeta.
  rewrite document_logged_if_ready. cbn [document with_body_overflow with_document].
  rewrite lookup_alter_ne by done. by rewrite lookup_alter_eq, Hslot.
Qed.

Lemma get_in_slot selector s slot :
  document s !! ".modal__content" = Some slot →
  (slot ← Modal.S.content; DOM.get selector (DOM.given slot)) s
  = (Ok (at_ ".modal__content" <$> querySelector selector (childNodes slot)), s).
Proof.
  intros Hs. unfold Modal.S.content, DOM.get, mbind, M_bind, gets, mret, M_ret.
  rewrite Hs. cbn. rewrite Hs. cbn.
  by destruct (querySelector selector (childNodes slot)).
Qed.

Lemma alert_run title message T T' s el slot :
  Log_ready s = true →
  document s !! ".modal" = Some el →
  document s !! ".modal__content" = Some slot →
  templates s !! "modal-alert" = Some T →
  filled title message T = Some T' →
  Modal.alert title message s
  = (Ok tt,
     let s1 := exec (Modal.open (c_fragment T')) s in
     match querySelector ".modal__button" T' with
     | Some q => with_document (alter (alter_at q (on_click h_close)) ".modal__content") s1
     | None => s1
     end).
Proof.
  intros Hl Hel Hslot HT Hf. unfold Modal.alert. unfold mbind at 1, M_bind at 1.
  rewrite (getTemplate_found _ _ _ HT). rewrite fill_run, Hf.
  unfold mbind at 1, M_bind at 1. rewrite open_run by done.
  pose proof (slot_after_open T' s el slot Hel Hslot) as Hs1.
  set (s1 := exec (Modal.open (c_fragment T')) s) in *.
  pose proof (get_in_slot ".modal__button" s1 _ Hs1) as Hg.
  rewrite childNodes_set_childNodes in Hg.
  unfold mbind, M_bind in Hg |- *.
  destruct (Modal.S.content s1) as [[sl | ?] s2]; [| done].
  rewrite Hg. cbv zeta.
  by destruct (querySelector ".modal__button" T') as [q |].
Qed.

Lemma closed_opened u : closed (opened u) = closed u.
Proof.
  destruct u as [o [c |]]; unfold closed, opened; cbn; [| done].
  do 2 f_equal. set_solver.
Qed.

Lemma listeners_set_listeners f e : listeners (set_listeners f e) = f (listeners e).
Proof. by destruct e. Qed.

Lemma ui_with_document_other f s :
  (∀ d, f d !! ".modal" = d !! ".modal") → ui (with_document f s) = ui s.
Proof. intros H. unfold ui, overlay. cbn. by rewrite H. Qed.

(** X16: with overlay, slot and a complete template, [Modal.alert] returns
    normally, shows the modal, puts the filled template in the slot and
    registers [Modal.close] on the first [.modal__button]; a click on that
    button then closes the modal. *)
Theorem alert_shows_and_its_button_closes
    (title message : jstring) (T T' : list node) (q : list nat)
    (s : page) (el slot : element) (e : event) :
  Log_ready s = true →
  document s !! ".modal" = Some el →
  document s !! ".modal__content" = Some slot →
  templates s !! "modal-alert" = Some T →
  filled title message T = Some T' →
  querySelector ".modal__button" T' = Some q →
  (∀ button, lookup_in q T' = Some button → listeners button = []) →
  ∃ s', Modal.alert title message s = (Ok tt, s')
        ∧ ui s' = opened (ui s)
        ∧ childNodes <$> document s' !! ".modal__content"
          = Some (alter_in q (on_click h_close) T')
        ∧ dispatch (at_ ".modal__content" q) "click" e s' = exec Modal.close s'
        ∧ ui (exec Modal.close s') = closed (ui s).
Proof.
  intros Hl Hel Hslot HT Hf Hq Hno.
  eexists. split; [by eapply alert_run |]. cbv zeta. rewrite Hq.
  pose proof (slot_after_open T' s el slot Hel Hslot) as Hs1.
  pose proof (ui_open (c_fragment T') s) as Hui.
  set (s1 := exec (Modal.open (c_fragment T')) s) in *.
  set (s' := with_document _ s1).
  assert (Hui' : ui s' = opened (ui s)).
  { unfold s'. rewrite ui_with_document_other; [done |].
    intros d. by rewrite lookup_alter_ne. }
  destruct (querySelector_sound _ _ _ Hq) as (button & Hb & _).
  destruct q as [| i p]; [done |].
  assert (Hd : document s' !! ".modal__content"
               = Some (alter_at (i :: p) (on_click h_close) (set_childNodes (λ _, T') slot))).
  { unfold s'. cbn [document with_document]. by rewrite lookup_alter_eq, Hs1. }
  split; [exact Hui' |]. split; [| split].
  - rewrite Hd. cbn [fmap option_fmap option_map alter_at].
    by rewrite !childNodes_set_childNodes.
  - unfold dispatch, listeners_of, deref. rewrite Hd. cbn [mbind option_bind].
    rewrite lookup_at_alter_at, lookup_at_cons_in, childNodes_set_childNodes, Hb.
    cbn [fmap option_fmap option_map]. unfold on_click.
    rewrite listeners_set_listeners, (Hno _ Hb). reflexivity.
  - by rewrite ui_close, Hui', closed_opened.
Qed.

Lemma alert_shows_and_its_button_closes_witness :
  let T' := default [] (filled (units "Success!") (units "Done.") alert_template) in
  let e := Event (at_ ".modal__content" [0; 2]%nat) [] in
  Log_ready started = true
  ∧ filled (units "Success!") (units "Done.") alert_template = Some T'
  ∧ querySelector ".modal__button" T' = Some [0; 2]%nat
  ∧ ∃ s', Modal.alert (units "Success!") (units "Done.") started = (Ok tt, s')
          ∧ ui s' = opened (ui started)
          ∧ ui (dispatch (at_ ".modal__content" [0; 2]%nat) "click" e s')
            = closed (ui started).
Proof.
  cbv zeta.
  set (T' := default [] (filled (units "Success!") (units "Done.") alert_template)).
  assert (H1 : Log_ready started = true) by (vm_compute; reflexivity).
  assert (H2 : document started !! ".modal"
               = Some (set_listeners (λ _, [("click", h_backdrop)])
                         (tagged "div" ["modal"] []))) by (vm_compute; reflexivity).
  assert (H3 : document started !! ".modal__content"
               = Some (tagged "div" ["modal__content"] [])) by (vm_compute; reflexivity).
  assert (H4 : templates started !! "modal-alert" = Some alert_template)
    by (vm_compute; reflexivity).
  assert (H5 : filled (units "Success!") (units "Done.") alert_template = Some T')
    by (vm_compute; reflexivity).
  assert (H6 : querySelector ".modal__button" T' = Some [0; 2]%nat)
    by (vm_compute; reflexivity).
  assert (H7 : ∀ button, lookup_in [0; 2]%nat T' = Some button → listeners button = []).
  { intros button H. vm_compute in H. injection H as <-. reflexivity. }
  split; [exact H1 | split; [exact H5 | split; [exact H6 |]]].
  destruct (alert_shows_and_its_button_closes _ _ _ _ _ _ _ _
              (Event (at_ ".modal__content" [0; 2]%nat) []) H1 H2 H3 H4 H5 H6 H7)
    as (s' & E & Hui & _ & Hd & Hc).
  exists s'. split; [exact E | split; [exact Hui |]].
  rewrite Hd. exact Hc.
Defined.

Lemma listeners_lookup_at_other (g : list (string * handler) → list (string * handler)) :
  ∀ p q e, p ≠ q →
    listeners <$> lookup_at q (alter_at p (set_listeners g) e) = listeners <$> lookup_at q e.
Proof.
  induction p as [| i p IH]; intros q e Hne.
  - destruct q as [| j q]; [done |]. cbn [alter_at lookup_at]. by destruct e.
  - destruct q as [| j q]; cbn [alter_at lookup_at].
    + cbn. by destruct e.
    + rewrite childNodes_set_childNodes.
      destruct (decide (i = j)) as [<- | Hij].
      * rewrite list_lookup_alter_eq.
        destruct (childNodes e !! i) as [[d | c] |]; cbn; [done | | done].
        apply IH. congruence.
      * by rewrite list_lookup_alter_ne.
Qed.

Lemma confirm_run title message onConfirm T T' s el slot :
  Log_ready s = true →
  document s !! ".modal" = Some el →
  document s !! ".modal__content" = Some slot →
  templates s !! "modal-confirm" = Some T →
  filled title message T = Some T' →
  Modal.confirm title message onConfirm s
  = (Ok tt,
     let s1 := exec (Modal.open (c_fragment T')) s in
     let s2 :=
       match querySelector ".modal__button--cancel" T' with
       | Some q => with_document (alter (alter_at q (on_click h_close)) ".modal__content") s1
       | None => s1
       end in
     match querySelector ".modal__button--confirm" T' with
     | Some q =>
         with_document
           (alter (alter_at q (on_click (h_confirm onConfirm))) ".modal__content") s2
     | None => s2
     end).
Proof.
  intros Hl Hel Hslot HT Hf. unfold Modal.confirm. unfold mbind at 1, M_bind at 1.
  rewrite (getTemplate_found _ _ _ HT). rewrite fill_run, Hf.
  unfold mbind at 1, M_bind at 1. rewrite open_run by done.
  pose proof (slot_after_open T' s el slot Hel Hslot) as Hs1.
  set (s1 := exec (Modal.open (c_fragment T')) s) in *.
  unfold Modal.S.content, DOM.get, mbind, M_bind, gets, mret, M_ret.
  rewrite Hs1. cbn [mbind option_bind lookup_at]. rewrite Hs1.
  cbn [mbind option_bind lookup_at]. rewrite childNodes_set_childNodes. cbv zeta.
  destruct (querySelector ".modal__button--cancel" T') as [q1 |];
    destruct (querySelector ".modal__button--confirm" T') as [q2 |]; reflexivity.
Qed.

Lemma confirm_wires
    (title message : jstring) (onConfirm : callback) (T T' : list node)
    (cancel ok : list nat) (s : page) (el slot : element) :
  Log_ready s = true →
  document s !! ".modal" = Some el →
  document s !! ".modal__content" = Some slot →
  templates s !! "modal-confirm" = Some T →
  filled title message T = Some T' →
  querySelector ".modal__button--cancel" T' = Some cancel →
  querySelector ".modal__button--confirm" T' = Some ok →
  cancel ≠ ok →
  (∀ q button, q = cancel ∨ q = ok → lookup_in q T' = Some button → listeners button = []) →
  ∃ s', Modal.confirm title message onConfirm s = (Ok tt, s')
        ∧ ui s' = opened (ui s)
        ∧ called s' = called s
        ∧ listeners_of (at_ ".modal__content" cancel) s' = [("click", h_close)]
        ∧ listeners_of (at_ ".modal__content" ok) s'
          = [("click", h_confirm onConfirm)].
Proof.
  intros Hl Hel Hslot HT Hf Hq1 Hq2 Hne Hno.
  eexists. split; [by eapply confirm_run |]. cbv zeta. rewrite Hq1, Hq2.
  pose proof (slot_after_open T' s el slot Hel Hslot) as Hs1.
  pose proof (ui_open (c_fragment T') s) as Hui.
  assert (Hca : called (exec (Modal.open (c_fragment T')) s) = called s).
  { rewrite open_exec. destruct (overlay s); cbv zeta; unfold logged_if_ready;
      cbn [Log_ready with_body_overflow with_document]; by destruct (Log_ready s) eqn:E. }
  set (s1 := exec (Modal.open (c_fragment T')) s) in *.
  set (slot' := set_childNodes (λ _, T') slot) in *.
  destruct (querySelector_sound _ _ _ Hq1) as (b1 & Hb1 & _).
  destruct (querySelector_sound _ _ _ Hq2) as (b2 & Hb2 & _).
  destruct cancel as [| i1 p1]; [done |]. destruct ok as [| i2 p2]; [done |].
  assert (H1 : lookup_at (i1 :: p1) slot' = Some b1).
  { rewrite lookup_at_cons_in. unfold slot'. by rewrite childNodes_set_childNodes. }
  assert (H2 : lookup_at (i2 :: p2) slot' = Some b2).
  { rewrite lookup_at_cons_in. unfold slot'. by rewrite childNodes_set_childNodes. }
  match goal with |- context [ui ?x = _] => set (s' := x) end.
  assert (Hd : document s' !! ".modal__content"
               = Some (alter_at (i2 :: p2) (on_click (h_confirm onConfirm))
                         (alter_at (i1 :: p1) (on_click h_close) slot'))).
  { unfold s'. cbn [document with_document]. by rewrite !lookup_alter_eq, Hs1. }
  split; [| split; [done | split]].
  - unfold s'. rewrite !ui_with_document_other; [done | |];
      intros d; by rewrite lookup_alter_ne.
  - unfold listeners_of, deref. rewrite Hd. cbn [mbind option_bind].
    pose proof (listeners_lookup_at_other (addEventListener "click" (h_confirm onConfirm))
                  (i2 :: p2) (i1 :: p1)
                  (alter_at (i1 :: p1) (on_click h_close) slot')) as HL.
    unfold on_click in *. rewrite lookup_at_alter_at, H1 in HL.
    specialize (HL ltac:(congruence)).
    destruct (lookup_at (i1 :: p1) (alter_at (i2 :: p2) _ _)) as [b |]; [| done].
    cbn [fmap option_fmap option_map] in HL. injection HL as HL.
    rewrite HL, listeners_set_listeners, (Hno _ _ (or_introl eq_refl) Hb1).
    reflexivity.
  - unfold listeners_of, deref. rewrite Hd. cbn [mbind option_bind].
    rewrite lookup_at_alter_at.
    pose proof (listeners_lookup_at_other (addEventListener "click" h_close)
                  (i1 :: p1) (i2 :: p2) slot' Hne) as HL.
    unfold on_click in *. rewrite H2 in HL.
    destruct (lookup_at (i2 :: p2) (alter_at (i1 :: p1) _ _)) as [b |]; [| done].
    cbn [fmap option_fmap option_map] in HL. injection HL as HL.
    cbn [fmap option_fmap option_map].
    rewrite listeners_set_listeners, HL, (Hno _ _ (or_intror eq_refl) Hb2).
    reflexivity.
Qed.

(** X17: with overlay, slot and a complete template with two distinct
    buttons, [Modal.confirm] returns normally, shows the modal and calls
    nothing; afterwards a click on the cancel button does what
    [Modal.close] does, a click on the confirm button closes and calls the
    continuation. *)
Theorem confirm_shows_and_its_buttons_work
    (title message : jstring) (onConfirm : callback) (T T' : list node)
    (cancel ok : list nat) (s : page) (el slot : element) (e : event) :
  Log_ready s = true →
  document s !! ".modal" = Some el →
  document s !! ".modal__content" = Some slot →
  templates s !! "modal-confirm" = Some T →
  filled title message T = Some T' →
  querySelector ".modal__button--cancel" T' = Some cancel →
  querySelector ".modal__button--confirm" T' = Some ok →
  cancel ≠ ok →
  (∀ q button, q = cancel ∨ q = ok → lookup_in q T' = Some button → listeners button = []) →
  ∃ s', Modal.confirm title message onConfirm s = (Ok tt, s')
        ∧ ui s' = opened (ui s)
        ∧ called s' = called s
        ∧ dispatch (at_ ".modal__content" cancel) "click" e s' = exec Modal.close s'
        ∧ dispatch (at_ ".modal__content" ok) "click" e s'
          = exec (run_handler (h_confirm onConfirm) e) s'.
Proof.
  intros Hl Hel Hslot HT Hf Hq1 Hq2 Hne Hno.
  destruct (confirm_wires title message onConfirm T T' cancel ok s el slot
              Hl Hel Hslot HT Hf Hq1 Hq2 Hne Hno) as (s' & E & Hui & Hca & L1 & L2).
  exists s'. split; [exact E |]. split; [exact Hui |]. split; [exact Hca |].
  unfold dispatch. rewrite L1, L2. split; reflexivity.
Qed.

Lemma confirm_shows_and_its_buttons_work_witness :
  let T' := default [] (filled (units "Sure?") (units "Really?") confirm_template) in
  let e := Event (at_ ".modal__content" [0; 3]%nat) [] in
  Log_ready started = true
  ∧ filled (units "Sure?") (units "Really?") confirm_template = Some T'
  ∧ querySelector ".modal__button--cancel" T' = Some [0; 2]%nat
  ∧ querySelector ".modal__button--confirm" T' = Some [0; 3]%nat
  ∧ ∃ s', Modal.confirm (units "Sure?") (units "Really?") (Callback "go") started
          = (Ok tt, s')
          ∧ dispatch (at_ ".modal__content" [0; 3]%nat) "click" e s'
            = exec (run_handler (h_confirm (Callback "go")) e) s'.
Proof.
  cbv zeta.
  set (T' := default [] (filled (units "Sure?") (units "Really?") confirm_template)).
  assert (H1 : Log_ready started = true) by (vm_compute; reflexivity).
  assert (H2 : document started !! ".modal"
               = Some (set_listeners (λ _, [("click", h_backdrop)])
                         (tagged "div" ["modal"] []))) by (vm_compute; reflexivity).
  assert (H3 : document started !! ".modal__content"
               = Some (tagged "div" ["modal__content"] [])) by (vm_compute; reflexivity).
  assert (H4 : templates started !! "modal-confirm" = Some confirm_template)
    by (vm_compute; reflexivity).
  assert (H5 : filled (units "Sure?") (units "Really?") confirm_template = Some T')
    by (vm_compute; reflexivity).
  assert (H6 : querySelector ".modal__button--cancel" T' = Some [0; 2]%nat)
    by (vm_compute; reflexivity).
  assert (H7 : querySelector ".modal__button--confirm" T' = Some [0; 3]%nat)
    by (vm_compute; reflexivity).
  assert (H8 : [0; 2]%nat ≠ [0; 3]%nat) by discriminate.
  assert (H9 : ∀ q button, q = [0; 2]%nat ∨ q = [0; 3]%nat →
                 lookup_in q T' = Some button → listeners button = []).
  { intros q button [-> | ->] H; vm_compute in H; injection H as <-; reflexivity. }
  split; [exact H1 | split; [exact H5 | split; [exact H6 | split; [exact H7 |]]]].
  destruct (confirm_shows_and_its_buttons_work _ _ (Callback "go") _ _ _ _ _ _ _
              (Event (at_ ".modal__content" [0; 3]%nat) [])
              H1 H2 H3 H4 H5 H6 H7 H8 H9)
    as (s' & E & _ & _ & _ & Hd).
  exists s'. split; [exact E | exact Hd].
Defined.

(** *** What the modal leaves alone *)

Ltac frame_auto :=
  repeat first [ apply preserves_shortcut; intros ? ? HP; exact HP | preserves_step ].

Lemma kept_open s c : preserves (kept s) (Modal.open c).
Proof.
  unfold Modal.open, Modal.S.element, Modal.S.content, DOM.get, DOM.clear, DOM.setHTML,
    DOM.append, DOM.addClass, DOM.lockScroll, Log.red, Log.gray. frame_auto.
Qed.

Lemma kept_close s : preserves (kept s) Modal.close.
Proof.
  unfold Modal.close, Modal.S.element, DOM.get, DOM.removeClass, DOM.unlockScroll,
    Log.gray. frame_auto.
Qed.

Lemma kept_isOpen s : preserves (kept s) Modal.isOpen.
Proof. intros x Hx. unfold exec. by rewrite isOpen_run. Qed.

Lemma kept_assign s t v f : preserves (kept s) (assign_textContent t v f).
Proof. unfold assign_textContent. frame_auto. Qed.

Lemma kept_getTemplate s id : preserves (kept s) (DOM.getTemplate id).
Proof. unfold DOM.getTemplate, DOM.getById, console_write. frame_auto. Qed.

Lemma kept_get s sel ctx : preserves (kept s) (DOM.get sel ctx).
Proof. unfold DOM.get. frame_auto. Qed.

Lemma kept_on s el ev h : preserves (kept s) (DOM.on el ev h).
Proof. unfold DOM.on. frame_auto. Qed.

Lemma kept_alert s t m : preserves (kept s) (Modal.alert t m).
Proof.
  unfold Modal.alert, Modal.S.content.
  repeat first [ apply kept_open | apply kept_assign | apply kept_getTemplate
               | apply kept_get | apply kept_on | preserves_step ].
Qed.

Lemma kept_confirm s t m k : preserves (kept s) (Modal.confirm t m k).
Proof.
  unfold Modal.confirm, Modal.S.content.
  repeat first [ apply kept_open | apply kept_assign | apply kept_getTemplate
               | apply kept_get | apply kept_on | preserves_step ].
Qed.

Lemma kept_run_handler s h e : preserves (kept s) (run_handler h e).
Proof.
  destruct h; cbn [run_handler]; unfold Handlers.changeColorClick, invoke, Log.blue,
    Modal.S.element.
  all: repeat first [ apply kept_close | apply kept_isOpen | apply kept_confirm
                    | apply kept_get
                    | apply preserves_shortcut; intros ? ? HP; exact HP
                    | preserves_step ].
Qed.

Lemma kept_run_listeners s hs e : ∀ x, kept s x → kept s (run_listeners hs e x).
Proof.
  induction hs as [| h hs IH]; intros x Hx; [done |].
  cbn [run_listeners]. apply IH. by apply kept_run_handler.
Qed.

Lemma kept_run_op s o : ∀ x, kept s x → kept s (run_op o x).
Proof.
  intros x Hx. destruct o; cbn [run_op].
  - by apply kept_open.
  - by apply kept_close.
  - by apply kept_isOpen.
  - by apply kept_alert.
  - by apply kept_confirm.
  - by apply kept_run_listeners.
Qed.

(** X18: no sequence of modal calls and events changes [STATE.mainColor],
    the store, the templates or the logger (what a continuation given to
    [Modal.confirm] does when called is its own business). *)
Theorem modal_never_touches_colour_or_store (ops : list op) (s : page) :
  let s' := run ops s in
  STATE_mainColor s' = STATE_mainColor s ∧ localStorage s' = localStorage s
  ∧ templates s' = templates s ∧ Log_ready s' = Log_ready s.
Proof.
  cbv zeta.
  assert (H : kept s (run ops s)).
  { induction ops as [| o ops IH] using rev_ind; [by repeat split |].
    rewrite run_snoc. by apply kept_run_op. }
  destruct H as (? & ? & ? & ? & ?). done.
Qed.

(** *** The listeners installed at startup *)

Lemma DOM_get_run selector s :
  DOM.get selector DOM.omitted s
  = (Ok (if document s !! selector is Some _ then Some (at_ selector []) else None), s).
Proof. reflexivity. Qed.

Lemma preserves_get_bind P {B} selector (f : option ref → M B) :
  preserves P (f None) → preserves P (f (Some (at_ selector []))) →
  preserves P (DOM.get selector DOM.omitted ≫= f).
Proof.
  intros H1 H2 s HP. rewrite exec_bind, DOM_get_run.
  destruct (document s !! selector); [by apply H2 | by apply H1].
Qed.

Lemma listeners_at_alter_ne k k' f s :
  k ≠ k' → listeners_at k (with_document (alter f k') s) = listeners_at k s.
Proof. intros H. unfold listeners_at. cbn. by rewrite lookup_alter_ne. Qed.

Lemma listeners_at_alter_keeps k k' f s :
  (∀ e, listeners (f e) = listeners e) →
  listeners_at k (with_document (alter f k') s) = listeners_at k s.
Proof.
  intros Hf. unfold listeners_at. cbn. destruct (decide (k = k')) as [<- | H].
  - rewrite lookup_alter_eq. destruct (document s !! k); cbn; [by rewrite Hf | done].
  - by rewrite lookup_alter_ne.
Qed.

Lemma wiring_alter k f s :
  k = ".modal__content" ∨ k = "main" ∨ (∀ e, listeners (f e) = listeners e) →
  wiring (with_document (alter f k) s) = wiring s.
Proof.
  intros [-> | [-> | Hf]]; unfold wiring; cbn [document_listeners with_document].
  - by rewrite !listeners_at_alter_ne.
  - by rewrite !listeners_at_alter_ne.
  - by rewrite !listeners_at_alter_keeps.
Qed.

Lemma preserves_get_given P {B} selector k p (f : option ref → M B) :
  preserves P (f None) → (∀ q, preserves P (f (Some (at_ k q)))) →
  preserves P (DOM.get selector (DOM.given (Some (at_ k p))) ≫= f).
Proof.
  intros H1 H2 s HP. rewrite exec_bind. cbn [DOM.get].
  unfold mbind at 1, M_bind at 1, gets, mret, M_ret.
  destruct (_ ≫= _) as [r |] eqn:E; [| by apply H1].
  destruct (document s !! k ≫= lookup_at p) as [el |]; [| done]. cbn in E.
  destruct (querySelector selector (childNodes el)) as [q |]; [| done].
  injection E as <-. by apply H2.
Qed.

Lemma preserves_DOM_get P selector ctx : preserves P (DOM.get selector ctx).
Proof. unfold DOM.get. preserves_auto. Qed.

Ltac wiring_side :=
  intros ? HP; rewrite wiring_alter; [exact HP |];
  first [ left; reflexivity | right; left; reflexivity
        | right; right; intros []; reflexivity ].

Ltac wiring_step :=
  first
    [ apply preserves_shortcut; intros ? ? HP; exact HP
    | apply preserves_get_bind
    | apply preserves_get_given
    | apply preserves_DOM_get
    | apply preserves_modify; first [ intros ? HP; exact HP | wiring_side ]
    | preserves_step ].

Section wiring.
Context (w : list (string * handler) * option (list (string * handler))
                   * option (list (string * handler)) * option (list (string * handler))).

Lemma wiring_open c : preserves (λ x, wiring x = w) (Modal.open c).
Proof.
  unfold Modal.open, Modal.S.element, Modal.S.content, DOM.clear, DOM.setHTML,
    DOM.append, DOM.addClass, DOM.lockScroll, Log.red, Log.gray, update.
  repeat wiring_step.
Qed.

Lemma wiring_close : preserves (λ x, wiring x = w) Modal.close.
Proof.
  unfold Modal.close, Modal.S.element, DOM.removeClass, DOM.unlockScroll, Log.gray,
    update.
  repeat wiring_step.
Qed.

Lemma wiring_isOpen : preserves (λ x, wiring x = w) Modal.isOpen.
Proof. intros x Hx. unfold exec. by rewrite isOpen_run. Qed.

Lemma wiring_on_slot q ev h :
  preserves (λ x, wiring x = w) (DOM.on (Some (at_ ".modal__content" q)) ev h).
Proof. unfold DOM.on, update. repeat wiring_step. Qed.

Lemma wiring_alert t m : preserves (λ x, wiring x = w) (Modal.alert t m).
Proof.
  unfold Modal.alert, Modal.S.content, DOM.getTemplate, DOM.getById, console_write,
    assign_textContent.
  repeat first [ apply wiring_open | apply wiring_on_slot
               | apply preserves_throw | wiring_step | intros ? ].
Qed.

Lemma wiring_confirm t m k : preserves (λ x, wiring x = w) (Modal.confirm t m k).
Proof.
  unfold Modal.confirm, Modal.S.content, DOM.getTemplate, DOM.getById, console_write,
    assign_textContent.
  repeat first [ apply wiring_open | apply wiring_on_slot
               | apply preserves_throw | wiring_step | intros ? ].
Qed.

Lemma wiring_run_handler h e : preserves (λ x, wiring x = w) (run_handler h e).
Proof.
  destruct h; cbn [run_handler]; unfold Handlers.changeColorClick, invoke, Log.blue,
    Modal.S.element.
  all: repeat first [ apply wiring_close | apply wiring_isOpen | apply wiring_confirm
                    | wiring_step ].
Qed.

Lemma wiring_run_listeners hs e : ∀ x, wiring x = w → wiring (run_listeners hs e x) = w.
Proof.
  induction hs as [| h hs IH]; intros x Hx; [done |].
  cbn [run_listeners]. apply IH. by apply wiring_run_handler.
Qed.

Lemma wiring_run ops : ∀ x, wiring x = w → wiring (run ops x) = w.
Proof.
  induction ops as [| o ops IH] using rev_ind; intros x Hx; [done |].
  rewrite run_snoc. specialize (IH x Hx). destruct o; cbn [run_op].
  - by apply wiring_open.
  - by apply wiring_close.
  - by apply wiring_isOpen.
  - by apply wiring_alert.
  - by apply wiring_confirm.
  - by apply wiring_run_listeners.
Qed.

End wiring.

Lemma wiring_updateMainColor w v : preserves (λ x, wiring x = w) (Effects.updateMainColor v).
Proof.
  unfold Effects.updateMainColor, Log.white, DOM.setStyle, Storage.set,
    localStorage_setItem, Log.red, update.
  repeat first [ wiring_step | by apply preserves_modify ].
Qed.

Lemma wiring_STATE_init w : preserves (λ x, wiring x = w) STATE.init.
Proof. unfold STATE.init, Storage.get, localStorage_getItem, Log.red. frame_auto. Qed.

Lemma startup_wiring (s0 s : page) :
  script s0 = (Ok tt, s) → pristine s0 → wiring s = wired.
Proof.
  intros Hrun H0. unfold pristine in H0.
  unfold script in Hrun. unfold mbind at 1, M_bind at 1 in Hrun.
  destruct (STATE.init s0) as [[[] | ?] s1] eqn:E0; [| done].
  assert (H1 : wiring s1 = ([], Some [], Some [], Some [])).
  { pose proof (wiring_STATE_init _ s0 H0) as Hp. unfold exec in Hp. by rewrite E0 in Hp. }
  assert (Hs : s = exec App.init s1) by (unfold exec; by rewrite Hrun).
  rewrite Hs. clear Hs Hrun E0 H0.
  unfold App.init, Log.init.
  rewrite exec_bind. unfold modify at 1.
  set (s2 := with_Log_ready true s1).
  assert (H2 : wiring s2 = ([], Some [], Some [], Some [])) by exact H1.
  assert (Hl2 : Log_ready s2 = true) by done.
  clearbody s2. clear H1.
  rewrite exec_bind. unfold Log.yellow. rewrite shortcut_run by (vm_compute; set_solver).
  rewrite Hl2.
  set (s3 := with_console _ s2).
  assert (H3 : wiring s3 = ([], Some [], Some [], Some [])) by exact H2.
  clearbody s3. clear H2 Hl2.
  unfold wiring, listeners_at in H3.
  destruct (document s3 !! ".modal") as [el |] eqn:Eel; [| done].
  destruct (document s3 !! ".modal__close") as [cl |] eqn:Ecl; [| done].
  destruct (document s3 !! ".main__button") as [bt |] eqn:Ebt; [| done].
  cbn in H3. injection H3 as Hdl Hel Hcl Hbt.
  assert (E4 : (Modal.init;; Listeners.init) s3
          = (Ok tt,
             with_document (alter (on_click h_changeColorClick) ".main__button")
               (with_document_listeners (addEventListener "keydown" h_escape)
                  (with_document (alter (on_click h_close) ".modal__close")
                     (with_document (alter (on_click h_backdrop) ".modal") s3))))).
  { unfold Modal.init, Listeners.init, Modal.S.element, Modal.S.close, DOM.get, DOM.on,
      update, mbind, M_bind, gets, mret, M_ret, modify.
    rewrite Eel. cbv beta iota zeta. cbn [document with_document with_document_listeners].
    rewrite lookup_alter_ne by done. rewrite Ecl. cbv beta iota zeta.
    cbn [document with_document with_document_listeners].
    rewrite !lookup_alter_ne by done. by rewrite Ebt. }
  set (s5 := with_document _ _) in E4.
  assert (H5 : wiring s5 = wired).
  { unfold s5, wiring, listeners_at, wired, on_click.
    cbn [document with_document with_document_listeners document_listeners].
    rewrite Hdl.
    rewrite !lookup_alter_eq, ?lookup_alter_ne by done.
    rewrite !lookup_alter_eq, ?lookup_alter_ne by done.
    rewrite ?lookup_alter_eq, ?lookup_alter_ne by done.
    rewrite Eel, Ecl, Ebt. cbn [fmap option_fmap option_map].
    rewrite !listeners_set_listeners, Hel, Hcl, Hbt. reflexivity. }
  clearbody s5.
  assert (Hx : exec (Modal.init;; Listeners.init;;
                     color ← gets STATE_mainColor; Effects.updateMainColor color) s3
               = exec (color ← gets STATE_mainColor; Effects.updateMainColor color) s5).
  { unfold exec. f_equal. unfold mbind, M_bind in E4 |- *.
    destruct (Modal.init s3) as [[[] | ?] s4]; [| done]. by rewrite E4. }
  rewrite Hx. rewrite exec_bind. unfold gets at 1.
  by apply wiring_updateMainColor.
Qed.

(** X19: after the script ran on a page whose four targets had no
    listeners, and whatever modal calls and events followed: a [keydown]
    on the document runs the Escape listener, a click on the overlay the
    backdrop listener, a click on the close button [Modal.close], a click
    on the main button [Handlers.changeColorClick]; no other event type
    has a listener on the document. *)
Theorem startup_wires_the_page (s0 s : page) (ops : list op) (e : event) :
  script s0 = (Ok tt, s) → pristine s0 →
  let x := run ops s in
  dispatch the_document "keydown" e x = exec (run_handler h_escape e) x
  ∧ dispatch (at_ ".modal" []) "click" e x = exec (run_handler h_backdrop e) x
  ∧ dispatch (at_ ".modal__close" []) "click" e x = exec Modal.close x
  ∧ dispatch (at_ ".main__button" []) "click" e x = exec Handlers.changeColorClick x
  ∧ ∀ type, type ≠ "keydown" → dispatch the_document type e x = x.
Proof.
  intros Hrun H0. cbv zeta.
  pose proof (wiring_run wired ops s (startup_wiring _ _ Hrun H0)) as Hw.
  set (x := run ops s) in *. clearbody x.
  unfold wiring, wired, listeners_at in Hw. injection Hw as Hdl Hel Hcl Hbt.
  unfold dispatch, listeners_of, deref. cbn [mbind option_bind lookup_at].
  rewrite Hdl.
  destruct (document x !! ".modal") as [el |]; [| done].
  destruct (document x !! ".modal__close") as [cl |]; [| done].
  destruct (document x !! ".main__button") as [bt |]; [| done].
  cbn in Hel, Hcl, Hbt. injection Hel as Hel. injection Hcl as Hcl. injection Hbt as Hbt.
  cbn [mbind option_bind]. rewrite Hel, Hcl, Hbt.
  repeat (split; [reflexivity |]).
  intros type Ht. cbn. rewrite decide_False by done. done.
Qed.

Lemma startup_wires_the_page_witness :
  let x := run [call_open c_other] started in
  let e := Event the_document (units "Escape") in
  script (page_at_load true ∅) = (Ok tt, started) ∧ pristine (page_at_load true ∅)
  ∧ dispatch the_document "keydown" e x = exec (run_handler h_escape e) x.
Proof.
  cbv zeta.
  assert (H1 : script (page_at_load true ∅) = (Ok tt, started)) by (vm_compute; reflexivity).
  assert (H2 : pristine (page_at_load true ∅)) by (vm_compute; reflexivity).
  split; [exact H1 | split; [exact H2 |]].
  exact (proj1 (startup_wires_the_page _ _ [call_open c_other]
                  (Event the_document (units "Escape")) H1 H2)).
Defined.




(** *** Class and visibility helpers *)

Lemma deref_update k p f s :
  deref (at_ k p) (exec (update (at_ k p) f) s) = f <$> deref (at_ k p) s.
Proof.
  unfold exec, update, modify, deref. cbn [snd document with_document].
  rewrite lookup_alter_eq. destruct (document s !! k) as [e |]; [| done].
  cbn. apply lookup_at_alter_at.
Qed.

Lemma update_run r f s : update r f s = (Ok tt, exec (update r f) s).
Proof. by destruct r. Qed.

Lemma classList_set_classList f e : classList (set_classList f e) = f (classList e).
Proof. by destruct e. Qed.

Lemma hasClass_run k p cls s :
  DOM.hasClass (Some (at_ k p)) cls s
  = (Ok (if deref (at_ k p) s is Some e then bool_decide (cls ∈ classList e) else false), s).
Proof. reflexivity. Qed.

(** X21: on an element, [DOM.hasClass] is true after [DOM.addClass], false
    after [DOM.removeClass]; [DOM.toggleClass] returns whether the class is
    present afterwards, the opposite of before; and none of the three
    changes the answer for another class. *)
Theorem class_helpers_agree (k : string) (p : list nat) (cls : string) (s : page) (e : element) :
  valid_token cls →
  deref (at_ k p) s = Some e →
  let r := Some (at_ k p) in
  let has c x := (DOM.hasClass r c x).1 in
  has cls (exec (DOM.addClass r cls) s) = Ok true
  ∧ has cls (exec (DOM.removeClass r cls) s) = Ok false
  ∧ (∃ now, (DOM.toggleClass r cls s).1 = Ok (Some now)
            ∧ now = negb (bool_decide (cls ∈ classList e))
            ∧ has cls (exec (DOM.toggleClass r cls) s) = Ok now)
  ∧ ∀ other, other ≠ cls →
      has other (exec (DOM.addClass r cls) s) = has other s
      ∧ has other (exec (DOM.removeClass r cls) s) = has other s
      ∧ has other (exec (DOM.toggleClass r cls) s) = has other s.
Proof.
  intros _ He. cbv zeta.
  assert (Ht : DOM.toggleClass (Some (at_ k p)) cls s
               = (Ok (Some (negb (bool_decide (cls ∈ classList e)))),
                  exec (update (at_ k p)
                          (set_classList (λ c, if bool_decide (cls ∈ classList e)
                                               then c ∖ {[cls]} else {[cls]} ∪ c))) s)).
  { unfold DOM.toggleClass. unfold mbind, M_bind, gets. rewrite He.
    by rewrite update_run. }
  assert (Hex : exec (DOM.toggleClass (Some (at_ k p)) cls) s
                = exec (update (at_ k p)
                          (set_classList (λ c, if bool_decide (cls ∈ classList e)
                                               then c ∖ {[cls]} else {[cls]} ∪ c))) s).
  { unfold exec at 1. by rewrite Ht. }
  rewrite Hex, Ht. cbn [fst].
  cbn [DOM.addClass DOM.removeClass]. rewrite !hasClass_run, !deref_update, He.
  cbn [fmap option_fmap option_map fst]. rewrite !classList_set_classList.
  split; [| split; [| split]].
  - f_equal. apply bool_decide_eq_true_2. set_solver.
  - f_equal. apply bool_decide_eq_false_2. set_solver.
  - eexists. split; [done |]. split; [done |]. f_equal.
    destruct (bool_decide (cls ∈ classList e)) eqn:E; cbn [negb].
    + apply bool_decide_eq_false_2. set_solver.
    + apply bool_decide_eq_true_2. set_solver.
  - intros other Hne. rewrite !hasClass_run, !deref_update, He.
    cbn [fmap option_fmap option_map fst]. rewrite !classList_set_classList.
    repeat split; f_equal; apply bool_decide_ext.
    + set_solver.
    + set_solver.
    + destruct (bool_decide (cls ∈ classList e)); set_solver.
Qed.

Lemma class_helpers_agree_witness :
  let s := page_at_load true ∅ in
  let r := Some (at_ ".modal" []) in
  valid_token "hidden"
  ∧ deref (at_ ".modal" []) s = Some (tagged "div" ["modal"] [])
  ∧ (DOM.hasClass r "hidden" (exec (DOM.addClass r "hidden") s)).1 = Ok true.
Proof.
  cbv zeta.
  assert (H1 : valid_token "hidden").
  { split; [discriminate |]. apply (bool_decide_unpack _). vm_compute. exact I. }
  assert (H2 : deref (at_ ".modal" []) (page_at_load true ∅)
               = Some (tagged "div" ["modal"] [])) by (vm_compute; reflexivity).
  split; [exact H1 | split; [exact H2 |]].
  exact (proj1 (class_helpers_agree _ _ _ _ _ H1 H2)).
Defined.



Lemma style_set_style f e : style (set_style f e) = f (style e).
Proof. by destruct e. Qed.

Lemma assign_display_run k p v w c s :
  cssValue (browser s) "display" (JStr v) = Some (c :: w) →
  DOM.assign_display (at_ k p) v s
  = (Ok tt, exec (update (at_ k p) (set_style (insert "display" (c :: w)))) s).
Proof.
  intros H. unfold DOM.assign_display, mbind, M_bind, gets. by rewrite H.
Qed.

(** X23: [DOM.isVisible] is false after [DOM.hide] and true after
    [DOM.show]; it reads the inline style only.  [hide] followed by [show]
    does not restore the previous [display] but sets [block]. *)
Theorem hide_and_show (k : string) (p : list nat) (s : page) (e : element) :
  sane_display (browser s) →
  deref (at_ k p) s = Some e →
  let r := Some (at_ k p) in
  (DOM.isVisible r (exec (DOM.hide r) s)).1 = Ok false
  ∧ (DOM.isVisible r (exec (DOM.show r None) s)).1 = Ok true
  ∧ style <$> deref (at_ k p) (exec (DOM.hide r;; DOM.show r None) s)
    = Some (<["display" := units "block"]> (style e))
  ∧ (DOM.isVisible r s).1
    = Ok (negb (bool_decide (style e !! "display" = Some (units "none")))).
Proof.
  intros [Hn Hb] He. cbv zeta. cbn [DOM.hide DOM.show default].
  assert (Hh : DOM.assign_display (at_ k p) (units "none") s
               = (Ok tt, exec (update (at_ k p)
                                 (set_style (insert "display" (units "none")))) s)).
  { by apply (assign_display_run k p (units "none") (tl (units "none")) 110%N). }
  assert (Hs : ∀ x, browser x = browser s →
               DOM.assign_display (at_ k p) (units "block") x
               = (Ok tt, exec (update (at_ k p)
                                 (set_style (insert "display" (units "block")))) x)).
  { intros x Hx.
    apply (assign_display_run k p (units "block") (tl (units "block")) 98%N).
    by rewrite Hx. }
  assert (Hv : ∀ x, DOM.isVisible (Some (at_ k p)) x
               = (Ok (if deref (at_ k p) x is Some e
                      then negb (bool_decide (style e !! "display" = Some (units "none")))
                      else true), x)) by reflexivity.
  split; [| split; [| split]].
  - unfold exec at 1. rewrite Hh, Hv. cbn [fst snd]. rewrite deref_update, He.
    cbn [fmap option_fmap option_map]. rewrite style_set_style, lookup_insert_eq.
    by rewrite bool_decide_eq_true_2.
  - unfold exec at 1. rewrite (Hs s eq_refl), Hv. cbn [fst snd]. rewrite deref_update, He.
    cbn [fmap option_fmap option_map]. rewrite style_set_style, lookup_insert_eq.
    by rewrite bool_decide_eq_false_2.
  - rewrite exec_bind, Hh. unfold exec at 1. rewrite Hs by done. cbn [snd].
    rewrite !deref_update, He. cbn [fmap option_fmap option_map].
    rewrite !style_set_style. f_equal. apply insert_insert_eq.
  - by rewrite Hv, He.
Qed.

Lemma hide_and_show_witness :
  let s := page_at_load true ∅ in
  let r := Some (at_ ".modal" []) in
  sane_display (browser s)
  ∧ deref (at_ ".modal" []) s = Some (tagged "div" ["modal"] [])
  ∧ (DOM.isVisible r (exec (DOM.hide r) s)).1 = Ok false.
Proof.
  cbv zeta.
  assert (H1 : sane_display (browser (page_at_load true ∅))) by (split; reflexivity).
  assert (H2 : deref (at_ ".modal" []) (page_at_load true ∅)
               = Some (tagged "div" ["modal"] [])) by (vm_compute; reflexivity).
  split; [exact H1 | split; [exact H2 |]].
  exact (proj1 (hide_and_show _ _ _ _ H1 H2)).
Defined.

(** *** [Tools.lightenColor] *)

(** Rounding keeps a value between two integers it lies between. *)
Lemma round_between (m e L U : Z) :
  0 <= m → e <= 0 → 0 <= L → U <= 2 ^ 52 →
  L * 2 ^ (- e) <= m <= U * 2 ^ (- e) →
  expo (round_nearest_even m e) <= 0
  ∧ 0 <= mant (round_nearest_even m e)
  ∧ L * 2 ^ (- expo (round_nearest_even m e)) <= mant (round_nearest_even m e)
    <= U * 2 ^ (- expo (round_nearest_even m e)).
Proof.
  intros Hm He HL HU [Hlo Hhi]. unfold round_nearest_even.
  set (drop := Z.log2 m + 1 - 53).
  destruct (Z.leb_spec drop 0) as [Hd | Hd]; cbn [mant expo]; [lia |].
  assert (Hmpos : 0 < m).
  { destruct (decide (m = 0)) as [-> | ?]; [| lia]. by vm_compute in Hd. }
  pose proof (Z.log2_spec m Hmpos) as [Hl1 Hl2].
  assert (HE : 0 < 2 ^ (- e)) by (apply Z.pow_pos_nonneg; lia).
  assert (Hde : drop <= - e).
  { assert (H52 : 2 ^ (Z.log2 m) <= 2 ^ (52 - e)).
    { replace (52 - e) with (52 + - e) by lia. rewrite Z.pow_add_r by lia. nia. }
    apply Z.pow_le_mono_r_iff in H52; lia. }
  set (D := 2 ^ drop). set (E' := 2 ^ (- (e + drop))).
  assert (HD : 0 < D) by (apply Z.pow_pos_nonneg; lia).
  assert (HE' : 0 < E') by (apply Z.pow_pos_nonneg; lia).
  assert (Hsplit : 2 ^ (- e) = D * E').
  { unfold D, E'. rewrite <- Z.pow_add_r by lia. f_equal. lia. }
  rewrite Hsplit in Hlo, Hhi.
  rewrite Z.shiftr_div_pow2, Z.land_ones, Z.shiftl_1_l by lia. fold D.
  pose proof (Z.div_mod m D ltac:(lia)) as Hdm.
  pose proof (Z.mod_pos_bound m D HD) as Hmod.
  set (q := m / D) in *. set (r := m mod D) in *.
  assert (Hhalf : 0 < 2 ^ (drop - 1)) by (apply Z.pow_pos_nonneg; lia).
  assert (Hq : L * E' <= q <= U * E') by nia.
  split; [lia |].
  destruct ((2 ^ (drop - 1) <? r) || (r =? 2 ^ (drop - 1)) && Z.odd q) eqn:Hup.
  - assert (Hr : 0 < r).
    { apply orb_true_iff in Hup as [Hup | Hup].
      - apply Z.ltb_lt in Hup. lia.
      - apply andb_true_iff in Hup as [Hup _]. apply Z.eqb_eq in Hup. lia. }
    split; [nia |]. split; [lia |].
    destruct (decide (q = U * E')) as [Heq | Hne]; [nia | lia].
  - split; [nia | lia].
Qed.

(** If the exact product [(255 - x) * percent] lies between the integers
    [L] and [U], the lightened channel lies between [x + L] and [x + U]. *)
Lemma lightened_between (p : double) (x L U : Z) :
  0 <= mant p → expo p <= 0 → 0 <= x → 0 <= L → U <= 255 - x →
  L * 2 ^ (- expo p) <= (255 - x) * mant p <= U * 2 ^ (- expo p) →
  x + L <= lightened p x <= x + U.
Proof.
  intros Hm He Hx HL HU Hb. unfold lightened, double_mul. cbn [mant expo].
  replace (0 + expo p) with (expo p) by lia.
  destruct (round_between ((255 - x) * mant p) (expo p) L U) as (He1 & Hm1 & Hb1);
    [nia | lia | lia | change (2 ^ 52) with 4503599627370496; lia | exact Hb |].
  set (d1 := round_nearest_even ((255 - x) * mant p) (expo p)) in *.
  unfold double_add. cbn [mant expo].
  rewrite Z.min_r by lia.
  replace (expo d1 - expo d1) with 0 by lia. rewrite Z.mul_1_r.
  replace (0 - expo d1) with (- expo d1) by lia.
  assert (HE1 : 0 < 2 ^ (- expo d1)) by (apply Z.pow_pos_nonneg; lia).
  unfold round_signed.
  destruct (Z.ltb_spec (x * 2 ^ (- expo d1) + mant d1) 0) as [Hneg | _]; [nia |].
  destruct (round_between (x * 2 ^ (- expo d1) + mant d1) (expo d1) (x + L) (x + U))
    as (He2 & Hm2 & Hb2);
    [nia | lia | lia | change (2 ^ 52) with 4503599627370496; lia | nia |].
  set (d2 := round_nearest_even _ (expo d1)) in *.
  unfold Math_round.
  destruct (Z.leb_spec 0 (expo d2)) as [H0 | H0].
  - replace (expo d2) with 0 in * by lia. change (2 ^ (- 0)) with 1 in Hb2.
    change (2 ^ 0) with 1. lia.
  - assert (HE2 : 0 < 2 ^ (- expo d2)) by (apply Z.pow_pos_nonneg; lia).
    rewrite Z.shiftr_div_pow2 by lia.
    replace (1 - expo d2) with (1 + - expo d2) by lia.
    rewrite Z.pow_add_r by lia. change (2 ^ 1) with 2.
    set (K := 2 ^ (- expo d2)) in *.
    split.
    + apply Z.div_le_lower_bound; nia.
    + apply Z.lt_succ_r. apply Z.div_lt_upper_bound; nia.
Qed.

Lemma elem_of_code_units_below (c : N) (n : nat) :
  (c < N.of_nat n)%N → c ∈ code_units_below n.
Proof.
  intros H. unfold code_units_below. apply list_elem_of_fmap.
  exists (N.to_nat c). split; [lia |]. apply elem_of_seq. lia.
Qed.

Lemma hex_value_bound (c x : N) : hex_value c = Some x → (c < 103)%N ∧ (x < 16)%N.
Proof.
  unfold hex_value.
  destruct (N.leb_spec 48 c), (N.leb_spec c 57); cbn [andb]; [intros [= <-]; lia | ..];
    (destruct (N.leb_spec 97 c), (N.leb_spec c 102); cbn [andb]; [intros [= <-]; lia | ..]);
    (destruct (N.leb_spec 65 c), (N.leb_spec c 70); cbn [andb]; [intros [= <-]; lia | ..]);
    discriminate.
Qed.

Lemma parseInt16_table :
  Forall (λ a, Forall (λ b,
            match channel a b with
            | Some x => bool_decide (parseInt16 [a; b] = Some x)
                        && negb (is_line_terminator a || is_line_terminator b)
            | None => true
            end = true) (code_units_below 103)) (code_units_below 103).
Proof. apply (bool_decide_unpack _). vm_compute. exact I. Qed.

Lemma parseInt16_channel (a b : N) (x : Z) :
  channel a b = Some x →
  parseInt16 [a; b] = Some x
  ∧ is_line_terminator a || is_line_terminator b = false
  ∧ 0 <= x <= 255.
Proof.
  intros Hc.
  assert (H : ∃ u v, hex_value a = Some u ∧ hex_value b = Some v
                     ∧ x = 16 * Z.of_N u + Z.of_N v).
  { unfold channel in Hc. destruct (hex_value a) as [u |]; [| done].
    destruct (hex_value b) as [v |]; [| done]. injection Hc as <-. eauto. }
  destruct H as (u & v & Hu & Hv & ->).
  destruct (hex_value_bound _ _ Hu) as [Ha Hu'].
  destruct (hex_value_bound _ _ Hv) as [Hb Hv'].
  pose proof (proj1 (Forall_forall _ _) parseInt16_table a
                (elem_of_code_units_below a 103 Ha)) as H.
  pose proof (proj1 (Forall_forall _ _) H b (elem_of_code_units_below b 103 Hb)) as H'.
  cbv beta in H'. rewrite Hc in H'. apply andb_true_iff in H' as [H1 H2].
  apply bool_decide_eq_true in H1. apply negb_true_iff in H2.
  split; [done |]. split; [done | lia].
Qed.

Lemma hex2_table :
  Forall (λ n, match hex2 n with
               | [a; b] => lower_hexb a && lower_hexb b
                           && bool_decide (channel a b = Some n)
               | _ => false
               end = true)
         (seqZ 0 256).
Proof. apply (bool_decide_unpack _). vm_compute. exact I. Qed.

Lemma hex2_spec (n : Z) :
  0 <= n <= 255 →
  ∃ a b, hex2 n = [a; b] ∧ lower_hex a ∧ lower_hex b ∧ channel a b = Some n.
Proof.
  intros Hn.
  pose proof (proj1 (Forall_forall _ _) hex2_table n ltac:(apply elem_of_seqZ; lia)) as H.
  cbv beta in H.
  destruct (hex2 n) as [| a [| b [| c l]]]; try discriminate H.
  apply andb_true_iff in H as [Hl Hc]. apply bool_decide_eq_true in Hc.
  exists a, b. split; [done |]. apply andb_true_iff in Hl as [Ha Hb].
  assert (Hlow : ∀ c, lower_hexb c = true → lower_hex c).
  { intros c H. unfold lower_hexb in H. unfold lower_hex.
    apply orb_true_iff in H as [H | H]; apply andb_true_iff in H as [H1 H2];
      apply N.leb_le in H1; apply N.leb_le in H2; [left | right]; lia. }
  auto.
Qed.

Lemma lighten_channel (p : double) (a b : N) (x : Z) :
  channel a b = Some x → 0 <= lightened p x →
  Tools.lighten p a b = hex2 (lightened p x).
Proof.
  intros Hc Hpos. destruct (parseInt16_channel _ _ _ Hc) as (Hp & _ & _).
  unfold Tools.lighten. rewrite Hp. unfold hex2, Number_toString16. fold (lightened p x).
  destruct (Z.ltb_spec (lightened p x) 0); [lia | done].
Qed.

Lemma lightenColor_channels (h r1 r2 g1 g2 b1 b2 : N) (p : double) (R G B : Z) :
  channel r1 r2 = Some R → channel g1 g2 = Some G → channel b1 b2 = Some B →
  0 <= lightened p R → 0 <= lightened p G → 0 <= lightened p B →
  Tools.lightenColor [h; r1; r2; g1; g2; b1; b2] p
  = units "#" ++ hex2 (lightened p R) ++ hex2 (lightened p G) ++ hex2 (lightened p B).
Proof.
  intros HR HG HB H1 H2 H3.
  unfold Tools.lightenColor. cbn [drop replace_pairs].
  destruct (parseInt16_channel _ _ _ HR) as (_ & -> & _).
  destruct (parseInt16_channel _ _ _ HG) as (_ & -> & _).
  destruct (parseInt16_channel _ _ _ HB) as (_ & -> & _).
  rewrite !lighten_channel with (x := R), !lighten_channel with (x := G),
    !lighten_channel with (x := B) by done.
  by rewrite app_nil_r.
Qed.

(** X24: for a colour [#rrggbb] (digits of either case) and a number
    between 0 and 1, [Tools.lightenColor] returns a colour [#rrggbb] in
    lowercase digits, each channel of which is at least the original and at
    most 255. *)
Theorem lightenColor_gives_a_lighter_colour (hex : jstring) (p : double) (R G B : Z) :
  fraction p → channels hex = Some (R, G, B) →
  ∃ R' G' B',
    Tools.lightenColor hex p = units "#" ++ hex2 R' ++ hex2 G' ++ hex2 B'
    ∧ channels (Tools.lightenColor hex p) = Some (R', G', B')
    ∧ Forall lower_hex (drop 1 (Tools.lightenColor hex p))
    ∧ R <= R' <= 255 ∧ G <= G' <= 255 ∧ B <= B' <= 255.
Proof.
  intros Hp Hc.
  destruct hex as [| h [| r1 [| r2 [| g1 [| g2 [| b1 [| b2 [| ? ?]]]]]]]]; try done.
  cbn [channels] in Hc.
  destruct (channel r1 r2) as [R0 |] eqn:HR; [| done].
  destruct (channel g1 g2) as [G0 |] eqn:HG; [| done].
  destruct (channel b1 b2) as [B0 |] eqn:HB; [| done].
  cbn in Hc. injection Hc as -> -> ->.
  destruct (parseInt16_channel _ _ _ HR) as (_ & _ & HR').
  destruct (parseInt16_channel _ _ _ HG) as (_ & _ & HG').
  destruct (parseInt16_channel _ _ _ HB) as (_ & _ & HB').
  assert (Hb : ∀ x, 0 <= x <= 255 → x <= lightened p x <= 255).
  { intros x Hx. destruct Hp as (Hm & He & Hle).
    pose proof (lightened_between p x 0 (255 - x)) as H.
    replace (x + 0) with x in H by lia. replace (x + (255 - x)) with 255 in H by lia.
    apply H; try lia. nia. }
  pose proof (Hb R HR') as H1. pose proof (Hb G HG') as H2. pose proof (Hb B HB') as H3.
  exists (lightened p R), (lightened p G), (lightened p B).
  rewrite (lightenColor_channels h _ _ _ _ _ _ p R G B) by (done || lia).
  destruct (hex2_spec (lightened p R)) as (a1 & a2 & -> & ? & ? & Ha); [lia |].
  destruct (hex2_spec (lightened p G)) as (c1 & c2 & -> & ? & ? & Hc); [lia |].
  destruct (hex2_spec (lightened p B)) as (d1 & d2 & -> & ? & ? & Hd); [lia |].
  split; [done |]. split.
  - cbn [units app channels]. change (units "#" ++ ?l) with (35%N :: l).
    cbn [app channels]. by rewrite Ha, Hc, Hd.
  - split; [| done]. change (units "#") with [35%N]. cbn [app drop].
    repeat (apply Forall_cons; split; [done |]). apply Forall_nil_2.
Qed.

Lemma lightenColor_gives_a_lighter_colour_witness :
  let p := Double 7205759403792794 (-55) in
  fraction p ∧ channels (units "#AbCdEf") = Some (171, 205, 239)
  ∧ ∃ R' G' B',
      Tools.lightenColor (units "#AbCdEf") p = units "#" ++ hex2 R' ++ hex2 G' ++ hex2 B'
      ∧ 171 <= R' <= 255.
Proof.
  cbv zeta.
  assert (H1 : fraction (Double 7205759403792794 (-55))).
  { unfold fraction. cbn [mant expo]. split; [| split]; [lia | lia |]. by vm_compute. }
  assert (H2 : channels (units "#AbCdEf") = Some (171, 205, 239)) by reflexivity.
  split; [exact H1 | split; [exact H2 |]].
  destruct (lightenColor_gives_a_lighter_colour _ _ _ _ _ H1 H2)
    as (R' & G' & B' & E & _ & _ & HR & _).
  exists R', G', B'. split; [exact E | exact HR].
Defined.

(** X25: lightening by 0 returns the colour itself (in lowercase), by 1
    white. *)
Theorem lightenColor_extremes (hex : jstring) (p : double) (R G B : Z) :
  channels hex = Some (R, G, B) → expo p <= 0 →
  (mant p = 0 →
   Tools.lightenColor hex p = units "#" ++ hex2 R ++ hex2 G ++ hex2 B)
  ∧ (mant p = 2 ^ (- expo p) → Tools.lightenColor hex p = units "#ffffff").
Proof.
  intros Hc He.
  destruct hex as [| h [| r1 [| r2 [| g1 [| g2 [| b1 [| b2 [| ? ?]]]]]]]]; try done.
  cbn [channels] in Hc.
  destruct (channel r1 r2) as [R0 |] eqn:HR; [| done].
  destruct (channel g1 g2) as [G0 |] eqn:HG; [| done].
  destruct (channel b1 b2) as [B0 |] eqn:HB; [| done].
  cbn in Hc. injection Hc as -> -> ->.
  destruct (parseInt16_channel _ _ _ HR) as (_ & _ & HR').
  destruct (parseInt16_channel _ _ _ HG) as (_ & _ & HG').
  destruct (parseInt16_channel _ _ _ HB) as (_ & _ & HB').
  assert (HE : 0 < 2 ^ (- expo p)) by (apply Z.pow_pos_nonneg; lia).
  split; intros Hm.
  - assert (Hx : ∀ x, 0 <= x <= 255 → lightened p x = x).
    { intros x Hx. pose proof (lightened_between p x 0 0) as H.
      rewrite Hm in H. specialize (H ltac:(lia) He ltac:(lia) ltac:(lia) ltac:(lia)
                                     ltac:(lia)). lia. }
    rewrite (lightenColor_channels h _ _ _ _ _ _ p R G B); rewrite ?Hx; (done || lia).
  - assert (Hx : ∀ x, 0 <= x <= 255 → lightened p x = 255).
    { intros x Hx. pose proof (lightened_between p x (255 - x) (255 - x)) as H.
      rewrite Hm in H. specialize (H ltac:(lia) He ltac:(lia) ltac:(lia) ltac:(lia)
                                     ltac:(lia)). lia. }
    rewrite (lightenColor_channels h _ _ _ _ _ _ p R G B); rewrite ?Hx; (done || lia).
Qed.

Lemma lightenColor_extremes_witness :
  channels (units "#336699") = Some (51, 102, 153) ∧ expo (Double 1 0) <= 0
  ∧ Tools.lightenColor (units "#336699") (Double 1 0) = units "#ffffff".
Proof.
  assert (H1 : channels (units "#336699") = Some (51, 102, 153)) by reflexivity.
  assert (H2 : expo (Double 1 0) <= 0) by (cbn; lia).
  split; [exact H1 | split; [exact H2 |]].
  exact (proj2 (lightenColor_extremes _ (Double 1 0) _ _ _ H1 H2) eq_refl).
Defined.

(** X26: the three-digit form [#abc] is not expanded: the first two digits
    are treated as one channel and the third is left as it is, so the
    result is again three digits long and no lightened [#aabbcc]. *)
Theorem lightenColor_keeps_third_digit (h a b c : N) (p : double) (x : Z) :
  fraction p → channel a b = Some x →
  ∃ x', Tools.lightenColor [h; a; b; c] p = units "#" ++ hex2 x' ++ [c]
        ∧ x <= x' <= 255
        ∧ length (Tools.lightenColor [h; a; b; c] p) = 4%nat.
Proof.
  intros Hp Hc.
  destruct (parseInt16_channel _ _ _ Hc) as (_ & Hlt & Hx).
  assert (Hb : x <= lightened p x <= 255).
  { destruct Hp as (Hm & He & Hle).
    pose proof (lightened_between p x 0 (255 - x)) as H.
    replace (x + 0) with x in H by lia. replace (x + (255 - x)) with 255 in H by lia.
    apply H; try lia. nia. }
  exists (lightened p x).
  unfold Tools.lightenColor. cbn [drop replace_pairs]. rewrite Hlt.
  rewrite (lighten_channel p a b x) by (done || lia).
  split; [done |]. split; [done |].
  destruct (hex2_spec (lightened p x)) as (d1 & d2 & -> & _); [lia | done].
Qed.

Lemma lightenColor_keeps_third_digit_witness :
  fraction (Double 1 (-1)) ∧ channel 97 98 = Some 171
  ∧ ∃ x', Tools.lightenColor (units "#abc") (Double 1 (-1)) = units "#" ++ hex2 x' ++ [99%N].
Proof.
  assert (H1 : fraction (Double 1 (-1))).
  { unfold fraction. cbn [mant expo]. split; [| split]; [lia | lia |]. by vm_compute. }
  assert (H2 : channel 97 98 = Some 171) by reflexivity.
  split; [exact H1 | split; [exact H2 |]].
  destruct (lightenColor_keeps_third_digit 35 97 98 99 _ _ H1 H2) as (x' & E & _).
  exists x'. exact E.
Defined.

(** *** Without the content slot *)

Lemma slot_absent_after_open c s :
  document s !! ".modal__content" = None →
  document (exec (Modal.open c) s) !! ".modal__content" = None.
Proof.
  intros Hs. rewrite open_exec. destruct (overlay s); cbv zeta;
    rewrite document_logged_if_ready; [| done].
  cbn [document with_body_overflow with_document].
  rewrite lookup_alter_ne by done. by rewrite lookup_alter_eq, Hs.
Qed.

(** X27: on a page without the content slot (the overlay may be there or
    not), [Modal.alert] and [Modal.confirm] with a complete template first
    open the modal and then throw a TypeError when they look for their
    buttons in the missing slot: the modal is left shown, with no listener
    on a button. *)
Theorem alert_and_confirm_without_slot_open_then_throw
    (title message : jstring) (T T' : list node) (s : page) :
  Log_ready s = true →
  document s !! ".modal__content" = None →
  filled title message T = Some T' →
  (templates s !! "modal-alert" = Some T →
   Modal.alert title message s
   = (Throw null_context, exec (Modal.open (c_fragment T')) s))
  ∧ (templates s !! "modal-confirm" = Some T →
     ∀ onConfirm,
       Modal.confirm title message onConfirm s
       = (Throw null_context, exec (Modal.open (c_fragment T')) s))
  ∧ ui (exec (Modal.open (c_fragment T')) s) = opened (ui s).
Proof.
  intros Hl Hs Hf.
  pose proof (slot_absent_after_open (c_fragment T') s Hs) as Hs1.
  split; [| split; [| apply ui_open]].
  - intros HT. unfold Modal.alert. unfold mbind at 1, M_bind at 1.
    rewrite (getTemplate_found _ _ _ HT). rewrite fill_run, Hf.
    unfold mbind at 1, M_bind at 1. rewrite open_run by done.
    unfold Modal.S.content, DOM.get, mbind, M_bind, gets, mret, M_ret.
    by rewrite Hs1.
  - intros HT k. unfold Modal.confirm. unfold mbind at 1, M_bind at 1.
    rewrite (getTemplate_found _ _ _ HT). rewrite fill_run, Hf.
    unfold mbind at 1, M_bind at 1. rewrite open_run by done.
    unfold Modal.S.content, DOM.get, mbind, M_bind, gets, mret, M_ret.
    by rewrite Hs1.
Qed.

Lemma alert_and_confirm_without_slot_open_then_throw_witness :
  let s := exec script (page_at_load false ∅) in
  let T' := default [] (filled (units "Success!") (units "Done.") alert_template) in
  Log_ready s = true
  ∧ document s !! ".modal__content" = None
  ∧ filled (units "Success!") (units "Done.") alert_template = Some T'
  ∧ Modal.alert (units "Success!") (units "Done.") s
    = (Throw null_context, exec (Modal.open (c_fragment T')) s).
Proof.
  cbv zeta.
  set (s := exec script (page_at_load false ∅)).
  set (T' := default [] (filled (units "Success!") (units "Done.") alert_template)).
  assert (H1 : Log_ready s = true) by (vm_compute; reflexivity).
  assert (H2 : document s !! ".modal__content" = None) by (vm_compute; reflexivity).
  assert (H3 : filled (units "Success!") (units "Done.") alert_template = Some T')
    by (vm_compute; reflexivity).
  assert (H4 : templates s !! "modal-alert" = Some alert_template)
    by (vm_compute; reflexivity).
  split; [exact H1 | split; [exact H2 | split; [exact H3 |]]].
  exact (proj1 (alert_and_confirm_without_slot_open_then_throw _ _ _ _ _ H1 H2 H3) H4).
Defined.

(** *** The demo, from the click on the main button to the answer *)

Lemma is_Some_alter (f : element → element) (k' k : string) (d : gmap string element) :
  is_Some (alter f k' d !! k) ↔ is_Some (d !! k).
Proof.
  destruct (decide (k = k')) as [<- | H].
  - rewrite lookup_alter_eq. apply fmap_is_Some.
  - by rewrite lookup_alter_ne.
Qed.

Lemma same_elements_update s0 r f : preserves (same_elements s0) (update r f).
Proof.
  intros x Hx. destruct r as [| k' p]; [done |].
  intros k. unfold exec, update, modify. cbn [snd document with_document].
  rewrite is_Some_alter. apply Hx.
Qed.

Lemma same_elements_and_templates_update s0 r f :
  preserves (λ x, same_elements s0 x ∧ templates x = templates s0) (update r f).
Proof.
  intros x [Hx1 Hx2]. split; [by apply same_elements_update |]. by destruct r.
Qed.

Lemma script_keeps_elements_and_templates s0 s :
  script s0 = (Ok tt, s) → same_elements s0 s ∧ templates s = templates s0.
Proof.
  intros Hrun.
  assert (H : preserves (λ x, same_elements s0 x ∧ templates x = templates s0) script).
  { unfold script, STATE.init, Storage.get, localStorage_getItem, Log.red, App.init,
      Log.init, Log.yellow, Modal.init, Modal.S.element, Modal.S.close, Listeners.init,
      DOM.on, Effects.updateMainColor, Log.white, DOM.setStyle, Storage.set,
      localStorage_setItem.
    repeat first
      [ apply preserves_shortcut; intros ? ? HP; exact HP
      | apply preserves_DOM_get
      | apply same_elements_and_templates_update
      | preserves_step ]. }
  specialize (H s0 (conj (λ k, reflexivity _) eq_refl)).
  unfold exec in H. by rewrite Hrun in H.
Qed.

Lemma script_leaves_logger_ready s0 s : script s0 = (Ok tt, s) → Log_ready s = true.
Proof.
  intros Hrun. unfold script in Hrun. unfold mbind at 1, M_bind at 1 in Hrun.
  destruct (STATE.init s0) as [[[] | ?] s1]; [| done].
  destruct (returns_App_init_steps (with_Log_ready true s1) eq_refl)
    as ([] & s' & E & Hl & _).
  assert (Happ : App.init s1 = (Ok tt, s')).
  { unfold App.init, Log.init. unfold mbind at 1, M_bind at 1, modify. exact E. }
  rewrite Happ in Hrun. by injection Hrun as <-.
Qed.

Lemma confirm_button_run (k : callback) (e : event) (s : page) :
  Log_ready s = true → k ≠ not_callable →
  ui (exec (run_handler (h_confirm k) e) s) = closed (ui s)
  ∧ called (exec (run_handler (h_confirm k) e) s) = called s ++ [k].
Proof.
  intros Hl Hk. cbn [run_handler].
  destruct (returns_Modal_close s Hl) as ([] & s1 & E & _ & _).
  pose proof (ui_close s) as Hui. pose proof (called_close s) as Hca.
  unfold exec in Hui, Hca |- *. unfold mbind, M_bind. rewrite E in Hui, Hca |- *.
  cbn [snd] in Hui, Hca.
  destruct k as [| l]; [done |]. cbn [invoke]. unfold modify. cbn [snd].
  split; [exact Hui |]. cbn. by rewrite Hca.
Qed.

(** X28: the demo end to end.  On a page the script has started (no
    listeners before, modal markup and a complete confirm template with two
    distinct buttons present): a click on the main button shows the confirm
    dialog and calls nothing; a click on its confirm button then closes the
    dialog and calls the colour-changing continuation, once; a click on its
    cancel button instead closes it and calls nothing. *)
Theorem main_button_then_answer
    (s0 s : page) (T T' : list node) (cancel ok : list nat) (e1 e2 : event) :
  script s0 = (Ok tt, s) → pristine s0 →
  is_Some (document s0 !! ".modal__content") →
  templates s0 !! "modal-confirm" = Some T →
  filled (units "Change color?") (units "Do you want to change the background color?") T
  = Some T' →
  querySelector ".modal__button--cancel" T' = Some cancel →
  querySelector ".modal__button--confirm" T' = Some ok →
  cancel ≠ ok →
  (∀ q button, q = cancel ∨ q = ok → lookup_in q T' = Some button → listeners button = []) →
  let asked := dispatch (at_ ".main__button" []) "click" e1 s in
  let confirmed := dispatch (at_ ".modal__content" ok) "click" e2 asked in
  let cancelled := dispatch (at_ ".modal__content" cancel) "click" e2 asked in
  ui asked = opened (ui s) ∧ called asked = called s
  ∧ ui confirmed = closed (ui s)
  ∧ called confirmed = called s ++ [changeColor_continuation]
  ∧ ui cancelled = closed (ui s) ∧ called cancelled = called s.
Proof.
  intros Hrun H0 Hslot0 HT0 Hf Hq1 Hq2 Hne Hno. cbv zeta.
  pose proof (script_leaves_logger_ready _ _ Hrun) as Hl.
  destruct (script_keeps_elements_and_templates _ _ Hrun) as [Hsame Htpl].
  pose proof (startup_wiring _ _ Hrun H0) as Hw.
  unfold wiring, wired, listeners_at in Hw. injection Hw as _ Hel _ Hbt.
  destruct (document s !! ".modal") as [el |] eqn:Eel; [| done].
  destruct (document s !! ".main__button") as [bt |] eqn:Ebt; [| done].
  assert (Hslot : is_Some (document s !! ".modal__content")) by (by apply Hsame).
  destruct Hslot as [slot Eslot].
  cbn in Hbt. injection Hbt as Hbt.
  assert (Hasked : dispatch (at_ ".main__button" []) "click" e1 s
                   = exec Handlers.changeColorClick s).
  { unfold dispatch, listeners_of, deref. cbn [mbind option_bind lookup_at].
    rewrite Ebt. cbn [mbind option_bind]. rewrite Hbt. reflexivity. }
  rewrite Hasked. clear Hasked.
  unfold Handlers.changeColorClick, Log.blue. rewrite exec_bind.
  rewrite shortcut_run by (vm_compute; set_solver). rewrite Hl.
  set (sb := with_console _ s).
  destruct (confirm_wires (units "Change color?")
              (units "Do you want to change the background color?")
              (Callback "changeColor") T T' cancel ok sb el slot)
    as (asked & E & Hui & Hca & L1 & L2); try done.
  { by rewrite <- HT0, <- Htpl. }
  assert (Hla : Log_ready asked = true).
  { pose proof (kept_confirm sb (units "Change color?")
                  (units "Do you want to change the background color?")
                  (Callback "changeColor") sb) as Hk.
    unfold exec in Hk. rewrite E in Hk.
    destruct Hk as (_ & _ & _ & Hk & _); [by repeat split |].
    cbn [snd] in Hk. rewrite Hk. exact Hl. }
  unfold exec at 1 2 3 4 5 6. rewrite E. cbn [snd].
  unfold dispatch. rewrite L1, L2. cbn [filter fmap list_fmap run_listeners].
  change (filter _ [("click", h_confirm (Callback "changeColor"))])
    with [("click", h_confirm (Callback "changeColor"))].
  change (filter _ [("click", h_close)]) with [("click", h_close)].
  cbn [fmap list_fmap run_listeners snd].
  destruct (confirm_button_run (Callback "changeColor") e2 asked Hla ltac:(done))
    as [Hc1 Hc2].
  split; [exact Hui |]. split; [exact Hca |].
  split; [by rewrite Hc1, Hui, closed_opened |].
  split; [by rewrite Hc2, Hca |].
  cbn [run_handler]. rewrite ui_close, called_close, Hui, closed_opened. done.
Qed.

Lemma main_button_then_answer_witness :
  let T' := default [] (filled (units "Change color?")
                          (units "Do you want to change the background color?")
                          confirm_template) in
  let e1 := Event (at_ ".main__button" []) [] in
  let e2 := Event (at_ ".modal__content" [0; 3]%nat) [] in
  let asked := dispatch (at_ ".main__button" []) "click" e1 started in
  let confirmed := dispatch (at_ ".modal__content" [0; 3]%nat) "click" e2 asked in
  script (page_at_load true ∅) = (Ok tt, started)
  ∧ pristine (page_at_load true ∅)
  ∧ querySelector ".modal__button--cancel" T' = Some [0; 2]%nat
  ∧ querySelector ".modal__button--confirm" T' = Some [0; 3]%nat
  ∧ ui asked = opened (ui started)
  ∧ ui confirmed = closed (ui started)
  ∧ called confirmed = called started ++ [changeColor_continuation].
Proof.
  cbv zeta.
  set (T' := default [] (filled (units "Change color?")
                           (units "Do you want to change the background color?")
                           confirm_template)).
  assert (H1 : script (page_at_load true ∅) = (Ok tt, started)) by (vm_compute; reflexivity).
  assert (H2 : pristine (page_at_load true ∅)) by (vm_compute; reflexivity).
  assert (H3 : is_Some (document (page_at_load true ∅) !! ".modal__content")).
  { exists (tagged "div" ["modal__content"] []). vm_compute. reflexivity. }
  assert (H4 : templates (page_at_load true ∅) !! "modal-confirm" = Some confirm_template)
    by (vm_compute; reflexivity).
  assert (H5 : filled (units "Change color?")
                 (units "Do you want to change the background color?") confirm_template
               = Some T') by (vm_compute; reflexivity).
  assert (H6 : querySelector ".modal__button--cancel" T' = Some [0; 2]%nat)
    by (vm_compute; reflexivity).
  assert (H7 : querySelector ".modal__button--confirm" T' = Some [0; 3]%nat)
    by (vm_compute; reflexivity).
  assert (H8 : [0; 2]%nat ≠ [0; 3]%nat) by discriminate.
  assert (H9 : ∀ q button, q = [0; 2]%nat ∨ q = [0; 3]%nat →
                 lookup_in q T' = Some button → listeners button = []).
  { intros q button [-> | ->] H; vm_compute in H; injection H as <-; reflexivity. }
  split; [exact H1 | split; [exact H2 | split; [exact H6 | split; [exact H7 |]]]].
  destruct (main_button_then_answer _ _ _ _ _ _
              (Event (at_ ".main__button" []) [])
              (Event (at_ ".modal__content" [0; 3]%nat) [])
              H1 H2 H3 H4 H5 H6 H7 H8 H9)
    as (Ha & _ & Hb & Hc & _).
  split; [exact Ha | split; [exact Hb | exact Hc]].
Defined.

(** *** [Tools.debounce] *)

Lemma timer_delay_ge d : d < 2 ^ 31 → Z.max d 0 <= timer_delay d.
Proof.
  intros Hd. unfold timer_delay, to_long.
  destruct (Z.lt_ge_cases d (- 2 ^ 31)) as [Hlt | Hge]; [lia |].
  rewrite Z.mod_small by lia. lia.
Qed.

Lemma follows_sooner quiet quiet' h :
  quiet' <= quiet → follows_its_request quiet h → follows_its_request quiet' h.
Proof.
  intros Hq H h1 t args h2 E. destruct (H h1 t args h2 E) as (h0 & t0 & ? & ?).
  exists h0, t0. split; [done | lia].
Qed.

Lemma follows_snoc_request quiet h t args :
  follows_its_request quiet h → follows_its_request quiet (h ++ [Requested t args]).
Proof.
  intros H h1 t' a h2 E.
  destruct h2 as [| e h2 _] using rev_ind.
  - by apply app_inj_tail in E as [_ ?].
  - rewrite app_comm_cons, app_assoc in E. apply app_inj_tail in E as [E _].
    by apply (H h1 t' a h2).
Qed.

Lemma follows_snoc_invoked quiet h t0 t args :
  follows_its_request quiet h → awaits h t0 args → t0 + quiet <= t →
  follows_its_request quiet (h ++ [Invoked t args]).
Proof.
  intros H [h0 ->] Ht h1 t' a h2 E.
  destruct h2 as [| e h2 _] using rev_ind.
  - apply app_inj_tail in E as [<- [= <- <-]]. eauto.
  - rewrite app_comm_cons, app_assoc in E. apply app_inj_tail in E as [E _].
    by apply (H h1 t' a h2).
Qed.

Lemma awaits_snoc_request h t args t0 a :
  awaits (h ++ [Requested t args]) t0 a ↔ t0 = t ∧ a = args.
Proof.
  split.
  - intros [h0 E]. apply app_inj_tail in E as [_ [= -> ->]]. done.
  - intros [-> ->]. by exists h.
Qed.

Lemma awaits_snoc_invoked h t args t0 a : ¬ awaits (h ++ [Invoked t args]) t0 a.
Proof. intros [h0 E]. by apply app_inj_tail in E as [_ ?]. Qed.

Lemma debounce_inv_step delay st st' :
  debounce_inv delay st → debounce_step delay st st' → debounce_inv delay st'.
Proof.
  intros Hinv Hstep. destruct Hstep as [v w t Ht | v w args | v w id args took Hdue Htook].
  - exact Hinv.
  - destruct Hinv as (H1 & H2 & H3 & H4 & H5).
    unfold debounce_inv, Tools.debounced, setTimeout, clearTimeout, record.
    assert (Hfresh : pending w !! fresh w = None).
    { destruct (pending w !! fresh w) eqn:E; [| done].
      specialize (H3 (fresh w) ltac:(eauto)). lia. }
    destruct v as [old |]; cbv beta iota zeta; cbn [now pending fresh trace].
    + split; [| split; [| split; [| split]]].
      * intros id a t. destruct (decide (id = fresh w)) as [-> | Hne].
        -- rewrite lookup_insert_eq. intros [= <- <-]. split; [done |].
           exists (now w). split; [by apply awaits_snoc_request | done].
        -- rewrite lookup_insert_ne by done. intros Hlk.
           destruct (decide (id = old)) as [-> | Hne'].
           ++ by rewrite lookup_delete_eq in Hlk.
           ++ rewrite lookup_delete_ne in Hlk by done.
              destruct (H1 _ _ _ Hlk) as [[= ?] _]. done.
      * intros id [= <-]. lia.
      * intros id. destruct (decide (id = fresh w)) as [-> | Hne]; [lia |].
        rewrite lookup_insert_ne by done. intros Hs.
        destruct (decide (id = old)) as [-> | Hne'].
        -- rewrite lookup_delete_eq in Hs. by destruct Hs.
        -- rewrite lookup_delete_ne in Hs by done. specialize (H3 _ Hs). lia.
      * intros t0 a Ha. apply awaits_snoc_request in Ha as [-> ->].
        exists (fresh w). by rewrite lookup_insert_eq.
      * by apply follows_snoc_request.
    + split; [| split; [| split; [| split]]].
      * intros id a t. destruct (decide (id = fresh w)) as [-> | Hne].
        -- rewrite lookup_insert_eq. intros [= <- <-]. split; [done |].
           exists (now w). split; [by apply awaits_snoc_request | done].
        -- rewrite lookup_insert_ne by done. intros Hlk.
           destruct (H1 _ _ _ Hlk) as [[=] _].
      * intros id [= <-]. lia.
      * intros id. destruct (decide (id = fresh w)) as [-> | Hne]; [lia |].
        rewrite lookup_insert_ne by done. intros Hs. specialize (H3 _ Hs). lia.
      * intros t0 a Ha. apply awaits_snoc_request in Ha as [-> ->].
        exists (fresh w). by rewrite lookup_insert_eq.
      * by apply follows_snoc_request.
  - destruct Hinv as (H1 & H2 & H3 & H4 & H5).
    unfold due in Hdue. destruct (pending w !! id) as [[a t] |] eqn:Elk; [| done].
    destruct (Z.leb_spec t (now w)) as [Hle | ?]; [| done]. injection Hdue as ->.
    destruct (H1 _ _ _ Elk) as [-> (t0 & Haw & ->)].
    unfold debounce_inv, Tools.debounce_timer, apply_func, expire.
    cbv beta iota zeta. cbn [now pending fresh trace].
    split; [| split; [| split; [| split]]].
    + intros id' a t'. destruct (decide (id' = id)) as [-> | Hne].
      * by rewrite lookup_delete_eq.
      * rewrite lookup_delete_ne by done. intros Hlk.
        destruct (H1 _ _ _ Hlk) as [[= ?] _]. done.
    + exact H2.
    + intros id'. destruct (decide (id' = id)) as [-> | Hne].
      * rewrite lookup_delete_eq. by intros [? ?].
      * rewrite lookup_delete_ne by done. apply H3.
    + intros t1 a Ha. by apply awaits_snoc_invoked in Ha.
    + eapply follows_snoc_invoked; [done | done | lia].
Qed.

Lemma debounce_inv_init delay t0 : debounce_inv delay (None, world_at t0).
Proof.
  unfold debounce_inv, world_at. cbn [now pending fresh trace].
  split; [| split; [| split; [| split]]].
  - intros id a t. by rewrite lookup_empty.
  - done.
  - intros id. rewrite lookup_empty. by intros [? ?].
  - intros t a [h0 E]. by destruct h0.
  - intros h1 t a h2 E. by destruct h1.
Qed.

Lemma debounce_inv_reachable delay t0 st :
  rtc (debounce_step delay) (None, world_at t0) st → debounce_inv delay st.
Proof.
  revert st. apply rtc_ind_r.
  - apply debounce_inv_init.
  - intros y z _ Hs IH. by eapply debounce_inv_step.
Qed.

(** X29: around a function made by [Tools.debounce] with a delay below
    2^31 milliseconds, whatever the calls of the wrapper, the passing of
    time and the timers that run: every call of [func] comes right after
    the call of the wrapper whose arguments it carries, with no other
    call of the wrapper or of [func] in between, and at least [delay]
    milliseconds later; at most one timer is live, the one in
    [timeoutId]; and the last call of the wrapper, as long as it is
    unanswered, has its timer live, so that it is not lost. *)
Theorem debounce_waits_for_quiet (delay t0 : Z) (st : option nat * world) :
  delay < 2 ^ 31 →
  rtc (debounce_step delay) (None, world_at t0) st →
  follows_its_request (Z.max delay 0) (trace st.2)
  ∧ (∀ id, is_Some (pending st.2 !! id) → st.1 = Some id)
  ∧ (∀ t args, awaits (trace st.2) t args →
       ∃ id, st.1 = Some id ∧ pending st.2 !! id = Some (args, t + timer_delay delay)).
Proof.
  intros Hd H. apply debounce_inv_reachable in H.
  destruct st as [v w]. destruct H as (H1 & _ & _ & H4 & H5). cbn [fst snd].
  split; [by eapply follows_sooner; [apply timer_delay_ge |] |]. split; [| exact H4].
  intros id [[a t] Hlk]. by destruct (H1 _ _ _ Hlk).
Qed.

Lemma debounce_waits_for_quiet_witness :
  ∃ st, 300 < 2 ^ 31
        ∧ rtc (debounce_step 300) (None, world_at 100) st
        ∧ trace st.2 = [Requested 100 [JStr (units "a")]; Requested 120 [JStr (units "b")];
                        Invoked 450 [JStr (units "b")]]
        ∧ follows_its_request (Z.max 300 0) (trace st.2).
Proof.
  assert (H : ∃ st, rtc (debounce_step 300) (None, world_at 100) st
                    ∧ trace st.2 = [Requested 100 [JStr (units "a")];
                                    Requested 120 [JStr (units "b")];
                                    Invoked 450 [JStr (units "b")]]).
  { eexists. split.
    - eapply rtc_l; [apply (debounce_call 300 None (world_at 100) [JStr (units "a")]) |].
      lazy.
      eapply rtc_l; [apply (debounce_tick 300 _ _ 120); lazy; discriminate |]. lazy.
      eapply rtc_l; [apply (debounce_call 300 _ _ [JStr (units "b")]) |]. lazy.
      eapply rtc_l; [apply (debounce_tick 300 _ _ 450); lazy; discriminate |]. lazy.
      eapply rtc_l; [| apply rtc_refl].
      apply (debounce_fire 300 _ _ 1%nat [JStr (units "b")] 1); [reflexivity | lia].
    - reflexivity. }
  destruct H as (st & Hr & Ht). exists st.
  assert (H0 : 300 < 2 ^ 31) by reflexivity.
  split; [exact H0 |]. split; [exact Hr |]. split; [exact Ht |].
  exact (proj1 (debounce_waits_for_quiet 300 100 st H0 Hr)).
Defined.

(** A delay of 2^31 milliseconds wraps to a negative one, which counts as
    0: the timer may run at once. *)
Example debounce_delay_wraps :
  ∃ st, rtc (debounce_step (2 ^ 31)) (None, world_at 100) st
        ∧ trace st.2 = [Requested 100 []; Invoked 100 []].
Proof.
  eexists. split.
  - eapply rtc_l; [apply (debounce_call (2 ^ 31) None (world_at 100) []) |]. lazy.
    eapply rtc_l; [| apply rtc_refl].
    apply (debounce_fire (2 ^ 31) _ _ 0%nat [] 0); [reflexivity | lia].
  - reflexivity.
Qed.

(** *** [Tools.throttle] *)

Lemma spaced_snoc_other limit h e :
  (∀ t a, e ≠ Invoked t a) → spaced limit h → spaced limit (h ++ [e]).
Proof.
  intros He H h1 t1 a1 h2 E t2 a2 Hin.
  destruct h2 as [| e' h2 _] using rev_ind; [by apply elem_of_nil in Hin |].
  rewrite app_comm_cons, app_assoc in E. apply app_inj_tail in E as [E <-].
  apply elem_of_app in Hin as [Hin | Hin].
  - by apply (H h1 t1 a1 h2 E t2 a2).
  - apply list_elem_of_singleton in Hin. by destruct (He t2 a2).
Qed.

Lemma spaced_snoc_invoked limit h t args :
  (∀ t1 a1, Invoked t1 a1 ∈ h → t1 + limit <= t) →
  spaced limit h → spaced limit (h ++ [Invoked t args]).
Proof.
  intros Hall H h1 t1 a1 h2 E t2 a2 Hin.
  destruct h2 as [| e' h2 _] using rev_ind; [by apply elem_of_nil in Hin |].
  rewrite app_comm_cons, app_assoc in E. apply app_inj_tail in E as [E <-].
  apply elem_of_app in Hin as [Hin | Hin].
  - by apply (H h1 t1 a1 h2 E t2 a2).
  - apply list_elem_of_singleton in Hin. injection Hin as -> ->.
    apply (Hall t1 a1). rewrite E. apply elem_of_app. right. apply elem_of_cons. by left.
Qed.

Lemma nothing_skipped_snoc h e :
  (∀ t a, e ≠ Skipped t a) → nothing_skipped h → nothing_skipped (h ++ [e]).
Proof.
  intros He H t a Hin. apply elem_of_app in Hin as [Hin | Hin]; [by apply (H t a) |].
  apply list_elem_of_singleton in Hin. by destruct (He t a).
Qed.

Lemma leading_call_snoc h e :
  h ≠ [] → leading_call h → leading_call (h ++ [e]).
Proof.
  intros Hne [-> | (t & a & h' & ->)]; [done |]. right. by exists t, a, (h' ++ [e]).
Qed.

Lemma throttle_inv_step limit st st' :
  limit < 2 ^ 31 →
  throttle_inv limit st → throttle_step limit st st' → throttle_inv limit st'.
Proof.
  intros Hlim Hinv Hstep.
  destruct Hstep as [v w t Ht | v w args took Htook | v w id args took Hdue Htook].
  - destruct Hinv as (H0 & H1 & H2 & H3 & H4 & H5 & H6 & H7 & H8 & H9 & H10).
    unfold throttle_inv, pass. cbn [now pending fresh trace].
    split; [lia |]. split; [| split; [done | split; [done | split; [| done]]]].
    + intros id a t' Hlk. destruct (H1 _ _ _ Hlk) as (? & t0 & ran & ? & ? & ? & ?).
      split; [done |]. exists t0, ran. split; [done |]. split; [lia |]. done.
    + intros ran Hr. destruct (H4 _ Hr) as [? ?]. split; [lia | done].
  - destruct Hinv as (H0 & H1 & H2 & H3 & H4 & H5 & H6 & H7 & H8 & H9 & H10).
    assert (Hfresh : pending w !! fresh w = None).
    { destruct (pending w !! fresh w) eqn:E; [| done].
      specialize (H3 (fresh w) ltac:(eauto)). lia. }
    unfold Tools.throttled.
    destruct v as [lf lr]. cbn [Tools.lastFunc Tools.lastRan] in *.
    destruct lr as [ran |]; cbn [Tools.falsy_time].
    + (* a timer is set *)
      destruct (H4 ran eq_refl) as [Hran Hinv'].
      rewrite (proj2 (Z.eqb_neq ran 0)) by lia.
      assert (Hne : trace w ≠ []).
      { intros E. by apply H5 in E. }
      assert (Hdelay := timer_delay_ge (limit - (now w - ran)) ltac:(lia)).
      unfold throttle_inv, setTimeout, clearTimeout, record.
      cbv beta iota zeta.
      assert (Hold : ∀ id' a' t',
                match lf with
                | Some i => delete i (pending w)
                | None => pending w
                end !! id' = Some (a', t') → False).
      { intros id' a' t' Hlk. destruct lf as [i |].
        - destruct (decide (id' = i)) as [-> | Hn].
          + by rewrite lookup_delete_eq in Hlk.
          + rewrite lookup_delete_ne in Hlk by done.
            destruct (H1 _ _ _ Hlk) as [[= ?] _]. done.
        - by destruct (H1 _ _ _ Hlk) as [? _]. }
      destruct lf as [i |]; cbn [now pending fresh trace default Tools.lastFunc
                                   Tools.lastRan].
      * split; [lia |]. split; [| split; [| split; [| split; [| split; [| split;
          [| split; [| split; [| split]]]]]]]].
        -- intros id a t Hlk.
           destruct (decide (id = fresh w)) as [-> | Hn].
           ++ rewrite lookup_insert_eq in Hlk. injection Hlk as <- <-.
              split; [done |]. exists (now w), ran.
              split; [by apply awaits_snoc_request |]. split; [lia |].
              split; [done | lia].
           ++ rewrite lookup_insert_ne in Hlk by done. by destruct (Hold _ _ _ Hlk).
        -- intros id [= <-]. lia.
        -- intros id. destruct (decide (id = fresh w)) as [-> | Hn]; [lia |].
           rewrite lookup_insert_ne by done. intros [[a t] Hlk].
           by destruct (Hold _ _ _ Hlk).
        -- intros r [= <-]. split; [lia |]. intros t a Hin.
           apply elem_of_app in Hin as [Hin | Hin]; [by apply (Hinv' t a) |].
           by apply list_elem_of_singleton in Hin.
        -- split; [done |]. intros E. by destruct (trace w).
        -- by apply follows_snoc_request.
        -- by apply spaced_snoc_other.
        -- by apply nothing_skipped_snoc.
        -- by apply leading_call_snoc.
        -- intros t a Ha. apply awaits_snoc_request in Ha as [-> ->].
           exists (fresh w), (now w + timer_delay (limit - (now w - ran))).
           split; [done |]. by rewrite lookup_insert_eq.
      * split; [lia |]. split; [| split; [| split; [| split; [| split; [| split;
          [| split; [| split; [| split]]]]]]]].
        -- intros id a t Hlk.
           destruct (decide (id = fresh w)) as [-> | Hn].
           ++ rewrite lookup_insert_eq in Hlk. injection Hlk as <- <-.
              split; [done |]. exists (now w), ran.
              split; [by apply awaits_snoc_request |]. split; [lia |].
              split; [done | lia].
           ++ rewrite lookup_insert_ne in Hlk by done. by destruct (Hold _ _ _ Hlk).
        -- intros id [= <-]. lia.
        -- intros id. destruct (decide (id = fresh w)) as [-> | Hn]; [lia |].
           rewrite lookup_insert_ne by done. intros [[a t] Hlk].
           by destruct (Hold _ _ _ Hlk).
        -- intros r [= <-]. split; [lia |]. intros t a Hin.
           apply elem_of_app in Hin as [Hin | Hin]; [by apply (Hinv' t a) |].
           by apply list_elem_of_singleton in Hin.
        -- split; [done |]. intros E. by destruct (trace w).
        -- by apply follows_snoc_request.
        -- by apply spaced_snoc_other.
        -- by apply nothing_skipped_snoc.
        -- by apply leading_call_snoc.
        -- intros t a Ha. apply awaits_snoc_request in Ha as [-> ->].
           exists (fresh w), (now w + timer_delay (limit - (now w - ran))).
           split; [done |]. by rewrite lookup_insert_eq.
    + (* the first call: [func] runs at once *)
      assert (Hempty : trace w = []) by (by apply H5).
      assert (Hnot : ∀ id a t, pending w !! id = Some (a, t) → False).
      { intros id a t Hlk. by destruct (H1 _ _ _ Hlk) as (_ & ? & ? & _ & _ & ? & _). }
      unfold throttle_inv, apply_func, record. cbv beta iota zeta.
      cbn [now pending fresh trace Tools.lastFunc Tools.lastRan]. rewrite Hempty.
      cbn [app].
      split; [lia |]. split; [| split; [| split; [| split; [| split; [| split;
        [| split; [| split; [| split]]]]]]]].
      * intros id a t Hlk. by destruct (Hnot _ _ _ Hlk).
      * exact H2.
      * exact H3.
      * intros r [= <-]. split; [lia |]. intros t a Hin.
        apply elem_of_cons in Hin as [? | Hin]; [done |].
        apply list_elem_of_singleton in Hin. injection Hin as -> ->. lia.
      * split; [done | done].
      * intros h1 t a h2 E. destruct h1 as [| e1 [| e2 h1]]; [done | | ].
        -- injection E as <- <- <- <-. exists [], (now w). split; [done | lia].
        -- injection E as _ _ E. by destruct h1.
      * intros h1 t1 a1 h2 E t2 a2 Hin. destruct h1 as [| e1 [| e2 h1]]; [done | | ].
        -- injection E as _ _ _ <-. by apply elem_of_nil in Hin.
        -- injection E as _ _ E. by destruct h1.
      * intros t a Hin. apply elem_of_cons in Hin as [? | Hin]; [done |].
        by apply list_elem_of_singleton in Hin.
      * right. by exists (now w), args, [].
      * intros t a [h0 E]. by destruct h0 as [| e0 [| e1 [| e2 h0]]].
  - (* a timer runs *)
    destruct Hinv as (H0 & H1 & H2 & H3 & H4 & H5 & H6 & H7 & H8 & H9 & H10).
    unfold due in Hdue. destruct (pending w !! id) as [[a t] |] eqn:Elk; [| done].
    destruct (Z.leb_spec t (now w)) as [Hle | ?]; [| done]. injection Hdue as ->.
    destruct (H1 _ _ _ Elk) as (Hlf & t0 & ran & Haw & Ht0 & Hran & Hdue).
    destruct (H4 _ Hran) as [Hr1 Hr2].
    unfold Tools.throttle_timer, expire. cbn [now pending fresh trace]. rewrite Hran.
    destruct (Z.leb_spec limit (now w - ran)) as [_ | Hlt]; [| lia].
    unfold throttle_inv, apply_func. cbv beta iota zeta.
    cbn [now pending fresh trace Tools.lastFunc Tools.lastRan].
    split; [lia |]. split; [| split; [| split; [| split; [| split; [| split;
      [| split; [| split; [| split]]]]]]]].
    + intros id' a t'. destruct (decide (id' = id)) as [-> | Hn].
      * by rewrite lookup_delete_eq.
      * rewrite lookup_delete_ne by done. intros Hlk.
        destruct (H1 _ _ _ Hlk) as [Hlf' _]. congruence.
    + exact H2.
    + intros id'. destruct (decide (id' = id)) as [-> | Hn].
      * rewrite lookup_delete_eq. by intros [? ?].
      * rewrite lookup_delete_ne by done. apply H3.
    + intros r [= <-]. split; [lia |]. intros t1 a1 Hin.
      apply elem_of_app in Hin as [Hin | Hin].
      * specialize (Hr2 _ _ Hin). lia.
      * apply list_elem_of_singleton in Hin. injection Hin as -> ->. lia.
    + split; [done |]. intros E. by destruct (trace w).
    + eapply follows_snoc_invoked; [done | done | lia].
    + apply spaced_snoc_invoked; [| done].
      intros t1 a1 Hin. specialize (Hr2 _ _ Hin). lia.
    + by apply nothing_skipped_snoc.
    + apply leading_call_snoc; [| done]. destruct Haw as [h0 ->]. by destruct h0.
    + intros t1 a1 Ha. by apply awaits_snoc_invoked in Ha.
Qed.

Lemma throttle_inv_init limit t0 :
  0 < t0 → throttle_inv limit (Tools.Vars None None, world_at t0).
Proof.
  intros Ht. unfold throttle_inv, world_at.
  cbn [now pending fresh trace Tools.lastFunc Tools.lastRan].
  split; [done |]. split; [| split; [| split; [| split; [| split; [| split;
    [| split; [| split; [| split]]]]]]]].
  - intros id a t. by rewrite lookup_empty.
  - done.
  - intros id. rewrite lookup_empty. by intros [? ?].
  - done.
  - done.
  - intros h1 t a h2 E. by destruct h1.
  - intros h1 t a h2 E. by destruct h1.
  - intros t a Hin. by apply elem_of_nil in Hin.
  - by left.
  - intros t a [h0 E]. by destruct h0.
Qed.

Lemma throttle_inv_reachable limit t0 st :
  0 < t0 → limit < 2 ^ 31 →
  rtc (throttle_step limit) (Tools.Vars None None, world_at t0) st → throttle_inv limit st.
Proof.
  intros Ht Hlim. revert st. apply rtc_ind_r.
  - by apply throttle_inv_init.
  - intros y z _ Hs IH. by eapply throttle_inv_step.
Qed.

(** X30: around a function made by [Tools.throttle] with a limit below
    2^31 milliseconds, on a clock that reads more than 0: calls of [func]
    start at least [limit] milliseconds apart;
    the first call of the wrapper calls [func] at once; every call of
    [func] comes right after the call of the wrapper whose arguments it
    carries; a timer that runs always calls [func]; at most one timer is
    live, and the last call of the wrapper, as long as it is unanswered,
    has its timer live. *)
Theorem throttle_spaces_calls (limit t0 : Z) (st : Tools.throttle_vars * world) :
  0 < t0 → limit < 2 ^ 31 →
  rtc (throttle_step limit) (Tools.Vars None None, world_at t0) st →
  spaced limit (trace st.2)
  ∧ leading_call (trace st.2)
  ∧ follows_its_request 0 (trace st.2)
  ∧ nothing_skipped (trace st.2)
  ∧ (∀ id, is_Some (pending st.2 !! id) → Tools.lastFunc st.1 = Some id)
  ∧ (∀ t args, awaits (trace st.2) t args →
       ∃ id t', Tools.lastFunc st.1 = Some id ∧ pending st.2 !! id = Some (args, t')).
Proof.
  intros Ht Hlim H. apply throttle_inv_reachable in H; [| done | done].
  destruct st as [v w].
  destruct H as (_ & H1 & _ & _ & _ & _ & H6 & H7 & H8 & H9 & H10). cbn [fst snd].
  split; [exact H7 |]. split; [exact H9 |]. split; [exact H6 |]. split; [exact H8 |].
  split; [| exact H10].
  intros id [[a t] Hlk]. by destruct (H1 _ _ _ Hlk).
Qed.

Lemma throttle_spaces_calls_witness :
  ∃ st, 0 < 100 ∧ 200 < 2 ^ 31
        ∧ rtc (throttle_step 200) (Tools.Vars None None, world_at 100) st
        ∧ trace st.2 = [Requested 100 [JStr (units "a")]; Invoked 100 [JStr (units "a")];
                        Requested 150 [JStr (units "b")]; Requested 180 [JStr (units "c")];
                        Invoked 310 [JStr (units "c")]]
        ∧ spaced 200 (trace st.2).
Proof.
  assert (H : ∃ st, rtc (throttle_step 200) (Tools.Vars None None, world_at 100) st
                    ∧ trace st.2 = [Requested 100 [JStr (units "a")];
                                    Invoked 100 [JStr (units "a")];
                                    Requested 150 [JStr (units "b")];
                                    Requested 180 [JStr (units "c")];
                                    Invoked 310 [JStr (units "c")]]).
  { eexists. split.
    - eapply rtc_l;
        [apply (throttle_call 200 (Tools.Vars None None) (world_at 100)
                  [JStr (units "a")] 5); lia |]. lazy.
      eapply rtc_l; [apply (throttle_tick 200 _ _ 150); lazy; discriminate |]. lazy.
      eapply rtc_l; [apply (throttle_call 200 _ _ [JStr (units "b")] 5); lia |]. lazy.
      eapply rtc_l; [apply (throttle_tick 200 _ _ 180); lazy; discriminate |]. lazy.
      eapply rtc_l; [apply (throttle_call 200 _ _ [JStr (units "c")] 5); lia |]. lazy.
      eapply rtc_l; [apply (throttle_tick 200 _ _ 310); lazy; discriminate |]. lazy.
      eapply rtc_l; [| apply rtc_refl].
      apply (throttle_fire 200 _ _ 1%nat [JStr (units "c")] 5); [reflexivity | lia].
    - reflexivity. }
  destruct H as (st & Hr & Ht). exists st.
  assert (H0 : 0 < 100) by reflexivity.
  assert (H1 : 200 < 2 ^ 31) by reflexivity.
  split; [exact H0 |]. split; [exact H1 |]. split; [exact Hr |]. split; [exact Ht |].
  exact (proj1 (throttle_spaces_calls 200 100 st H0 H1 Hr)).
Defined.

(** On a clock that reads 0 the first run leaves [lastRan] at 0, which
    [!lastRan] takes for "never ran": the next call runs [func] again at
    once. *)
Example throttle_at_time_zero :
  ∃ st, rtc (throttle_step 200) (Tools.Vars None None, world_at 0) st
        ∧ trace st.2 = [Requested 0 []; Invoked 0 []; Requested 0 []; Invoked 0 []].
Proof.
  eexists. split.
  - eapply rtc_l;
      [apply (throttle_call 200 (Tools.Vars None None) (world_at 0) [] 0); lia |]. lazy.
    eapply rtc_l; [| apply rtc_refl].
    apply (throttle_call 200 _ _ [] 0). lia.
  - reflexivity.
Qed.
